(** * PyMTL: the Bits value type and the translation visitors

    A shallow embedding of [new_pymtl/Bits.py] and of the AST passes of
    [new_pymtl/translation/visitors.py], with the properties of both that
    the specification states.

    Python integers are unbounded, so they are [Z]; [&], [|], [~], [<<] and
    [>>] are [Z.land], [Z.lor], [Z.lnot], [Z.shiftl] and [Z.shiftr].  A call
    that may raise returns a [result]; the visitors thread their instance
    attributes ([self.current_obj], [self.submodule], ...) as explicit
    state. *)

From Stdlib Require Import ZArith Lia Bool.
From stdpp Require Import base option list strings gmap.

#[local] Set Warnings "-register-all".

(** ** Exceptions *)

Inductive pyexn : Type :=
| AssertionError
| AttributeError (attr : string)
| IndexError
| TypeError
| ValueError
| Exception_ (msg : string).

Inductive result (A : Type) : Type :=
| Ok (a : A)
| Raise (e : pyexn).
Arguments Ok {A} a.
Arguments Raise {A} e.

#[global] Instance result_ret : MRet result := fun _ a => Ok a.
#[global] Instance result_bind : MBind result := fun _ _ f m =>
  match m with
  | Ok a => f a
  | Raise e => Raise e
  end.

Definition raises {A} (m : result A) : Prop := ∃ e, m = Raise e.

(** [assert c] *)
Definition py_assert (c : bool) : result unit :=
  if c then Ok () else Raise AssertionError.

(** ** Bits.py *)

Module Bits.
Local Open Scope Z_scope.

(** The attributes [_max], [_min] and [_mask] are functions of [nbits] and
    are never reassigned, so the record keeps the two independent fields. *)
Record Bits : Type := mkBits { nbits : Z; _uint : Z }.

Definition _max (self : Bits) : Z := 2 ^ nbits self - 1.
Definition _min (self : Bits) : Z := - 2 ^ nbits self.
Definition _mask (self : Bits) : Z := Z.shiftl 1 (nbits self) - 1.

(** The second operand of an operator: another [Bits] or a plain integer.
    Python 2 has two integer types: [OInt n] is the integer [n] as a
    literal or [int] arithmetic gives it, an [int] while it fits the
    machine word and a [long] beyond it; [OLong n] is a [long] whatever
    its size ([5L]). *)
Inductive operand : Type :=
| OBits (b : Bits)
| OInt (n : Z)
| OLong (n : Z).

(** [sys.maxint] of a 64-bit platform, [2^63 - 1]. *)
Definition maxint : Z := 9223372036854775807.

(** [isinstance( other, int )] *)
Definition isinstance_int (other : operand) : bool :=
  match other with
  | OInt n => (- maxint - 1 <=? n) && (n <=? maxint)
  | _ => false
  end.

(** The address of [__getitem__] and [write_slice]: a slice (with [None]
    allowed on either side) or an integer. *)
Inductive addr : Type :=
| ASlice (start stop : option Z)
| AInt (i : Z).

(** [Bits.__init__( self, nbits, value = 0, trunc = False )] *)
Definition __init__ (nbits value : Z) (trunc : bool) : result Bits :=
  _ ← py_assert (0 <? nbits);
  let self := mkBits nbits 0 in
  _ ← (if trunc then Ok ()
       else py_assert ((_min self <=? value) && (value <=? _max self)));
  let value_uint := if 0 <=? value then value else Z.lnot (- value) + 1 in
  Ok (mkBits nbits (Z.land value_uint (_mask self))).

Definition uint (self : Bits) : Z := _uint self.

(** [if isinstance( value, Bits ): value = value._uint] *)
Definition to_uint (value : operand) : Z :=
  match value with
  | OBits b => _uint b
  | OInt n | OLong n => n
  end.

(** [Bits.write]; the result is the updated object. *)
Definition write (self : Bits) (value : operand) : result Bits :=
  let value := to_uint value in
  _ ← py_assert ((_min self <=? value) && (value <=? _max self));
  Ok (mkBits (nbits self) (Z.land value (_mask self))).

(** [Bits.__getitem__] *)
Definition __getitem__ (self : Bits) (a : addr) : result Bits :=
  match a with
  | ASlice None None => __init__ (nbits self) (_uint self) false
  | ASlice start stop =>
      let start := default 0 start in
      let stop := default (nbits self) stop in
      _ ← py_assert ((0 <=? start) && (start <? stop) && (stop <=? nbits self));
      let nbits := stop - start in
      let mask := Z.shiftl 1 nbits - 1 in
      __init__ nbits (Z.shiftr (Z.land (_uint self) (Z.shiftl mask start)) start) false
  | AInt addr =>
      _ ← py_assert ((0 <=? addr) && (addr <? nbits self));
      __init__ 1 (Z.shiftr (Z.land (_uint self) (Z.shiftl 1 addr)) addr) false
  end.

(** [Bits.write_slice]; the result is the updated object. *)
Definition write_slice (self : Bits) (a : addr) (value : operand) : result Bits :=
  let value := to_uint value in
  match a with
  | ASlice None None =>
      _ ← py_assert ((_min self <=? value) && (value <=? _max self));
      Ok (mkBits (nbits self) value)
  | ASlice start stop =>
      let start := default 0 start in
      let stop := default (nbits self) stop in
      _ ← py_assert ((0 <=? start) && (start <? stop) && (stop <=? nbits self));
      let nbits' := stop - start in
      _ ← py_assert ((_min self <=? value) && (value <=? _max self));
      let ones := Z.shiftl 1 nbits' - 1 in
      let mask := Z.lnot (Z.shiftl ones start) in
      let cleared_val := Z.land (_uint self) mask in
      Ok (mkBits (nbits self) (Z.lor cleared_val (Z.shiftl (Z.land value ones) start)))
  | AInt addr =>
      _ ← py_assert ((0 <=? addr) && (addr <? nbits self));
      _ ← py_assert ((0 <=? value) && (value <=? 1));
      let mask := Z.lnot (Z.shiftl 1 addr) in
      let cleared_val := Z.land (_uint self) mask in
      Ok (mkBits (nbits self) (Z.lor cleared_val (Z.shiftl value addr)))
  end.

Definition __invert__ (self : Bits) : result Bits :=
  __init__ (nbits self) (Z.lnot (_uint self)) true.

(** [if not isinstance( other, Bits ): other = Bits( self.nbits, other )] *)
Definition coerce (self : Bits) (other : operand) : result Bits :=
  match other with
  | OBits b => Ok b
  | OInt n | OLong n => __init__ (nbits self) n false
  end.

Definition __add__ (self : Bits) (other : operand) : result Bits :=
  other ← coerce self other;
  __init__ (Z.max (nbits self) (nbits other)) (_uint self + _uint other) true.

Definition __sub__ (self : Bits) (other : operand) : result Bits :=
  other ← coerce self other;
  __init__ (Z.max (nbits self) (nbits other)) (_uint self - _uint other) true.

(** A [long] operand is no [int], so it reaches the [else] branch, where
    [other.nbits] is read off it. *)
Definition __mul__ (self : Bits) (other : operand) : result Bits :=
  if isinstance_int other then
    __init__ (2 * nbits self) (_uint self * to_uint other) false
  else
    match other with
    | OBits other =>
        _ ← py_assert (nbits self =? nbits other);
        __init__ (2 * nbits self) (_uint self * _uint other) false
    | _ => Raise (AttributeError "nbits")
    end.

Definition __radd__ (self : Bits) (other : operand) : result Bits :=
  __add__ self other.

Definition __rmul__ (self : Bits) (other : operand) : result Bits :=
  __mul__ self other.

(** [operator.lshift] and [operator.rshift] raise [ValueError] on a
    negative shift count. *)
Definition operator_lshift (a b : Z) : result Z :=
  if b <? 0 then Raise ValueError else Ok (Z.shiftl a b).
Definition operator_rshift (a b : Z) : result Z :=
  if b <? 0 then Raise ValueError else Ok (Z.shiftr a b).

(** The shift count: [other] for an [int], [other._uint] for anything
    else, which a [long] does not have. *)
Definition shift_count (other : operand) : result Z :=
  if isinstance_int other then Ok (to_uint other)
  else
    match other with
    | OBits b => Ok (_uint b)
    | _ => Raise (AttributeError "_uint")
    end.

Definition __lshift__ (self : Bits) (other : operand) : result Bits :=
  other ← shift_count other;
  if nbits self <=? other then __init__ (nbits self) 0 false
  else
    v ← operator_lshift (_uint self) other;
    __init__ (nbits self) v true.

Definition __rshift__ (self : Bits) (other : operand) : result Bits :=
  other ← shift_count other;
  v ← operator_rshift (_uint self) other;
  __init__ (nbits self) v false.

(** [Bits.__ge__], used by the [assert other >= 0] of the bitwise
    operators. *)
Definition __ge__ (self : Bits) (other : operand) : result bool :=
  other ← match other with
          | OBits b => _ ← py_assert (nbits self =? nbits b); Ok (_uint b)
          | OInt n | OLong n => Ok n
          end;
  _ ← py_assert (0 <=? other);
  Ok (other <=? _uint self).

(** [__and__], [__xor__] and [__or__]: only an [int] is made a [Bits];
    a [long] passes [assert other >= 0] as a number and then has no
    [nbits]. *)
Definition bitwise (op : Z → Z → Z) (self : Bits) (other : operand) : result Bits :=
  other ← (if isinstance_int other then
             b ← __init__ (nbits self) (to_uint other) false; Ok (OBits b)
           else Ok other);
  c ← match other with
      | OBits b => __ge__ b (OInt 0)
      | OInt n | OLong n => Ok (0 <=? n)
      end;
  _ ← py_assert c;
  match other with
  | OBits other =>
      __init__ (Z.max (nbits self) (nbits other)) (op (_uint self) (_uint other)) false
  | _ => Raise (AttributeError "nbits")
  end.

Definition __and__ := bitwise Z.land.
Definition __xor__ := bitwise Z.lxor.
Definition __or__ := bitwise Z.lor.

Definition __nonzero__ (self : Bits) : bool := negb (_uint self =? 0).

(** [Bits.int]: the signed reading. *)
Definition int (self : Bits) : result Z :=
  top ← __getitem__ self (AInt (nbits self - 1));
  if __nonzero__ top then
    inv ← __invert__ self;
    twos_complement ← __add__ inv (OInt 1);
    Ok (- _uint twos_complement)
  else Ok (_uint self).

Definition _zext (self : Bits) (new_width : Z) : result Bits :=
  __init__ new_width (_uint self) false.

Definition _sext (self : Bits) (new_width : Z) : result Bits :=
  v ← int self;
  __init__ new_width v false.

(** The representation invariant: a positive width and a stored value
    that fits in it. *)
Definition valid (b : Bits) : Prop :=
  0 < nbits b ∧ 0 <= _uint b <= 2 ^ nbits b - 1.

(** The comparison operators: [__eq__], [__ne__], [__lt__], [__le__] and
    [__gt__] share the two assertions of [__ge__] and differ in the
    operator they end with. *)
Definition compare (op : Z → Z → bool) (self : Bits) (other : operand) : result bool :=
  other ← match other with
          | OBits b => _ ← py_assert (nbits self =? nbits b); Ok (_uint b)
          | OInt n | OLong n => Ok n
          end;
  _ ← py_assert (0 <=? other);
  Ok (op (_uint self) other).

Definition __eq__ := compare Z.eqb.
Definition __ne__ := compare (λ a b, negb (a =? b)).
Definition __lt__ := compare Z.ltb.
Definition __le__ := compare Z.leb.
Definition __gt__ := compare Z.gtb.

(** [int.bit_length()]: the number of binary digits of the absolute
    value, [0] for [0]. *)
Definition int_bit_length (x : Z) : Z :=
  if x =? 0 then 0 else Z.log2 (Z.abs x) + 1.

Definition bit_length (self : Bits) : Z := int_bit_length (_uint self).

Definition __rand__ := __and__.
Definition __rxor__ := __xor__.
Definition __ror__ := __or__.

(** Operators on integers that set no bit which is clear in both
    operands, and give no negative result on operands that are not
    negative. *)
Definition bitwise_op (op : Z → Z → Z) : Prop :=
  (∀ x y i, 0 <= i → Z.testbit x i = false → Z.testbit y i = false →
            Z.testbit (op x y) i = false) ∧
  (∀ x y, 0 <= x → 0 <= y → 0 <= op x y).

End Bits.

(** ** Live Python objects

    The design objects the visitors meet ([Model], [PortBundle], the
    signal classes, [PortList]) are declared outside [visitors.py]; the
    visitors only read and set attributes on them, test their class, index
    them and iterate over them. *)

Inductive pyclass : Type :=
| Model | PortBundle | Signal | InPort | OutPort | Wire | BitsClass | Object.

(** Modelled from the spec: the object graph of section 3 (component
    instance, bundle, signal, bit-vector constant, plain host value,
    indexed list), whose classes are missing from the sources.  An
    instance is its class and its attribute dictionary; a list carries
    attributes too, as [PortList] subclasses [list].  Attributes that the
    builtin types bring themselves (the methods of [int], ...) and a
    class's own [__getitem__] are not part of the model. *)
Inductive pyobj : Type :=
| PyNone
| PyInt (n : Z)
| PyStr (s : string)
| PyTuple (elts : list pyobj)
| PyList (elts : list pyobj) (fields : list (string * pyobj))
| PyInst (cls : pyclass) (fields : list (string * pyobj)).

Definition pyclass_eqb (c d : pyclass) : bool :=
  match c, d with
  | Model, Model | PortBundle, PortBundle | Signal, Signal | InPort, InPort
  | OutPort, OutPort | Wire, Wire | BitsClass, BitsClass | Object, Object => true
  | _, _ => false
  end.

(** Objects are values here: two objects with the same class and the same
    attributes are the same object. *)
Fixpoint pyobj_eqb (a b : pyobj) : bool :=
  let eqb_list :=
    fix go (xs ys : list pyobj) : bool :=
      match xs, ys with
      | [], [] => true
      | x :: xs, y :: ys => pyobj_eqb x y && go xs ys
      | _, _ => false
      end in
  let eqb_fields :=
    fix go (fs gs : list (string * pyobj)) : bool :=
      match fs, gs with
      | [], [] => true
      | (k, v) :: fs, (k', v') :: gs => String.eqb k k' && pyobj_eqb v v' && go fs gs
      | _, _ => false
      end in
  match a, b with
  | PyNone, PyNone => true
  | PyInt m, PyInt n => (m =? n)%Z
  | PyStr s, PyStr t => String.eqb s t
  | PyTuple xs, PyTuple ys => eqb_list xs ys
  | PyList xs fs, PyList ys gs => eqb_list xs ys && eqb_fields fs gs
  | PyInst c fs, PyInst d gs => pyclass_eqb c d && eqb_fields fs gs
  | _, _ => false
  end.

Fixpoint assoc {A} (k : string) (l : list (string * A)) : option A :=
  match l with
  | [] => None
  | (k', v) :: l => if String.eqb k k' then Some v else assoc k l
  end.

Fixpoint assoc_set {A} (k : string) (v : A) (l : list (string * A)) : list (string * A) :=
  match l with
  | [] => [(k, v)]
  | (k', v') :: l => if String.eqb k k' then (k, v) :: l else (k', v') :: assoc_set k v l
  end.

(** [getattr( o, name )]; [None] stands for [AttributeError]. *)
Definition py_getattr (o : pyobj) (name : string) : option pyobj :=
  match o with
  | PyList _ fields | PyInst _ fields => assoc name fields
  | _ => None
  end.

Definition getattr (o : pyobj) (name : string) : result pyobj :=
  match py_getattr o name with
  | Some x => Ok x
  | None => Raise (AttributeError name)
  end.

Definition hasattr (o : pyobj) (name : string) : bool :=
  match py_getattr o name with Some _ => true | None => false end.

(** [o.name = v] *)
Definition setattr (o : pyobj) (name : string) (v : pyobj) : result pyobj :=
  match o with
  | PyList elts fields => Ok (PyList elts (assoc_set name v fields))
  | PyInst cls fields => Ok (PyInst cls (assoc_set name v fields))
  | _ => Raise (AttributeError name)
  end.

(** [o[0]] *)
Definition getitem0 (o : pyobj) : result pyobj :=
  match o with
  | PyTuple (x :: _) | PyList (x :: _) _ => Ok x
  | PyTuple [] | PyList [] _ => Raise IndexError
  | _ => Raise TypeError
  end.

Definition is_int (o : pyobj) : bool :=
  match o with PyInt _ => true | _ => false end.
Definition is_tuple (o : pyobj) : bool :=
  match o with PyTuple _ => true | _ => false end.
Definition is_list (o : pyobj) : bool :=
  match o with PyList _ _ => true | _ => false end.
Definition isinstance (o : pyobj) (c : pyclass) : bool :=
  match o, c with
  | PyInst (Signal | InPort | OutPort | Wire) _, Signal => true
  | PyInst d _, _ => pyclass_eqb d c
  | _, _ => false
  end.

(** Modelled from the spec: the constructor [Wire( nbits )] of the missing
    [signals.py], a temporary signal of the given width. *)
Definition mkWire (nbits : Z) : pyobj := PyInst Wire [("nbits", PyInt nbits)].

(** A set of objects, in insertion order. *)
Definition pyset_in (x : pyobj) (s : list pyobj) : bool := existsb (pyobj_eqb x) s.
Definition pyset_add (x : pyobj) (s : list pyobj) : list pyobj :=
  if pyset_in x s then s else s ++ [x].

(** ** Syntax trees

    The nodes of Python 2's [ast] that the visitors handle.  A child that
    [NodeTransformer.generic_visit] may delete (a visit that returns [None]
    runs [delattr] on the field) is an [option].  [_object] is the
    annotation slot: [None] when the attribute was never set on the node,
    [Some PyNone] when it holds Python's [None]. *)

Inductive expr_context : Type := Load | Store | Param.
Inductive boolop : Type := And | Or.
Inductive operator : Type := Add | Sub | Mult | LShift | RShift | BitOr | BitXor | BitAnd.
Inductive cmpop : Type := Eq | NotEq | Lt | LtE | Gt | GtE.

Definition annot : Type := option pyobj.

Inductive expr : Type :=
| Num (n : Z)
| Name (id : string) (ctx : expr_context) (_object : annot)
| Attribute (value : option expr) (attr : string) (ctx : expr_context) (_object : annot)
| Subscript (value : option expr) (slice : option expr) (ctx : expr_context) (_object : annot)
| Index (value : option expr)
| Slice (lower upper step : option expr)
| Call (func : option expr) (args : list expr)
| BinOp (left : option expr) (op : operator) (right : option expr)
| BoolOp (op : boolop) (values : list expr)
| Compare (left : option expr) (ops : list cmpop) (comparators : list expr)
| List_ (elts : list expr) (ctx : expr_context) (_object : annot).

Inductive stmt : Type :=
| Assign (targets : list expr) (value : expr)
| AugAssign (target : expr) (op : operator) (value : expr)
| For (target iter : expr) (body orelse : list stmt)
| If (test : expr) (body orelse : list stmt)
| Expr (value : expr)
| Pass.

Record FunctionDef (D : Type) : Type := mkFunctionDef {
  name : string;
  args : list string;
  body : list stmt;
  decorator_list : list D
}.
Arguments mkFunctionDef {D}.
Arguments name {D}.
Arguments args {D}.
Arguments body {D}.
Arguments decorator_list {D}.

(** [node._object] *)
Definition get_object (e : expr) : result pyobj :=
  match e with
  | Name _ _ (Some o) | Attribute _ _ _ (Some o)
  | Subscript _ _ _ (Some o) | List_ _ _ (Some o) => Ok o
  | _ => Raise (AttributeError "_object")
  end.

(** [node.attr] and [node.id] *)
Definition get_attr (e : expr) : result string :=
  match e with
  | Attribute _ attr _ _ => Ok attr
  | _ => Raise (AttributeError "attr")
  end.
Definition get_id (e : expr) : result string :=
  match e with
  | Name id _ _ => Ok id
  | _ => Raise (AttributeError "id")
  end.

(** Running a stateful visit over the items of a list field, left to
    right. *)
Fixpoint mapM {A B} (f : A → result B) (l : list A) : result (list B) :=
  match l with
  | [] => Ok []
  | x :: l => y ← f x; ys ← mapM f l; Ok (y :: ys)
  end.

(** A test on the child in a field that may have been deleted. *)
Definition all_field (f : expr → bool) (o : option expr) : bool :=
  match o with
  | Some e => f e
  | None => true
  end.

(** The reserved accessor names, [['next', 'value', 'n', 'v']]. *)
Definition accessors : list string := ["next"; "value"; "n"; "v"].
Definition str_in (s : string) (l : list string) : bool := existsb (String.eqb s) l.

(** ** AnnotateWithObjects: the binder

    [PyObj] instances are mutable and reached through [self.current_obj]
    and through the local [stash] of [visit_Subscript], so they live in a
    heap and both hold addresses. *)

Module AnnotateWithObjects.

Record PyObj : Type := mkPyObj { name : string; inst : pyobj }.

(** [self.model], [self.func.func_globals] and [self.closed_vars] *)
Record env : Type := mkEnv {
  model : pyobj;
  func_globals : gmap string pyobj;
  closed_vars : gmap string pyobj
}.

Record state : Type := mkState {
  heap : list PyObj;
  current_obj : option nat
}.

Definition init : state := mkState [] None.

Definition set_current (c : option nat) (st : state) : state :=
  mkState (heap st) c.

(** [self.current_obj = PyObj( name, inst )] *)
Definition new_PyObj (name : string) (inst : pyobj) (st : state) : state :=
  mkState (heap st ++ [mkPyObj name inst]) (Some (length (heap st))).

(** The object [self.current_obj] points to, with its address. *)
Definition deref (st : state) : option (nat * PyObj) :=
  r ← current_obj st; po ← heap st !! r; Some (r, po).

(** [PyObj.update], on the object at address [r] *)
Definition update (r : nat) (name' : string) (inst' : pyobj) (st : state) : state :=
  match heap st !! r with
  | Some po => mkState (<[r := mkPyObj (name po ++ name') inst']> (heap st)) (current_obj st)
  | None => st
  end.

(** [self.current_obj.inst if self.current_obj else None] *)
Definition current_inst (st : state) : pyobj :=
  match deref st with
  | Some (_, po) => inst po
  | None => PyNone
  end.

Definition visit_Name (E : env) (id : string) (ctx : expr_context) (st : state)
  : expr * state :=
  let st' :=
    match func_globals E !! id with
    | Some g => new_PyObj "" g st
    | None =>
        match closed_vars E !! id with
        | None => set_current None st
        | Some v =>
            if pyobj_eqb v (model E) then new_PyObj "" v st
            else new_PyObj id v st
        end
    end in
  (Name id ctx (Some (current_inst st')), st').

(** What [visit_Attribute] does once [generic_visit] has visited the
    receiver. *)
Definition bind_Attribute (value : option expr) (attr : string) (ctx : expr_context)
    (st : state) : result (expr * state) :=
  st' ← match deref st with
        | Some (r, po) =>
            match py_getattr (inst po) attr with
            | Some x => Ok (update r attr x st)
            | None =>
                if str_in attr accessors then Ok st
                else Raise (Exception_ ("Error: Unknown attribute for this object: " ++ attr))
            end
        | None => Ok st
        end;
  Ok (Attribute value attr ctx (Some (current_inst st')), st').

(** What [visit_Subscript] does once the container and the index have been
    visited and [self.current_obj] is the stash again. *)
Definition bind_Subscript (value slice : expr) (ctx : expr_context) (st : state)
  : result (expr * state) :=
  let _object := current_inst st in
  st' ← match deref st with
        | Some (r, po) => x ← getitem0 (inst po); Ok (update r "[]" x st)
        | None => Ok st
        end;
  Ok (Subscript (Some value) (Some slice) ctx (Some _object), st').

Fixpoint visit (E : env) (node : expr) (st : state) {struct node}
  : result (expr * state) :=
  let visit_field := fun (o : option expr) (st : state) =>
    match o with
    | Some e => '(e', st') ← visit E e st; Ok (Some e', st')
    | None => Ok (None, st)
    end in
  let visit_items :=
    fix go (l : list expr) (st : state) : result (list expr * state) :=
      match l with
      | [] => Ok ([], st)
      | e :: l => '(e', st1) ← visit E e st; '(l', st2) ← go l st1; Ok (e' :: l', st2)
      end in
  match node with
  | Num n => Ok (node, st)
  | Name id ctx _ => Ok (visit_Name E id ctx st)
  | Attribute value attr ctx _ =>
      '(value', st1) ← visit_field value st;
      bind_Attribute value' attr ctx st1
  | Subscript value slice ctx _ =>
      match value, slice with
      | Some value, Some slice =>
          '(value', st1) ← visit E value st;
          let stash := current_obj st1 in
          '(slice', st2) ← visit E slice (set_current None st1);
          bind_Subscript value' slice' ctx (set_current stash st2)
      | None, _ => Raise (AttributeError "value")
      | Some value, None =>
          _ ← visit E value st; Raise (AttributeError "slice")
      end
  | Index value =>
      '(value', st1) ← visit_field value st; Ok (Index value', st1)
  | Slice lower upper step =>
      '(lower', st1) ← visit_field lower st;
      '(upper', st2) ← visit_field upper st1;
      '(step', st3) ← visit_field step st2;
      Ok (Slice lower' upper' step', st3)
  | Call func args =>
      '(func', st1) ← visit_field func st;
      '(args', st2) ← visit_items args st1;
      Ok (Call func' args', st2)
  | BinOp lhs op rhs =>
      '(lhs', st1) ← visit_field lhs st;
      '(rhs', st2) ← visit_field rhs st1;
      Ok (BinOp lhs' op rhs', st2)
  | BoolOp op values =>
      '(values', st1) ← visit_items values st; Ok (BoolOp op values', st1)
  | Compare lhs ops comparators =>
      '(lhs', st1) ← visit_field lhs st;
      '(comparators', st2) ← visit_items comparators st1;
      Ok (Compare lhs' ops comparators', st2)
  | List_ elts ctx _ =>
      let visit_elts :=
        fix go (l : list expr) (st : state) : result (list expr * list pyobj * state) :=
          match l with
          | [] => Ok ([], [], st)
          | e :: l =>
              '(e', st1) ← visit E e st;
              o ← get_object e';
              '(l', os, st2) ← go l st1;
              Ok (e' :: l', o :: os, st2)
          end in
      '(elts', objs, st1) ← visit_elts elts st;
      Ok (List_ elts' ctx (Some (PyList objs [])), st1)
  end.

(** The helpers of [visit] by name: [generic_visit] on a single child, on
    a list of children, and the loop of [visit_List]. *)
Definition visit_field (E : env) (o : option expr) (st : state)
  : result (option expr * state) :=
  match o with
  | Some e => '(e', st') ← visit E e st; Ok (Some e', st')
  | None => Ok (None, st)
  end.

Definition visit_items (E : env) : list expr → state → result (list expr * state) :=
  fix go (l : list expr) (st : state) : result (list expr * state) :=
    match l with
    | [] => Ok ([], st)
    | e :: l => '(e', st1) ← visit E e st; '(l', st2) ← go l st1; Ok (e' :: l', st2)
    end.

Definition visit_elts (E : env)
  : list expr → state → result (list expr * list pyobj * state) :=
  fix go (l : list expr) (st : state) : result (list expr * list pyobj * state) :=
    match l with
    | [] => Ok ([], [], st)
    | e :: l =>
        '(e', st1) ← visit E e st;
        o ← get_object e';
        '(l', os, st2) ← go l st1;
        Ok (e' :: l', o :: os, st2)
    end.

(** What a traversal may do to the heap: it allocates, and it updates the
    object [self.current_obj] points to, or objects it allocated itself.
    Every other object is left as it is. *)
Definition frame (s s' : state) : Prop :=
  length (heap s) ≤ length (heap s') ∧
  (∀ r, r < length (heap s) → current_obj s ≠ Some r → heap s' !! r = heap s !! r) ∧
  (current_obj s' = current_obj s ∨ current_obj s' = None ∨
   ∃ r, current_obj s' = Some r ∧ length (heap s) ≤ r).

(** The visit of a node respects the frame. *)
Definition framing (E : env) (e : expr) : Prop :=
  ∀ st e' st', visit E e st = Ok (e', st') → frame st st'.

End AnnotateWithObjects.

(** ** SimplifyDecorator *)

Module SimplifyDecorator.

Definition visit_FunctionDef (node : FunctionDef expr) : result (FunctionDef string) :=
  _ ← py_assert (negb (length (decorator_list node) =? 0)%nat);
  match decorator_list node with
  | d :: _ =>
      dec ← get_attr d;
      Ok (mkFunctionDef (name node) (args node) (body node) [dec])
  | [] => Raise IndexError
  end.

End SimplifyDecorator.

(** ** ThreeExprLoops *)

Module ThreeExprLoops.

(** The [if/elif] chain on [len( call.args )]. *)
Definition bounds (args : list expr) : result (expr * expr * expr) :=
  match args with
  | [a0] => Ok (Num 0, a0, Num 1)
  | [a0; a1] => Ok (a0, a1, Num 1)
  | [a0; a1; a2] => Ok (a0, a1, a2)
  | _ => Raise (Exception_ "Invalid # of arguments to range function!")
  end.

(** [visit_For] after its [generic_visit]. *)
Definition rewrite_For (target iter : expr) (body orelse : list stmt) : result stmt :=
  match iter with
  | Call func args =>
      match func with
      | Some (Name id _ _) =>
          _ ← py_assert (str_in id ["range"; "xrange"]);
          '(start, stop, step) ← bounds args;
          Ok (For target (Slice (Some start) (Some stop) (Some step)) body orelse)
      | Some _ => Raise AssertionError
      | None => Raise (AttributeError "func")
      end
  | _ => Raise AssertionError
  end.

(** The transformer on statements.  Only [visit_For] is defined and no
    expression contains a statement, so [generic_visit] leaves expressions
    as they are and descends into the statement lists. *)
Fixpoint visit (node : stmt) : result stmt :=
  let visit_items :=
    fix go (l : list stmt) : result (list stmt) :=
      match l with
      | [] => Ok []
      | s :: l => s' ← visit s; l' ← go l; Ok (s' :: l')
      end in
  match node with
  | For target iter body orelse =>
      body' ← visit_items body;
      orelse' ← visit_items orelse;
      rewrite_For target iter body' orelse'
  | If test body orelse =>
      body' ← visit_items body;
      orelse' ← visit_items orelse;
      Ok (If test body' orelse')
  | _ => Ok node
  end.

Definition visit_items : list stmt → result (list stmt) :=
  fix go (l : list stmt) : result (list stmt) :=
    match l with
    | [] => Ok []
    | s :: l => s' ← visit s; l' ← go l; Ok (s' :: l')
    end.

Definition visit_For := visit.

End ThreeExprLoops.

(** ** FlattenSubmodAttrs *)

Module FlattenSubmodAttrs.

(** [self.submodule]: [None] or the name of the sub-component whose node
    was just removed.  Names are strings. *)
Definition state : Type := option string.

(** [if self.submodule:] *)
Definition truthy (sub : state) : option string :=
  match sub with
  | Some s => if String.eqb s "" then None else Some s
  | None => None
  end.

Definition as_str (o : pyobj) : result string :=
  match o with PyStr s => Ok s | _ => Raise TypeError end.

(** [visit_Attribute] after its [generic_visit]; a result [None] removes
    the node from its parent. *)
Definition flatten_Attribute (value : option expr) (attr : string)
    (ctx : expr_context) (_object : annot) (sub : state)
  : result (option expr * state) :=
  let node :=
    match truthy sub with
    | Some s => Name (s ++ "$" ++ attr) ctx _object
    | None => Attribute value attr ctx _object
    end in
  o ← get_object node;
  if hasattr o "class_name" then
    nm ← getattr o "name";
    s ← as_str nm;
    Ok (None, Some s)
  else Ok (Some node, None).

Fixpoint visit (node : expr) (sub : state) {struct node}
  : result (option expr * state) :=
  let visit_field := fun (o : option expr) (sub : state) =>
    match o with
    | Some e => visit e sub
    | None => Ok (None, sub)
    end in
  let visit_items :=
    fix go (l : list expr) (sub : state) : result (list expr * state) :=
      match l with
      | [] => Ok ([], sub)
      | e :: l =>
          '(e', s1) ← visit e sub;
          '(l', s2) ← go l s1;
          Ok (match e' with Some e' => e' :: l' | None => l' end, s2)
      end in
  match node with
  | Num _ | Name _ _ _ => Ok (Some node, sub)
  | Attribute value attr ctx ob =>
      '(value', s1) ← visit_field value sub;
      flatten_Attribute value' attr ctx ob s1
  | Subscript value slice ctx ob =>
      '(value', s1) ← visit_field value sub;
      '(slice', s2) ← visit_field slice s1;
      Ok (Some (Subscript value' slice' ctx ob), s2)
  | Index value =>
      '(value', s1) ← visit_field value sub; Ok (Some (Index value'), s1)
  | Slice lower upper step =>
      '(lower', s1) ← visit_field lower sub;
      '(upper', s2) ← visit_field upper s1;
      '(step', s3) ← visit_field step s2;
      Ok (Some (Slice lower' upper' step'), s3)
  | Call func args =>
      '(func', s1) ← visit_field func sub;
      '(args', s2) ← visit_items args s1;
      Ok (Some (Call func' args'), s2)
  | BinOp lhs op rhs =>
      '(lhs', s1) ← visit_field lhs sub;
      '(rhs', s2) ← visit_field rhs s1;
      Ok (Some (BinOp lhs' op rhs'), s2)
  | BoolOp op values =>
      '(values', s1) ← visit_items values sub; Ok (Some (BoolOp op values'), s1)
  | Compare lhs ops comparators =>
      '(lhs', s1) ← visit_field lhs sub;
      '(comparators', s2) ← visit_items comparators s1;
      Ok (Some (Compare lhs' ops comparators'), s2)
  | List_ elts ctx ob =>
      '(elts', s1) ← visit_items elts sub; Ok (Some (List_ elts' ctx ob), s1)
  end.

Definition visit_field (o : option expr) (sub : state)
  : result (option expr * state) :=
  match o with
  | Some e => visit e sub
  | None => Ok (None, sub)
  end.

Definition visit_Attribute := visit.

Definition visit_items : list expr → state → result (list expr * state) :=
  fix go (l : list expr) (sub : state) : result (list expr * state) :=
    match l with
    | [] => Ok ([], sub)
    | e :: l =>
        '(e', s1) ← visit e sub;
        '(l', s2) ← go l s1;
        Ok (match e' with Some e' => e' :: l' | None => l' end, s2)
    end.

End FlattenSubmodAttrs.

(** ** InferTemporaryTypes *)

Module InferTemporaryTypes.

(** [obj == None].  [Bits.__eq__] asserts [other >= 0], which Python 2
    evaluates to [False] on [None]. *)
Definition eq_None (o : pyobj) : result bool :=
  match o with
  | PyNone => Ok true
  | PyInst BitsClass _ => Raise AssertionError
  | _ => Ok false
  end.

(** [obj = Wire( nbits ); obj.name = id] *)
Definition named_Wire (nbits : Z) (id : string) : result pyobj :=
  setattr (mkWire nbits) "name" (PyStr id).

(** [obj = copy.copy( o ); obj.name = id; obj.parent = None] *)
Definition copy_as (o : pyobj) (id : string) : result pyobj :=
  obj ← setattr o "name" (PyStr id);
  setattr obj "parent" PyNone.

(** The two branches for a [Name] or an [Attribute] on the right. *)
Definition infer_ref (id : string) (value : expr) : result pyobj :=
  o ← get_object value;
  if is_int o then Ok (PyTuple [PyStr id; o]) else copy_as o id.

(** [sum( [...] )] over integers. *)
Fixpoint py_sum (l : list pyobj) : result Z :=
  match l with
  | [] => Ok 0%Z
  | PyInt n :: l => s ← py_sum l; Ok (n + s)%Z
  | _ :: _ => Raise TypeError
  end.

(** [x._object.nbits] *)
Definition arg_nbits (x : expr) : result pyobj :=
  o ← get_object x; getattr o "nbits".

Definition infer_Call (id : string) (func : option expr) (args : list expr)
  : result pyobj :=
  match func with
  | Some (Name func_name _ _) =>
      if str_in func_name ["sext"; "zext"] then
        match args !! 1%nat with
        | Some a =>
            nbits ← get_object a;
            match nbits with
            | PyInt n => named_Wire n id
            | _ => Raise AssertionError
            end
        | None => Raise IndexError
        end
      else if String.eqb func_name "concat" then
        ws ← mapM arg_nbits args;
        nbits ← py_sum ws;
        named_Wire nbits id
      else if str_in func_name ["reduce_and"; "reduce_or"; "reduce_xor"] then
        named_Wire 1 id
      else Raise (Exception_ ("Function is not translatable: " ++ func_name))
  | Some _ => Raise (AttributeError "id")
  | None => Raise (AttributeError "func")
  end.

(** The object inferred for the target [id] from the shape of the right
    side.  The message of the last branch prints the node; the model keeps
    its fixed part. *)
Definition infer (id : string) (value : expr) : result pyobj :=
  match value with
  | Name _ _ _ | Attribute _ _ _ _ => infer_ref id value
  | Num n => Ok (PyTuple [PyStr id; PyInt n])
  | BoolOp _ _ | Compare _ _ _ => named_Wire 1 id
  | Subscript _ (Some (Index _)) _ _ => named_Wire 1 id
  | Subscript _ None _ _ => Raise (AttributeError "slice")
  | Call func args => infer_Call id func args
  | _ => Raise (Exception_ "Cannot infer type from node!")
  end.

Definition visit_Assign (targets : list expr) (value : expr) : result stmt :=
  _ ← py_assert (length targets =? 1)%nat;
  match targets with
  | [target] =>
      o ← get_object target;
      untyped ← eq_None o;
      if (untyped : bool) then
        match target with
        | Name id ctx _ =>
            obj ← infer id value;
            Ok (Assign [Name id ctx (Some obj)] value)
        | _ => Raise AssertionError
        end
      else Ok (Assign targets value)
  | _ => Raise AssertionError
  end.

(** The width of an attached signal. *)
Definition width (o : pyobj) : option Z :=
  match py_getattr o "nbits" with
  | Some (PyInt n) => Some n
  | _ => None
  end.

End InferTemporaryTypes.

(** ** GetRegsIntsParamsTempsArrays: the classifier *)

Module GetRegsIntsParamsTempsArrays.

(** The attributes [get] initialises.  [store] is the dictionary keyed by
    [obj.fullname]; the sets keep insertion order.  The [is_lhs] flag the
    visitor sets on a list object is shared by every node that refers to
    that list, so it is kept next to the list in [arrays]. *)
Record state : Type := mkState {
  _is_lhs : bool;
  store : gmap string pyobj;
  loopvar : list pyobj;
  params : list (string * pyobj);
  arrays : list (pyobj * bool);
  arrayelms : list pyobj
}.

Definition init : state := mkState false ∅ [] [] [] [].

Definition set_is_lhs (b : bool) (st : state) : state :=
  mkState b (store st) (loopvar st) (params st) (arrays st) (arrayelms st).

Definition add_loopvar (o : pyobj) (st : state) : state :=
  mkState (_is_lhs st) (store st) (pyset_add o (loopvar st)) (params st)
          (arrays st) (arrayelms st).

Definition add_store (k : string) (o : pyobj) (st : state) : state :=
  mkState (_is_lhs st) (<[k := o]> (store st)) (loopvar st) (params st)
          (arrays st) (arrayelms st).

Definition param_in (p : string * pyobj) (l : list (string * pyobj)) : bool :=
  existsb (fun q => String.eqb p.1 q.1 && pyobj_eqb p.2 q.2) l.

(** [if isinstance( node._object, (int,Bits) ): self.params.add( ... )] *)
Definition add_param (nm : string) (ob : annot) (st : state) : result state :=
  match ob with
  | Some o =>
      if is_int o || isinstance o BitsClass then
        Ok (mkState (_is_lhs st) (store st) (loopvar st)
              (if param_in (nm, o) (params st) then params st
               else params st ++ [(nm, o)])
              (arrays st) (arrayelms st))
      else Ok st
  | None => Raise (AttributeError "_object")
  end.

(** The [is_lhs] update on a list object, [arrays.add] and
    [arrayelms.update]. *)
Fixpoint flag_array (o : pyobj) (b : bool) (l : list (pyobj * bool)) : list (pyobj * bool) :=
  match l with
  | [] => [(o, b)]
  | (o', b') :: l =>
      if pyobj_eqb o o' then (o', b' || b) :: l else (o', b') :: flag_array o b l
  end.

Definition track_array (o : pyobj) (st : state) : state :=
  match o with
  | PyList elts _ =>
      mkState (_is_lhs st) (store st) (loopvar st) (params st)
              (flag_array o (_is_lhs st) (arrays st))
              (foldl (fun s x => pyset_add x s) (arrayelms st) elts)
  | _ => st
  end.

Fixpoint visit_expr (node : expr) (st : state) {struct node} : result state :=
  let visit_field := fun (o : option expr) (st : state) =>
    match o with
    | Some e => visit_expr e st
    | None => Ok st
    end in
  let visit_items :=
    fix go (l : list expr) (st : state) : result state :=
      match l with
      | [] => Ok st
      | e :: l => st1 ← visit_expr e st; go l st1
      end in
  match node with
  | Num _ => Ok st
  | Name id _ ob => add_param id ob st
  | Attribute _ attr _ ob => add_param attr ob st
  | Subscript value slice _ ob =>
      match ob with
      | Some o =>
          let st1 := track_array o st in
          match value, slice with
          | Some value, Some slice =>
              st2 ← visit_expr value st1; visit_expr slice st2
          | None, _ => Raise (AttributeError "value")
          | Some value, None =>
              _ ← visit_expr value st1; Raise (AttributeError "slice")
          end
      | None => Raise (AttributeError "_object")
      end
  | Index value => visit_field value st
  | Slice lower upper step =>
      st1 ← visit_field lower st; st2 ← visit_field upper st1; visit_field step st2
  | Call func args => st1 ← visit_field func st; visit_items args st1
  | BinOp lhs _ rhs => st1 ← visit_field lhs st; visit_field rhs st1
  | BoolOp _ values => visit_items values st
  | Compare lhs _ comparators => st1 ← visit_field lhs st; visit_items comparators st1
  | List_ elts _ _ => visit_items elts st
  end.

(** The tail of [visit_Assign]: file the object of the target. *)
Definition file_target (obj : pyobj) (st : state) : result state :=
  if pyset_in obj (arrayelms st) then Ok st
  else if isinstance obj Signal then
    fullname ← getattr obj "fullname";
    match fullname with
    | PyStr k => Ok (add_store k obj st)
    | _ => Raise TypeError
    end
  else if is_tuple obj then
    x ← getitem0 obj; Ok (add_loopvar x st)
  else Ok st.

Definition is_Slice (e : expr) : bool :=
  match e with Slice _ _ _ => true | _ => false end.

Fixpoint visit (node : stmt) (st : state) {struct node} : result state :=
  let visit_items :=
    fix go (l : list stmt) (st : state) : result state :=
      match l with
      | [] => Ok st
      | s :: l => st1 ← visit s st; go l st1
      end in
  match node with
  | Assign targets value =>
      _ ← py_assert (length targets =? 1)%nat;
      match targets with
      | target :: _ =>
          st1 ← visit_expr target (set_is_lhs true st);
          st2 ← visit_expr value (set_is_lhs false st1);
          obj ← get_object target;
          file_target obj st2
      | [] => Raise IndexError
      end
  | For target iter body orelse =>
      _ ← py_assert (is_Slice iter);
      match target with
      | Name id _ _ =>
          let st0 := add_loopvar (PyStr id) st in
          st1 ← visit_expr target st0;
          st2 ← visit_expr iter st1;
          st3 ← visit_items body st2;
          visit_items orelse st3
      | _ => Raise AssertionError
      end
  | AugAssign target _ value =>
      st1 ← visit_expr target st; visit_expr value st1
  | If test body orelse =>
      st1 ← visit_expr test st;
      st2 ← visit_items body st1;
      visit_items orelse st2
  | Expr value => visit_expr value st
  | Pass => Ok st
  end.

(** [set( self.store.values() )] *)
Definition regs (st : state) : list pyobj := (map_to_list (store st)).*2.

Definition get (tree : stmt) : result (list pyobj * list pyobj * list (string * pyobj) * list (pyobj * bool)) :=
  st ← visit tree init;
  Ok (regs st, loopvar st, params st, arrays st).

Definition visit_field (o : option expr) (st : state) : result state :=
  match o with
  | Some e => visit_expr e st
  | None => Ok st
  end.

Definition visit_items : list expr → state → result state :=
  fix go (l : list expr) (st : state) : result state :=
    match l with
    | [] => Ok st
    | e :: l => st1 ← visit_expr e st; go l st1
    end.

Definition visit_stmts : list stmt → state → result state :=
  fix go (l : list stmt) (st : state) : result state :=
    match l with
    | [] => Ok st
    | s :: l => st1 ← visit s st; go l st1
    end.


(** The register set holds a signal under the full name [fn]. *)
Definition reg_at (fn : string) (st : state) : Prop :=
  ∃ sg, store st !! fn = Some sg ∧ isinstance sg Signal = true ∧
        py_getattr sg "fullname" = Some (PyStr fn).

(** The sets of the visitor only grow. *)
Definition grows (st st' : state) : Prop :=
  (∀ x, pyset_in x (arrayelms st) = true → pyset_in x (arrayelms st') = true) ∧
  (∀ x, pyset_in x (loopvar st) = true → pyset_in x (loopvar st') = true) ∧
  (∀ fn, reg_at fn st → reg_at fn st').

(** A visit only grows the sets. *)
Definition growing (e : expr) : Prop :=
  ∀ st st', visit_expr e st = Ok st' → grows st st'.
Definition growing_stmt (s : stmt) : Prop :=
  ∀ st st', visit s st = Ok st' → grows st st'.





(** Registers, loop variables and the [_is_lhs] flag are the same in both
    states. *)
Definition same_registers (st st' : state) : Prop :=
  store st' = store st ∧ loopvar st' = loopvar st ∧ _is_lhs st' = _is_lhs st.

Definition keeping (e : expr) : Prop :=
  ∀ st st', visit_expr e st = Ok st' → same_registers st st'.

End GetRegsIntsParamsTempsArrays.

(** ** RemoveValueNext *)

Module RemoveValueNext.

(** [node.value.ctx = node.ctx].  The assignment gives a [ctx] to whatever
    node the receiver is; only the nodes that have one in the grammar keep
    it here. *)
Definition set_ctx (ctx : expr_context) (e : expr) : expr :=
  match e with
  | Name id _ ob => Name id ctx ob
  | Attribute value attr _ ob => Attribute value attr ctx ob
  | Subscript value slice _ ob => Subscript value slice ctx ob
  | List_ elts _ ob => List_ elts ctx ob
  | _ => e
  end.

(** [visit_Attribute] has no [generic_visit]: the receiver is not
    visited. *)
Definition visit_Attribute (value : option expr) (attr : string)
    (ctx : expr_context) (ob : annot) : result expr :=
  if str_in attr accessors then
    match value with
    | Some v => Ok (set_ctx ctx v)
    | None => Raise (AttributeError "value")
    end
  else Ok (Attribute value attr ctx ob).

Fixpoint visit (node : expr) {struct node} : result expr :=
  let visit_field := fun (o : option expr) =>
    match o with
    | Some e => e' ← visit e; Ok (Some e')
    | None => Ok None
    end in
  let visit_items :=
    fix go (l : list expr) : result (list expr) :=
      match l with
      | [] => Ok []
      | e :: l => e' ← visit e; l' ← go l; Ok (e' :: l')
      end in
  match node with
  | Num _ | Name _ _ _ => Ok node
  | Attribute value attr ctx ob => visit_Attribute value attr ctx ob
  | Subscript value slice ctx ob =>
      value' ← visit_field value; slice' ← visit_field slice;
      Ok (Subscript value' slice' ctx ob)
  | Index value => value' ← visit_field value; Ok (Index value')
  | Slice lower upper step =>
      lower' ← visit_field lower; upper' ← visit_field upper; step' ← visit_field step;
      Ok (Slice lower' upper' step')
  | Call func args =>
      func' ← visit_field func; args' ← visit_items args; Ok (Call func' args')
  | BinOp lhs op rhs =>
      lhs' ← visit_field lhs; rhs' ← visit_field rhs; Ok (BinOp lhs' op rhs')
  | BoolOp op values => values' ← visit_items values; Ok (BoolOp op values')
  | Compare lhs ops comparators =>
      lhs' ← visit_field lhs; comparators' ← visit_items comparators;
      Ok (Compare lhs' ops comparators')
  | List_ elts ctx ob => elts' ← visit_items elts; Ok (List_ elts' ctx ob)
  end.

Definition visit_field (o : option expr) : result (option expr) :=
  match o with
  | Some e => e' ← visit e; Ok (Some e')
  | None => Ok None
  end.

Definition visit_items : list expr → result (list expr) :=
  fix go (l : list expr) : result (list expr) :=
    match l with
    | [] => Ok []
    | e :: l => e' ← visit e; l' ← go l; Ok (e' :: l')
    end.

(** No attribute access of the tree is an accessor. *)
Fixpoint accessor_free (e : expr) : bool :=
  match e with
  | Num _ | Name _ _ _ => true
  | Attribute value attr _ _ =>
      negb (str_in attr accessors) && all_field accessor_free value
  | Subscript value slice _ _ =>
      all_field accessor_free value && all_field accessor_free slice
  | Index value => all_field accessor_free value
  | Slice lower upper step =>
      all_field accessor_free lower && all_field accessor_free upper
      && all_field accessor_free step
  | Call func args => all_field accessor_free func && forallb accessor_free args
  | BinOp lhs _ rhs => all_field accessor_free lhs && all_field accessor_free rhs
  | BoolOp _ values => forallb accessor_free values
  | Compare lhs _ comparators =>
      all_field accessor_free lhs && forallb accessor_free comparators
  | List_ elts _ _ => forallb accessor_free elts
  end.

(** Accessors sit on top only: nothing below an attribute access is an
    accessor. *)
Fixpoint accessors_on_top (e : expr) : bool :=
  match e with
  | Num _ | Name _ _ _ => true
  | Attribute value _ _ _ => all_field accessor_free value
  | Subscript value slice _ _ =>
      all_field accessors_on_top value && all_field accessors_on_top slice
  | Index value => all_field accessors_on_top value
  | Slice lower upper step =>
      all_field accessors_on_top lower && all_field accessors_on_top upper
      && all_field accessors_on_top step
  | Call func args => all_field accessors_on_top func && forallb accessors_on_top args
  | BinOp lhs _ rhs => all_field accessors_on_top lhs && all_field accessors_on_top rhs
  | BoolOp _ values => forallb accessors_on_top values
  | Compare lhs _ comparators =>
      all_field accessors_on_top lhs && forallb accessors_on_top comparators
  | List_ elts _ _ => forallb accessors_on_top elts
  end.

(** What the visit of a tree gives, for the two shapes. *)
Definition strips (e : expr) : Prop :=
  ∀ e', visit e = Ok e' →
    (accessors_on_top e = true → accessor_free e' = true) ∧
    (accessor_free e = true → e' = e).

End RemoveValueNext.

(** ** RemoveSelf *)

Module RemoveSelf.

(** [if node._object == self.model: return None] *)
Definition visit_Name (model : pyobj) (id : string) (ctx : expr_context) (ob : annot)
  : result (option expr) :=
  o ← get_object (Name id ctx ob);
  if pyobj_eqb o model then Ok None else Ok (Some (Name id ctx ob)).

Fixpoint visit (model : pyobj) (node : expr) {struct node} : result (option expr) :=
  let visit_field := fun (o : option expr) =>
    match o with
    | Some e => visit model e
    | None => Ok None
    end in
  let visit_items :=
    fix go (l : list expr) : result (list expr) :=
      match l with
      | [] => Ok []
      | e :: l =>
          e' ← visit model e; l' ← go l;
          Ok (match e' with Some e' => e' :: l' | None => l' end)
      end in
  match node with
  | Num _ => Ok (Some node)
  | Name id ctx ob => visit_Name model id ctx ob
  | Attribute value attr ctx ob =>
      value' ← visit_field value; Ok (Some (Attribute value' attr ctx ob))
  | Subscript value slice ctx ob =>
      value' ← visit_field value; slice' ← visit_field slice;
      Ok (Some (Subscript value' slice' ctx ob))
  | Index value => value' ← visit_field value; Ok (Some (Index value'))
  | Slice lower upper step =>
      lower' ← visit_field lower; upper' ← visit_field upper; step' ← visit_field step;
      Ok (Some (Slice lower' upper' step'))
  | Call func args =>
      func' ← visit_field func; args' ← visit_items args; Ok (Some (Call func' args'))
  | BinOp lhs op rhs =>
      lhs' ← visit_field lhs; rhs' ← visit_field rhs; Ok (Some (BinOp lhs' op rhs'))
  | BoolOp op values => values' ← visit_items values; Ok (Some (BoolOp op values'))
  | Compare lhs ops comparators =>
      lhs' ← visit_field lhs; comparators' ← visit_items comparators;
      Ok (Some (Compare lhs' ops comparators'))
  | List_ elts ctx ob => elts' ← visit_items elts; Ok (Some (List_ elts' ctx ob))
  end.

Definition visit_field (model : pyobj) (o : option expr) : result (option expr) :=
  match o with
  | Some e => visit model e
  | None => Ok None
  end.

Definition visit_items (model : pyobj) : list expr → result (list expr) :=
  fix go (l : list expr) : result (list expr) :=
    match l with
    | [] => Ok []
    | e :: l =>
        e' ← visit model e; l' ← go l;
        Ok (match e' with Some e' => e' :: l' | None => l' end)
    end.

(** No name of the tree is bound to [model]. *)
Fixpoint self_free (model : pyobj) (e : expr) : bool :=
  match e with
  | Num _ => true
  | Name _ _ ob =>
      match ob with Some o => negb (pyobj_eqb o model) | None => true end
  | Attribute value _ _ _ => all_field (self_free model) value
  | Subscript value slice _ _ =>
      all_field (self_free model) value && all_field (self_free model) slice
  | Index value => all_field (self_free model) value
  | Slice lower upper step =>
      all_field (self_free model) lower && all_field (self_free model) upper
      && all_field (self_free model) step
  | Call func args => all_field (self_free model) func && forallb (self_free model) args
  | BinOp lhs _ rhs => all_field (self_free model) lhs && all_field (self_free model) rhs
  | BoolOp _ values => forallb (self_free model) values
  | Compare lhs _ comparators =>
      all_field (self_free model) lhs && forallb (self_free model) comparators
  | List_ elts _ _ => forallb (self_free model) elts
  end.

(** What the visit of a tree gives. *)
Definition removes (model : pyobj) (e : expr) : Prop :=
  ∀ r, visit model e = Ok r →
    all_field (self_free model) r = true ∧
    (self_free model e = true → r = Some e).

End RemoveSelf.

(** ** FlattenPortBundles *)

Module FlattenPortBundles.

(** [self.portbundle]: [None] or the attribute name of the bundle whose
    node was just removed. *)
Definition state : Type := option string.

(** [if self.portbundle:] *)
Definition truthy (pb : state) : option string :=
  match pb with
  | Some s => if String.eqb s "" then None else Some s
  | None => None
  end.

(** [visit_Attribute] after its [generic_visit].  The name kept for the
    parent is [node.attr], read off the node as it is then: a [Name] that
    replaced the attribute has none. *)
Definition flatten_Attribute (value : option expr) (attr : string)
    (ctx : expr_context) (_object : annot) (pb : state)
  : result (option expr * state) :=
  let node :=
    match truthy pb with
    | Some s => Name (s ++ "_" ++ attr) ctx _object
    | None => Attribute value attr ctx _object
    end in
  o ← get_object node;
  if isinstance o PortBundle then
    a ← get_attr node;
    Ok (None, Some a)
  else Ok (Some node, None).

Fixpoint visit (node : expr) (pb : state) {struct node}
  : result (option expr * state) :=
  let visit_field := fun (o : option expr) (pb : state) =>
    match o with
    | Some e => visit e pb
    | None => Ok (None, pb)
    end in
  let visit_items :=
    fix go (l : list expr) (pb : state) : result (list expr * state) :=
      match l with
      | [] => Ok ([], pb)
      | e :: l =>
          '(e', s1) ← visit e pb;
          '(l', s2) ← go l s1;
          Ok (match e' with Some e' => e' :: l' | None => l' end, s2)
      end in
  match node with
  | Num _ | Name _ _ _ => Ok (Some node, pb)
  | Attribute value attr ctx ob =>
      '(value', s1) ← visit_field value pb;
      flatten_Attribute value' attr ctx ob s1
  | Subscript value slice ctx ob =>
      '(value', s1) ← visit_field value pb;
      '(slice', s2) ← visit_field slice s1;
      Ok (Some (Subscript value' slice' ctx ob), s2)
  | Index value =>
      '(value', s1) ← visit_field value pb; Ok (Some (Index value'), s1)
  | Slice lower upper step =>
      '(lower', s1) ← visit_field lower pb;
      '(upper', s2) ← visit_field upper s1;
      '(step', s3) ← visit_field step s2;
      Ok (Some (Slice lower' upper' step'), s3)
  | Call func args =>
      '(func', s1) ← visit_field func pb;
      '(args', s2) ← visit_items args s1;
      Ok (Some (Call func' args'), s2)
  | BinOp lhs op rhs =>
      '(lhs', s1) ← visit_field lhs pb;
      '(rhs', s2) ← visit_field rhs s1;
      Ok (Some (BinOp lhs' op rhs'), s2)
  | BoolOp op values =>
      '(values', s1) ← visit_items values pb; Ok (Some (BoolOp op values'), s1)
  | Compare lhs ops comparators =>
      '(lhs', s1) ← visit_field lhs pb;
      '(comparators', s2) ← visit_items comparators s1;
      Ok (Some (Compare lhs' ops comparators'), s2)
  | List_ elts ctx ob =>
      '(elts', s1) ← visit_items elts pb; Ok (Some (List_ elts' ctx ob), s1)
  end.

Definition visit_field (o : option expr) (pb : state) : result (option expr * state) :=
  match o with
  | Some e => visit e pb
  | None => Ok (None, pb)
  end.

End FlattenPortBundles.

(** ** FlattenListAttrs *)

Module FlattenListAttrs.

(** [self.attr]: [None] or the attribute that is being moved below the
    subscript. *)
Definition state : Type := option string.

(** [if self.attr:] *)
Definition truthy (st : state) : option string :=
  match st with
  | Some s => if String.eqb s "" then None else Some s
  | None => None
  end.

(** [node._object], from the annotation slot *)
Definition the_object (ob : annot) : result pyobj :=
  match ob with
  | Some o => Ok o
  | None => Raise (AttributeError "_object")
  end.

(** [for x in o] *)
Definition py_iter (o : pyobj) : result (list pyobj) :=
  match o with
  | PyList elts _ | PyTuple elts => Ok elts
  | _ => Raise TypeError
  end.

(** The character [[], code 91 *)
Definition bracket : Ascii.ascii := Ascii.ascii_of_nat 91.

(** [s.split('[')[0]] *)
Fixpoint before_bracket (s : string) : string :=
  match s with
  | EmptyString => EmptyString
  | String c s' => if Ascii.eqb c bracket then EmptyString else String c (before_bracket s')
  end.

(** The attribute [name] of an object, as the string the code formats or
    splits.  Names are strings. *)
Definition name_of (o : pyobj) : result string :=
  nm ← getattr o "name";
  match nm with PyStr s => Ok s | _ => Raise TypeError end.

(** [p = PortList([ getattr( x, attr ) for x in o ]); p.name = name] *)
Definition project (attr : string) (o : pyobj) (name : string) : result pyobj :=
  elts ← py_iter o;
  ports ← mapM (λ x, getattr x attr) elts;
  Ok (PyList ports [("name", PyStr name)]).

(** The head of [visit_Attribute]: the new [attr] and [_object] of the
    node. *)
Definition rename_Attribute (attr : string) (ob : annot) (st : state)
  : result (string * annot) :=
  match truthy st with
  | Some a =>
      o ← the_object ob;
      x ← getitem0 o;
      if isinstance x Model then
        p ← project a o (attr ++ "$" ++ a); Ok ((attr ++ "$" ++ a)%string, Some p)
      else if isinstance x PortBundle then
        p ← project a o (attr ++ "_" ++ a); Ok ((attr ++ "_" ++ a)%string, Some p)
      else Raise (Exception_ "Don't know how to flatten this!")
  | None => Ok (attr, ob)
  end.

(** The head of [visit_Subscript]: the new [_object] of the node. *)
Definition project_Subscript (ob : annot) (st : state) : result annot :=
  match truthy st with
  | Some a =>
      o ← the_object ob;
      x ← getitem0 o;
      if isinstance x Model then
        nm ← name_of x;
        p ← project a o (before_bracket nm ++ "$" ++ a); Ok (Some p)
      else if isinstance x PortBundle then
        nm ← name_of o;
        p ← project a o (nm ++ "_" ++ a); Ok (Some p)
      else Ok ob
  | None => Ok ob
  end.

Fixpoint visit (node : expr) (st : state) {struct node} : result (expr * state) :=
  let visit_field := fun (o : option expr) (st : state) =>
    match o with
    | Some e => '(e', st') ← visit e st; Ok (Some e', st')
    | None => Ok (None, st)
    end in
  let visit_items :=
    fix go (l : list expr) (st : state) : result (list expr * state) :=
      match l with
      | [] => Ok ([], st)
      | e :: l => '(e', st1) ← visit e st; '(l', st2) ← go l st1; Ok (e' :: l', st2)
      end in
  match node with
  | Num _ | Name _ _ _ => Ok (node, st)
  | Attribute value attr ctx ob =>
      '(attr', ob') ← rename_Attribute attr ob st;
      match value with
      | Some v =>
          match v with
          | Subscript _ _ _ _ =>
              '(v', _) ← visit v (Some attr');
              Ok (v', None)
          | _ => Ok (Attribute value attr' ctx ob', st)
          end
      | None => Ok (Attribute value attr' ctx ob', st)
      end
  | Subscript value slice ctx ob =>
      ob' ← project_Subscript ob st;
      '(value', s1) ← visit_field value st;
      '(slice', s2) ← visit_field slice s1;
      Ok (Subscript value' slice' ctx ob', s2)
  | Index value =>
      '(value', s1) ← visit_field value st; Ok (Index value', s1)
  | Slice lower upper step =>
      '(lower', s1) ← visit_field lower st;
      '(upper', s2) ← visit_field upper s1;
      '(step', s3) ← visit_field step s2;
      Ok (Slice lower' upper' step', s3)
  | Call func args =>
      '(func', s1) ← visit_field func st;
      '(args', s2) ← visit_items args s1;
      Ok (Call func' args', s2)
  | BinOp lhs op rhs =>
      '(lhs', s1) ← visit_field lhs st;
      '(rhs', s2) ← visit_field rhs s1;
      Ok (BinOp lhs' op rhs', s2)
  | BoolOp op values =>
      '(values', s1) ← visit_items values st; Ok (BoolOp op values', s1)
  | Compare lhs ops comparators =>
      '(lhs', s1) ← visit_field lhs st;
      '(comparators', s2) ← visit_items comparators s1;
      Ok (Compare lhs' ops comparators', s2)
  | List_ elts ctx ob =>
      '(elts', s1) ← visit_items elts st; Ok (List_ elts' ctx ob, s1)
  end.

Definition visit_field (o : option expr) (st : state) : result (option expr * state) :=
  match o with
  | Some e => '(e', st') ← visit e st; Ok (Some e', st')
  | None => Ok (None, st)
  end.

Definition is_Subscript (e : expr) : bool :=
  match e with Subscript _ _ _ _ => true | _ => false end.

Definition visit_items : list expr → state → result (list expr * state) :=
  fix go (l : list expr) (st : state) : result (list expr * state) :=
    match l with
    | [] => Ok ([], st)
    | e :: l => '(e', st1) ← visit e st; '(l', st2) ← go l st1; Ok (e' :: l', st2)
    end.

(** A tree that holds no attribute access and no subscript: names,
    numbers and what the other nodes build from them. *)
Fixpoint plain (e : expr) : bool :=
  match e with
  | Num _ | Name _ _ _ => true
  | Attribute _ _ _ _ | Subscript _ _ _ _ => false
  | Index value => all_field plain value
  | Slice lower upper step =>
      all_field plain lower && all_field plain upper && all_field plain step
  | Call func args => all_field plain func && forallb plain args
  | BinOp lhs _ rhs => all_field plain lhs && all_field plain rhs
  | BoolOp _ values => forallb plain values
  | Compare lhs _ comparators => all_field plain lhs && forallb plain comparators
  | List_ elts _ _ => forallb plain elts
  end.

(** The visit gives the tree and the state back. *)
Definition untouched (e : expr) : Prop :=
  plain e = true → ∀ st, visit e st = Ok (e, st).

End FlattenListAttrs.

(** ** Shapes of trees *)

(** Every node that has an annotation slot has its annotation. *)
Fixpoint annotated (e : expr) : bool :=
  match e with
  | Num _ => true
  | Name _ _ ob => bool_decide (is_Some ob)
  | Attribute value _ _ ob => bool_decide (is_Some ob) && all_field annotated value
  | Subscript value slice _ ob =>
      bool_decide (is_Some ob) && all_field annotated value && all_field annotated slice
  | Index value => all_field annotated value
  | Slice lower upper step =>
      all_field annotated lower && all_field annotated upper && all_field annotated step
  | Call func args => all_field annotated func && forallb annotated args
  | BinOp lhs _ rhs => all_field annotated lhs && all_field annotated rhs
  | BoolOp _ values => forallb annotated values
  | Compare lhs _ comparators => all_field annotated lhs && forallb annotated comparators
  | List_ elts _ ob => bool_decide (is_Some ob) && forallb annotated elts
  end.

(** The tree without its annotations. *)
Fixpoint erase (e : expr) : expr :=
  match e with
  | Num n => Num n
  | Name id ctx _ => Name id ctx None
  | Attribute value attr ctx _ => Attribute (erase <$> value) attr ctx None
  | Subscript value slice ctx _ => Subscript (erase <$> value) (erase <$> slice) ctx None
  | Index value => Index (erase <$> value)
  | Slice lower upper step => Slice (erase <$> lower) (erase <$> upper) (erase <$> step)
  | Call func args => Call (erase <$> func) (erase <$> args)
  | BinOp lhs op rhs => BinOp (erase <$> lhs) op (erase <$> rhs)
  | BoolOp op values => BoolOp op (erase <$> values)
  | Compare lhs ops comparators => Compare (erase <$> lhs) ops (erase <$> comparators)
  | List_ elts ctx _ => List_ (erase <$> elts) ctx None
  end.

(** Every loop of the statement iterates over a slice with its three
    bounds. *)
Fixpoint canonical (s : stmt) : bool :=
  match s with
  | For _ iter body orelse =>
      match iter with Slice (Some _) (Some _) (Some _) => true | _ => false end
      && forallb canonical body && forallb canonical orelse
  | If _ body orelse => forallb canonical body && forallb canonical orelse
  | _ => true
  end.

(** No attribute access of the tree is annotated with a sub-component. *)
Fixpoint no_submodule (e : expr) : bool :=
  match e with
  | Num _ | Name _ _ _ => true
  | Attribute value _ _ ob =>
      match ob with Some o => negb (hasattr o "class_name") | None => false end
      && all_field no_submodule value
  | Subscript value slice _ _ => all_field no_submodule value && all_field no_submodule slice
  | Index value => all_field no_submodule value
  | Slice lower upper step =>
      all_field no_submodule lower && all_field no_submodule upper
      && all_field no_submodule step
  | Call func args => all_field no_submodule func && forallb no_submodule args
  | BinOp lhs _ rhs => all_field no_submodule lhs && all_field no_submodule rhs
  | BoolOp _ values => forallb no_submodule values
  | Compare lhs _ comparators => all_field no_submodule lhs && forallb no_submodule comparators
  | List_ elts _ _ => forallb no_submodule elts
  end.

(** The reference [root.a1.a2...] and the object it leads to from [o]. *)
Definition chain (root : expr) (attrs : list string) : expr :=
  foldl (λ e a, Attribute (Some e) a Load None) root attrs.

Definition follow (o : pyobj) (attrs : list string) : option pyobj :=
  foldl (λ r a, o ← r; py_getattr o a) (Some o) attrs.

(** The binder annotates every node below the node it visits and changes
    nothing else in the tree. *)
Definition annotating (E : AnnotateWithObjects.env) (e : expr) : Prop :=
  ∀ st e' st',
    AnnotateWithObjects.visit E e st = Ok (e', st') →
    annotated e' = true ∧ erase e' = erase e.

(** ** A small design, for the examples

    A component [top] with two input ports, a list of the two, and a
    sub-component [sub] with one port; [s] is the closure variable that
    holds [top]. *)

Module Design.

Definition a : pyobj :=
  PyInst InPort [("name", PyStr "a"); ("fullname", PyStr "top.a"); ("nbits", PyInt 4)].
Definition b : pyobj :=
  PyInst InPort [("name", PyStr "b"); ("fullname", PyStr "top.b"); ("nbits", PyInt 8)].
Definition arr : pyobj := PyList [a; b] [("name", PyStr "arr")].
Definition port : pyobj :=
  PyInst OutPort [("name", PyStr "port"); ("fullname", PyStr "top.sub.port"); ("nbits", PyInt 1)].
Definition sub : pyobj :=
  PyInst Model [("name", PyStr "sub"); ("class_name", PyStr "Sub"); ("port", port)].
Definition top : pyobj :=
  PyInst Model [("name", PyStr "top"); ("class_name", PyStr "Top");
                ("a", a); ("b", b); ("arr", arr); ("sub", sub)].

Definition E : AnnotateWithObjects.env :=
  AnnotateWithObjects.mkEnv top ∅ {[ "s" := top ]}.

Definition s : expr := Name "s" Load None.
(** [s.arr[i]] *)
Definition s_arr_i : expr :=
  Subscript (Some (Attribute (Some s) "arr" Load None))
            (Some (Index (Some (Name "i" Load None)))) Load None.
(** [s.a.width] and [s.a.next] *)
Definition s_a_width : expr :=
  Attribute (Some (Attribute (Some s) "a" Load None)) "width" Load None.
Definition s_a_next : expr :=
  Attribute (Some (Attribute (Some s) "a" Load None)) "next" Store None.
(** [s.sub.port], as the binder annotates it *)
Definition s_sub_port : expr :=
  Attribute (Some (Attribute (Some (Name "s" Load (Some top))) "sub" Load (Some sub)))
            "port" Load (Some port).

(** The receivers [s.a] and [s.arr] and the index [i] once the binder has
    visited them, and the states of the binder after [s.a], after [s.arr]
    and after the index of [s.arr[i]] *)
Definition s_bound : expr := Name "s" Load (Some top).
Definition s_a_bound : expr := Attribute (Some s_bound) "a" Load (Some a).
Definition s_arr_bound : expr := Attribute (Some s_bound) "arr" Load (Some arr).
Definition i_bound : expr := Index (Some (Name "i" Load (Some PyNone))).
Definition at_a : AnnotateWithObjects.state :=
  AnnotateWithObjects.mkState [AnnotateWithObjects.mkPyObj "a" a] (Some 0).
Definition at_arr : AnnotateWithObjects.state :=
  AnnotateWithObjects.mkState [AnnotateWithObjects.mkPyObj "arr" arr] (Some 0).
Definition after_i : AnnotateWithObjects.state :=
  AnnotateWithObjects.mkState [AnnotateWithObjects.mkPyObj "arr" arr] None.

(** A port bundle [s.io], and a list [s.mods] of two sub-components with
    a port [out] each *)
Definition io : pyobj := PyInst PortBundle [("name", PyStr "io"); ("val", port)].
Definition out0 : pyobj := PyInst OutPort [("name", PyStr "out"); ("nbits", PyInt 1)].
Definition out1 : pyobj := PyInst OutPort [("name", PyStr "out"); ("nbits", PyInt 2)].
Definition mod0 : pyobj :=
  PyInst Model [("name", PyStr "mods[0]"); ("class_name", PyStr "M"); ("out", out0)].
Definition mod1 : pyobj :=
  PyInst Model [("name", PyStr "mods[1]"); ("class_name", PyStr "M"); ("out", out1)].
Definition mods : pyobj := PyList [mod0; mod1] [("name", PyStr "mods")].
(** [s.mods[i].out], as the binder annotates it *)
Definition s_mods_i_out : expr :=
  Attribute
    (Some (Subscript (Some (Attribute (Some s_bound) "mods" Load (Some mods)))
                     (Some i_bound) Load (Some mods)))
    "out" Load (Some out0).

(** The decorators [@s.tick] and [@s.combinational] *)
Definition tick : expr := Attribute (Some s) "tick" Load None.
Definition combinational : expr := Attribute (Some s) "combinational" Load None.

(** [tmp = concat( a, b )] and [tmp = sext( a, W )] with [W = 16] *)
Definition tmp : expr := Name "tmp" Store (Some PyNone).
Definition concat_a_b : expr :=
  Call (Some (Name "concat" Load (Some PyNone)))
       [Name "a" Load (Some a); Name "b" Load (Some b)].

(** [for i in range(0, 4, 1): i = a], after the earlier passes *)
Definition loop : stmt :=
  For (Name "i" Store (Some PyNone))
      (Slice (Some (Num 0)) (Some (Num 4)) (Some (Num 1)))
      [Assign [Name "i" Store (Some a)] (Name "a" Load (Some a))] [].



End Design.

(** ** Induction over trees

    [expr] and [stmt] are nested through [option] and [list]; these are
    the induction principles that reach the children. *)

Definition opt_all (P : expr → Prop) (o : option expr) : Prop :=
  match o with
  | Some e => P e
  | None => True
  end.

Section expr_induction.
Variable P : expr → Prop.
Hypothesis HNum : ∀ n, P (Num n).
Hypothesis HName : ∀ id ctx ob, P (Name id ctx ob).
Hypothesis HAttribute : ∀ value attr ctx ob,
  opt_all P value → P (Attribute value attr ctx ob).
Hypothesis HSubscript : ∀ value slice ctx ob,
  opt_all P value → opt_all P slice → P (Subscript value slice ctx ob).
Hypothesis HIndex : ∀ value, opt_all P value → P (Index value).
Hypothesis HSlice : ∀ lower upper step,
  opt_all P lower → opt_all P upper → opt_all P step → P (Slice lower upper step).
Hypothesis HCall : ∀ func args,
  opt_all P func → Forall P args → P (Call func args).
Hypothesis HBinOp : ∀ lhs op rhs,
  opt_all P lhs → opt_all P rhs → P (BinOp lhs op rhs).
Hypothesis HBoolOp : ∀ op values, Forall P values → P (BoolOp op values).
Hypothesis HCompare : ∀ lhs ops comparators,
  opt_all P lhs → Forall P comparators → P (Compare lhs ops comparators).
Hypothesis HList : ∀ elts ctx ob, Forall P elts → P (List_ elts ctx ob).

Fixpoint expr_ind' (e : expr) : P e :=
  let F := fun o : option expr =>
    match o return opt_all P o with
    | Some e => expr_ind' e
    | None => I
    end in
  let L := fix go (l : list expr) : Forall P l :=
    match l with
    | [] => List.Forall_nil P
    | e :: l => @List.Forall_cons _ P e l (expr_ind' e) (go l)
    end in
  match e with
  | Num n => HNum n
  | Name id ctx ob => HName id ctx ob
  | Attribute value attr ctx ob => HAttribute value attr ctx ob (F value)
  | Subscript value slice ctx ob => HSubscript value slice ctx ob (F value) (F slice)
  | Index value => HIndex value (F value)
  | Slice lower upper step => HSlice lower upper step (F lower) (F upper) (F step)
  | Call func args => HCall func args (F func) (L args)
  | BinOp lhs op rhs => HBinOp lhs op rhs (F lhs) (F rhs)
  | BoolOp op values => HBoolOp op values (L values)
  | Compare lhs ops comparators => HCompare lhs ops comparators (F lhs) (L comparators)
  | List_ elts ctx ob => HList elts ctx ob (L elts)
  end.
End expr_induction.

Section stmt_induction.
Variable P : stmt → Prop.
Hypothesis HAssign : ∀ targets value, P (Assign targets value).
Hypothesis HAugAssign : ∀ target op value, P (AugAssign target op value).
Hypothesis HFor : ∀ target iter body orelse,
  Forall P body → Forall P orelse → P (For target iter body orelse).
Hypothesis HIf : ∀ test body orelse,
  Forall P body → Forall P orelse → P (If test body orelse).
Hypothesis HExpr : ∀ value, P (Expr value).
Hypothesis HPass : P Pass.

Fixpoint stmt_ind' (s : stmt) : P s :=
  let L := fix go (l : list stmt) : Forall P l :=
    match l with
    | [] => List.Forall_nil P
    | s :: l => @List.Forall_cons _ P s l (stmt_ind' s) (go l)
    end in
  match s with
  | Assign targets value => HAssign targets value
  | AugAssign target op value => HAugAssign target op value
  | For target iter body orelse => HFor target iter body orelse (L body) (L orelse)
  | If test body orelse => HIf test body orelse (L body) (L orelse)
  | Expr value => HExpr value
  | Pass => HPass
  end.
End stmt_induction.

(** * Properties *)

(** ** Bits: the constructor *)

Section bits_props.
Import Bits.
Local Open Scope Z_scope.

Lemma mask_ones n : 0 <= n → Z.shiftl 1 n - 1 = Z.ones n.
Proof. intros Hn. rewrite Z.ones_equiv, Z.shiftl_1_l. lia. Qed.

Lemma value_uint_id v : (if 0 <=? v then v else Z.lnot (- v) + 1) = v.
Proof. destruct (0 <=? v); [done|]. unfold Z.lnot. lia. Qed.

Lemma pow2_pos n : 0 <= n → 0 < 2 ^ n.
Proof. intros. apply Z.pow_pos_nonneg; lia. Qed.

(** With [trunc=True] the constructor only needs a positive width and
    reduces the value modulo [2^nbits]. *)
Lemma init_trunc n v :
  0 < n → __init__ n v true = Ok (mkBits n (v mod 2 ^ n)).
Proof.
  intros Hn. unfold __init__, py_assert, _mask. cbn [nbits].
  destruct (Z.ltb_spec 0 n); [|lia]. cbn.
  rewrite value_uint_id, mask_ones, Z.land_ones by lia. done.
Qed.

(** Without it the value has to lie between [_min] and [_max]. *)
Lemma init_checked n v :
  0 < n → - 2 ^ n <= v <= 2 ^ n - 1 →
  __init__ n v false = Ok (mkBits n (v mod 2 ^ n)).
Proof.
  intros Hn Hv. unfold __init__, py_assert, _mask, _min, _max. cbn [nbits].
  destruct (Z.ltb_spec 0 n); [|lia]. cbn.
  destruct (Z.leb_spec (- 2 ^ n) v); [|lia].
  destruct (Z.leb_spec v (2 ^ n - 1)); [|lia]. cbn.
  rewrite value_uint_id, mask_ones, Z.land_ones by lia. done.
Qed.

Lemma init_unchecked_raises n v :
  ¬ (0 < n ∧ - 2 ^ n <= v <= 2 ^ n - 1) →
  __init__ n v false = Raise AssertionError.
Proof.
  intros Hv. unfold __init__, py_assert, _min, _max. cbn [nbits].
  destruct (Z.ltb_spec 0 n); [|done]. cbn.
  destruct (Z.leb_spec (- 2 ^ n) v); [|done].
  destruct (Z.leb_spec v (2 ^ n - 1)); [|done]. lia.
Qed.

(** Whatever the constructor returns satisfies the invariant. *)
Lemma init_valid n v t b : __init__ n v t = Ok b → valid b.
Proof.
  unfold __init__, py_assert, _mask. cbn [nbits].
  destruct (Z.ltb_spec 0 n); [|done]. cbn.
  assert (Hr : valid (mkBits n (Z.land (if 0 <=? v then v else Z.lnot (- v) + 1)
                                        (Z.shiftl 1 n - 1)))).
  { rewrite value_uint_id, mask_ones, Z.land_ones by lia.
    pose proof (Z.mod_pos_bound v (2 ^ n) (pow2_pos n ltac:(lia))).
    split; cbn; lia. }
  destruct t; cbn.
  - intros [= <-]. done.
  - destruct (_ && _); cbn; [|done]. intros [= <-]. done.
Qed.

Lemma mod_small_valid b : valid b → _uint b mod 2 ^ nbits b = _uint b.
Proof. intros [? ?]. apply Z.mod_small. lia. Qed.

End bits_props.

(** ** Bits: arithmetic *)

Section bits_arith.
Import Bits.
Local Open Scope Z_scope.

Lemma product_fits a b :
  valid a → nbits a = nbits b → valid b →
  0 <= _uint a * _uint b <= 2 ^ (2 * nbits a) - 1.
Proof.
  intros [Hna Ha] Heq [Hnb Hb]. rewrite <- Heq in Hb.
  replace (2 * nbits a) with (nbits a + nbits a) by lia.
  rewrite Z.pow_add_r by lia.
  pose proof (pow2_pos (nbits a) ltac:(lia)). nia.
Qed.

(** C9, as the code has it: addition and subtraction of two Bits values
    give the width [max] of the two widths and the result reduced modulo
    [2^width]; multiplication is defined on operands of one width, gives
    twice that width and the whole product, and raises an assertion error
    when the widths differ. *)
Theorem arith_width (a b : Bits) :
  valid a → valid b →
  let w := Z.max (nbits a) (nbits b) in
  __add__ a (OBits b) = Ok (mkBits w ((_uint a + _uint b) mod 2 ^ w)) ∧
  __sub__ a (OBits b) = Ok (mkBits w ((_uint a - _uint b) mod 2 ^ w)) ∧
  __mul__ a (OBits b) =
    if nbits a =? nbits b then Ok (mkBits (2 * nbits a) (_uint a * _uint b))
    else Raise AssertionError.
Proof.
  intros Ha Hb w. pose proof Ha as [Hna _]. pose proof Hb as [Hnb _].
  repeat split.
  - unfold __add__. cbn. apply init_trunc. lia.
  - unfold __sub__. cbn. apply init_trunc. lia.
  - unfold __mul__, py_assert.
    destruct (Z.eqb_spec (nbits a) (nbits b)) as [Heq|Hne]; cbn; [|done].
    pose proof (product_fits a b Ha Heq Hb) as Hp.
    rewrite init_checked by lia.
    rewrite Z.mod_small by lia. done.
Qed.

Lemma arith_width_witness :
  __add__ (mkBits 4 9) (OBits (mkBits 8 250)) = Ok (mkBits 8 3) ∧
  __sub__ (mkBits 4 9) (OBits (mkBits 8 250)) = Ok (mkBits 8 15) ∧
  __mul__ (mkBits 4 9) (OBits (mkBits 8 250)) = Raise AssertionError.
Proof.
  apply (arith_width (mkBits 4 9) (mkBits 8 250)); repeat split; by vm_compute.
Defined.

(** C9 as the specification words it fails for operands of different
    widths: no Bits value comes back from the multiplication. *)
Lemma mul_widths_differ_no_result :
  valid (mkBits 4 1) ∧ valid (mkBits 8 1) ∧
  ¬ ∃ r, __mul__ (mkBits 4 1) (OBits (mkBits 8 1)) = Ok r.
Proof.
  split; [repeat split; by vm_compute|]. split; [repeat split; by vm_compute|].
  intros [r Hr]. vm_compute in Hr. discriminate.
Qed.

Example mul_same_width :
  __mul__ (mkBits 4 15) (OBits (mkBits 4 15)) = Ok (mkBits 8 225).
Proof. reflexivity. Qed.

End bits_arith.

(** ** Bits: the representation invariant *)

Section bits_invariant.
Import Bits.
Local Open Scope Z_scope.

(** Destructs the binds and assertions of an operator down to its call of
    the constructor. *)
Ltac through_init :=
  repeat match goal with
  | |- _ → _ => intros ?
  | H : Ok _ = Ok _ |- _ => injection H as <-
  | H : Raise _ = Ok _ |- _ => discriminate H
  | H : __init__ _ _ _ = Ok _ |- _ => exact (init_valid _ _ _ _ H)
  | H : context [mbind _ ?m] |- _ =>
      let E := fresh "E" in destruct m eqn:E; cbn [mbind result_bind] in H
  | H : context [py_assert ?c] |- _ => destruct c eqn:?; cbn in H
  | H : context [if ?c then _ else _] |- _ => destruct c eqn:?
  end.

Lemma write_valid self value b : write self value = Ok b → valid self → valid b.
Proof.
  unfold write, py_assert, _mask. intros H [Hn Hu].
  destruct (_ && _); cbn in H; [|done]. injection H as <-.
  rewrite mask_ones, Z.land_ones by lia.
  pose proof (Z.mod_pos_bound (to_uint value) (2 ^ nbits self) (pow2_pos (nbits self) ltac:(lia))).
  split; cbn; lia.
Qed.

Lemma getitem_valid self a b : __getitem__ self a = Ok b → valid b.
Proof.
  unfold __getitem__. destruct a as [[start|] [stop|]|i]; through_init.
Qed.

Lemma invert_valid self b : __invert__ self = Ok b → valid b.
Proof. unfold __invert__. through_init. Qed.

Lemma add_valid self other b : __add__ self other = Ok b → valid b.
Proof. unfold __add__. through_init. Qed.

Lemma sub_valid self other b : __sub__ self other = Ok b → valid b.
Proof. unfold __sub__. through_init. Qed.

Lemma mul_valid self other b : __mul__ self other = Ok b → valid b.
Proof. unfold __mul__. destruct other; through_init. Qed.

Lemma lshift_valid self other b : __lshift__ self other = Ok b → valid b.
Proof. unfold __lshift__. through_init. Qed.

Lemma rshift_valid self other b : __rshift__ self other = Ok b → valid b.
Proof. unfold __rshift__. through_init. Qed.

Lemma bitwise_valid op self other b : bitwise op self other = Ok b → valid b.
Proof.
  unfold bitwise. intros H.
  destruct (isinstance_int other); cbn [mbind result_bind] in H.
  - destruct (__init__ (nbits self) (to_uint other) false) as [o|];
      cbn [mbind result_bind] in H; [|done]. revert H. through_init.
  - destruct other as [o|n|n]; cbn [mbind result_bind] in H.
    + revert H. through_init.
    + by destruct (py_assert _).
    + by destruct (py_assert _).
Qed.

Lemma zext_valid self w b : _zext self w = Ok b → valid b.
Proof. unfold _zext. through_init. Qed.

Lemma sext_valid self w b : _sext self w = Ok b → valid b.
Proof. unfold _sext. through_init. Qed.

End bits_invariant.

Section bits_write_slice.
Import Bits.
Local Open Scope Z_scope.

Lemma high_bits_clear n x i :
  0 <= n → 0 <= x < 2 ^ n → n <= i → Z.testbit x i = false.
Proof.
  intros Hn Hx Hi. rewrite <- (Z.mod_small x (2 ^ n)) by lia.
  apply Z.mod_pow2_bits_high. lia.
Qed.

Lemma fits_of_high_bits n x :
  0 <= n → 0 <= x → (∀ i, n <= i → Z.testbit x i = false) → x < 2 ^ n.
Proof.
  intros Hn Hx Hbits.
  assert (Hmod : x mod 2 ^ n = x).
  { rewrite <- Z.land_ones by lia. apply Z.bits_inj'. intros i Hi.
    rewrite Z.land_spec. destruct (Z.lt_ge_cases i n).
    - rewrite Z.ones_spec_low by lia. apply andb_true_r.
    - rewrite Hbits by lia. done. }
  pose proof (Z.mod_pos_bound x (2 ^ n) (pow2_pos n Hn)). lia.
Qed.

(** Writing [k] bits at [start] into a value of [n] bits keeps it within
    [n] bits, when the slice lies inside the width. *)
Lemma splice_fits n u v start k :
  0 <= start → 0 <= k → start + k <= n → 0 <= u < 2 ^ n → 0 <= v →
  (∀ j, k <= j → Z.testbit v j = false) →
  0 <= Z.lor (Z.land u (Z.lnot (Z.shiftl (Z.shiftl 1 k - 1) start))) (Z.shiftl v start)
    < 2 ^ n.
Proof.
  intros Hs Hk Hn Hu Hv Hhigh.
  assert (Hnn : 0 <= Z.lor (Z.land u (Z.lnot (Z.shiftl (Z.shiftl 1 k - 1) start)))
                       (Z.shiftl v start)).
  { apply Z.lor_nonneg. split.
    - apply Z.land_nonneg. left. lia.
    - apply Z.shiftl_nonneg. lia. }
  split; [done|]. apply fits_of_high_bits; [lia|done|].
  intros i Hi. rewrite Z.lor_spec, Z.land_spec.
  rewrite (high_bits_clear n u i) by lia. cbn.
  rewrite Z.shiftl_spec by lia. apply Hhigh. lia.
Qed.

(** [write_slice] with a bounded slice or an index keeps the invariant. *)
Lemma write_slice_part_valid self a value b :
  a ≠ ASlice None None →
  write_slice self a value = Ok b → valid self → valid b.
Proof.
  intros Ha H [Hn Hu]. unfold write_slice, py_assert in H.
  destruct a as [start stop|i].
  - set (s := default 0 start) in *. set (e := default (nbits self) stop) in *.
    assert (H' : (_ ← (if (0 <=? s) && (s <? e) && (e <=? nbits self)
                       then Ok () else Raise AssertionError);
                  _ ← (if (_min self <=? to_uint value) && (to_uint value <=? _max self)
                       then Ok () else Raise AssertionError);
                  Ok (mkBits (nbits self)
                        (Z.lor (Z.land (_uint self)
                                  (Z.lnot (Z.shiftl (Z.shiftl 1 (e - s) - 1) s)))
                               (Z.shiftl (Z.land (to_uint value) (Z.shiftl 1 (e - s) - 1)) s))))
                 = Ok b).
    { destruct start, stop; try done. }
    clear H.
    destruct ((0 <=? s) && (s <? e) && (e <=? nbits self)) eqn:Hrange;
      cbn in H'; [|done].
    destruct ((_min self <=? to_uint value) && (to_uint value <=? _max self));
      cbn in H'; [|done].
    injection H' as <-.
    apply andb_prop in Hrange as [Hrange He]. apply andb_prop in Hrange as [Hs Hse].
    apply Z.leb_le in Hs, He. apply Z.ltb_lt in Hse.
    split; cbn [nbits _uint]; [done|].
    enough (0 <= Z.lor (Z.land (_uint self)
                          (Z.lnot (Z.shiftl (Z.shiftl 1 (e - s) - 1) s)))
                       (Z.shiftl (Z.land (to_uint value) (Z.shiftl 1 (e - s) - 1)) s)
              < 2 ^ nbits self) by lia.
    apply splice_fits; try lia.
    + apply Z.land_nonneg. right. rewrite mask_ones, Z.ones_equiv by lia.
      pose proof (pow2_pos (e - s) ltac:(lia)). lia.
    + intros j Hj. rewrite Z.land_spec, mask_ones, Z.ones_spec_high by lia.
      apply andb_false_r.
  - destruct ((0 <=? i) && (i <? nbits self)) eqn:Hrange; cbn in H; [|done].
    destruct ((0 <=? to_uint value) && (to_uint value <=? 1)) eqn:Hbit;
      cbn in H; [|done].
    injection H as <-.
    apply andb_prop in Hrange as [Hi Hin]. apply andb_prop in Hbit as [Hv0 Hv1].
    apply Z.leb_le in Hi, Hv0, Hv1. apply Z.ltb_lt in Hin.
    split; cbn [nbits _uint]; [done|].
    enough (0 <= Z.lor (Z.land (_uint self) (Z.lnot (Z.shiftl 1 i)))
                       (Z.shiftl (to_uint value) i) < 2 ^ nbits self) by lia.
    replace (Z.shiftl 1 i) with (Z.shiftl (Z.shiftl 1 1 - 1) i) by done.
    apply splice_fits; try lia.
    intros j Hj. apply (high_bits_clear 1); [lia| |done].
    change (2 ^ 1) with 2. lia.
Qed.

(** [write] masks a negative value into the width ... *)
Example write_negative :
  write (mkBits 4 0) (OInt (-1)) = Ok (mkBits 4 15).
Proof. reflexivity. Qed.

(** ... and so does [write_slice] on a bounded slice. *)
Example write_slice_bounded_negative :
  write_slice (mkBits 4 0) (ASlice (Some 0) (Some 4)) (OInt (-1)) = Ok (mkBits 4 15).
Proof. reflexivity. Qed.

(** C10: [write_slice] on the open slice [[:]] stores the value as it
    comes.  A negative value within [_min] passes the assertion and leaves
    the object with a negative [_uint]: the invariant is lost. *)
Theorem write_slice_open_negative :
  valid (mkBits 4 0) ∧
  write_slice (mkBits 4 0) (ASlice None None) (OInt (-1)) = Ok (mkBits 4 (-1)) ∧
  ¬ valid (mkBits 4 (-1)).
Proof.
  split; [repeat split; by vm_compute|]. split; [reflexivity|].
  intros [_ [H _]]. cbn in H. lia.
Qed.

End bits_write_slice.

(** ** ThreeExprLoops *)

Section three_expr_loops.
Import ThreeExprLoops.

Lemma visit_For_eq target iter body orelse :
  visit (For target iter body orelse) =
    (body' ← visit_items body; orelse' ← visit_items orelse;
     rewrite_For target iter body' orelse').
Proof. reflexivity. Qed.

(** C1: a loop over [range]/[xrange] with one, two or three positional
    arguments gets the slice [(0, a0, 1)], [(a0, a1, 1)] or [(a0, a1, a2)]
    once the statements nested in it are translated; with any other number
    of arguments, and for an iterable of any other shape, the visit
    raises. *)
Theorem three_expr_loops target iter body orelse :
  (∀ f fctx fob args body' orelse',
     iter = Call (Some (Name f fctx fob)) args →
     f = "range" ∨ f = "xrange" →
     visit_items body = Ok body' → visit_items orelse = Ok orelse' →
     visit (For target iter body orelse) =
       match args with
       | [a0] =>
           Ok (For target (Slice (Some (Num 0)) (Some a0) (Some (Num 1))) body' orelse')
       | [a0; a1] =>
           Ok (For target (Slice (Some a0) (Some a1) (Some (Num 1))) body' orelse')
       | [a0; a1; a2] =>
           Ok (For target (Slice (Some a0) (Some a1) (Some a2)) body' orelse')
       | _ => Raise (Exception_ "Invalid # of arguments to range function!")
       end) ∧
  ((∀ f fctx fob args,
      iter = Call (Some (Name f fctx fob)) args → f ≠ "range" ∧ f ≠ "xrange") →
   raises (visit (For target iter body orelse))).
Proof.
  split.
  - intros f fctx fob args body' orelse' -> Hf Hb Ho.
    assert (Hin : str_in f ["range"; "xrange"] = true) by (by destruct Hf as [-> | ->]).
    rewrite visit_For_eq, Hb, Ho. unfold rewrite_For.
    cbn [mbind result_bind]. rewrite Hin.
    destruct args as [|a0 [|a1 [|a2 [|a3 args]]]]; reflexivity.
  - intros Hshape. rewrite visit_For_eq.
    destruct (visit_items body) as [body'|e]; cbn; [|by eexists].
    destruct (visit_items orelse) as [orelse'|e]; cbn; [|by eexists].
    unfold rewrite_For.
    destruct iter as [| | | | | |[[]|] args| | | |]; try by eexists.
    destruct (Hshape _ _ _ _ eq_refl) as [Hr Hx].
    assert (Hin : str_in id ["range"; "xrange"] = false).
    { cbn. apply String.eqb_neq in Hr, Hx. by rewrite Hr, Hx. }
    rewrite Hin. by eexists.
Qed.

Lemma three_expr_loops_witness :
  visit (For (Name "i" Store None)
             (Call (Some (Name "range" Load None)) [Name "n" Load None])
             [For (Name "j" Store None)
                  (Call (Some (Name "xrange" Load None)) [Num 2; Num 8; Num 2])
                  [Pass] []] []) =
  Ok (For (Name "i" Store None)
          (Slice (Some (Num 0)) (Some (Name "n" Load None)) (Some (Num 1)))
          [For (Name "j" Store None)
               (Slice (Some (Num 2)) (Some (Num 8)) (Some (Num 2))) [Pass] []] []).
Proof.
  apply (proj1 (three_expr_loops _ _ _ _) "range" Load None [Name "n" Load None]
           [For (Name "j" Store None)
                (Slice (Some (Num 2)) (Some (Num 8)) (Some (Num 2))) [Pass] []] []);
    [reflexivity | by left | reflexivity | reflexivity].
Defined.

Example range_without_arguments_raises :
  visit (For (Name "i" Store None) (Call (Some (Name "range" Load None)) []) [] [])
  = Raise (Exception_ "Invalid # of arguments to range function!").
Proof. reflexivity. Qed.

Example loop_over_a_list_raises :
  visit (For (Name "x" Store None) (Name "xs" Load None) [] []) = Raise AssertionError.
Proof. reflexivity. Qed.

End three_expr_loops.

(** ** SimplifyDecorator *)

Section simplify_decorator.
Import SimplifyDecorator Design.

(** C2, as the code has it: an empty decorator list fails the assertion;
    a list that starts with an attribute access is accepted whatever its
    length, and the function keeps the tag of that first decorator alone;
    a first decorator of another shape raises. *)
Theorem first_decorator_kept (node : FunctionDef expr) :
  (decorator_list node = [] → visit_FunctionDef node = Raise AssertionError) ∧
  (∀ value attr ctx ob rest,
     decorator_list node = Attribute value attr ctx ob :: rest →
     visit_FunctionDef node =
       Ok (mkFunctionDef (name node) (args node) (body node) [attr])) ∧
  (∀ d rest,
     decorator_list node = d :: rest → get_attr d = Raise (AttributeError "attr") →
     visit_FunctionDef node = Raise (AttributeError "attr")).
Proof.
  unfold visit_FunctionDef. repeat split.
  - intros ->. reflexivity.
  - intros value attr ctx ob rest ->. reflexivity.
  - intros d rest -> Hd. cbn. rewrite Hd. reflexivity.
Qed.

Lemma first_decorator_kept_witness :
  visit_FunctionDef (mkFunctionDef "logic" [] [Pass] [tick]) =
    Ok (mkFunctionDef "logic" [] [Pass] ["tick"]).
Proof.
  apply (proj1 (proj2 (first_decorator_kept (mkFunctionDef "logic" [] [Pass] [tick])))
               (Some s) "tick" Load None []).
  reflexivity.
Defined.

(** Two decorators are not an error: the second one is dropped. *)
Lemma two_decorators_accepted :
  length (decorator_list (mkFunctionDef "logic" [] [Pass] [tick; combinational])) = 2 ∧
  visit_FunctionDef (mkFunctionDef "logic" [] [Pass] [tick; combinational]) =
    Ok (mkFunctionDef "logic" [] [Pass] ["tick"]) ∧
  ¬ raises (visit_FunctionDef (mkFunctionDef "logic" [] [Pass] [tick; combinational])).
Proof.
  split; [reflexivity|]. split; [reflexivity|]. intros [e He]. discriminate He.
Qed.

End simplify_decorator.

(** ** InferTemporaryTypes *)

Section infer_temporary_types.
Import InferTemporaryTypes.
Local Open Scope Z_scope.

Lemma visit_Assign_untyped id ctx value :
  visit_Assign [Name id ctx (Some PyNone)] value =
    (obj ← infer id value; Ok (Assign [Name id ctx (Some obj)] value)).
Proof. reflexivity. Qed.

Lemma named_Wire_eq n id :
  named_Wire n id = Ok (PyInst Wire [("nbits", PyInt n); ("name", PyStr id)]).
Proof. reflexivity. Qed.

Lemma concat_widths args ws :
  Forall2 (λ x w, arg_nbits x = Ok (PyInt w)) args ws →
  (ns ← mapM arg_nbits args; py_sum ns) = Ok (foldr Z.add 0 ws).
Proof.
  induction 1 as [|x w args ws Hx _ IH]; [done|].
  cbn [mapM]. rewrite Hx. cbn [mbind result_bind] in *.
  destruct (mapM arg_nbits args) as [ns|e]; cbn [mbind result_bind] in *; [|done].
  cbn [py_sum]. rewrite IH. done.
Qed.

(** C5: for [tmp = concat( a, b, ... )] with an unannotated name on the
    left and arguments whose objects have the widths [ws], the target gets
    a wire named after it whose width is the sum of [ws]. *)
Theorem concat_width id ctx fctx fob args ws :
  Forall2 (λ x w, arg_nbits x = Ok (PyInt w)) args ws →
  ∃ obj,
    visit_Assign [Name id ctx (Some PyNone)] (Call (Some (Name "concat" fctx fob)) args) =
      Ok (Assign [Name id ctx (Some obj)] (Call (Some (Name "concat" fctx fob)) args)) ∧
    obj = PyInst Wire [("nbits", PyInt (foldr Z.add 0 ws)); ("name", PyStr id)] ∧
    isinstance obj Signal = true ∧
    width obj = Some (foldr Z.add 0 ws).
Proof.
  intros Hargs. eexists. split; [|done].
  rewrite visit_Assign_untyped. cbn [infer infer_Call str_in existsb String.eqb Ascii.eqb
    Bool.eqb orb].
  pose proof (concat_widths args ws Hargs) as Hsum.
  destruct (mapM arg_nbits args) as [ns|e]; cbn [mbind result_bind] in *; [|done].
  rewrite Hsum. reflexivity.
Qed.

Lemma concat_width_witness :
  ∃ obj,
    visit_Assign [Design.tmp] Design.concat_a_b =
      Ok (Assign [Name "tmp" Store (Some obj)] Design.concat_a_b) ∧
    obj = PyInst Wire [("nbits", PyInt 12); ("name", PyStr "tmp")] ∧
    isinstance obj Signal = true ∧
    width obj = Some 12.
Proof.
  apply (concat_width "tmp" Store Load (Some PyNone)
           [Name "a" Load (Some Design.a); Name "b" Load (Some Design.b)] [4; 8]).
  repeat constructor.
Defined.



(** A literal width carries no [_object]: [tmp = sext( a, 16 )] raises. *)
Example sext_literal_width_raises :
  visit_Assign [Design.tmp]
    (Call (Some (Name "sext" Load (Some PyNone))) [Name "a" Load (Some Design.a); Num 16])
  = Raise (AttributeError "_object").
Proof. reflexivity. Qed.

End infer_temporary_types.

(** ** FlattenSubmodAttrs *)

Section flatten_submod_attrs.
Import FlattenSubmodAttrs.

Lemma flatten_Attribute_eq value attr ctx ob sub :
  visit (Attribute value attr ctx ob) sub =
    ('(value', s1) ← visit_field value sub; flatten_Attribute value' attr ctx ob s1).
Proof. reflexivity. Qed.

(** A node whose object is a sub-component is removed and leaves the name
    of the sub-component in [self.submodule], whatever was there before. *)
Lemma submodule_removed value attr ctx obj nm sub :
  hasattr obj "class_name" = true → py_getattr obj "name" = Some (PyStr nm) →
  flatten_Attribute value attr ctx (Some obj) sub = Ok (None, Some nm).
Proof.
  intros Hc Hn. unfold flatten_Attribute.
  destruct (truthy sub); cbn [get_object mbind result_bind];
    rewrite Hc; unfold getattr; rewrite Hn; reflexivity.
Qed.

(** C7: in [recv.sub.port], where the object of [recv.sub] is a
    sub-component named [nm] and the object of the whole reference is not
    one, the node of [recv.sub] is removed and the reference becomes the
    single name [nm$port], which carries the object of the reference. *)
Theorem flatten_submodule recv attr port c1 c2 sub_obj port_obj nm sub0 recv' s1 :
  visit_field recv sub0 = Ok (recv', s1) →
  hasattr sub_obj "class_name" = true →
  py_getattr sub_obj "name" = Some (PyStr nm) → nm ≠ "" →
  hasattr port_obj "class_name" = false →
  visit (Attribute recv attr c1 (Some sub_obj)) sub0 = Ok (None, Some nm) ∧
  visit (Attribute (Some (Attribute recv attr c1 (Some sub_obj))) port c2 (Some port_obj)) sub0
    = Ok (Some (Name (nm ++ "$" ++ port) c2 (Some port_obj)), None).
Proof.
  intros Hrecv Hc Hn Hne Hp.
  assert (Hinner : visit (Attribute recv attr c1 (Some sub_obj)) sub0 = Ok (None, Some nm)).
  { rewrite flatten_Attribute_eq, Hrecv. cbn [mbind result_bind].
    by apply submodule_removed. }
  split; [done|].
  rewrite flatten_Attribute_eq. unfold visit_field at 1. rewrite Hinner.
  cbn [mbind result_bind]. unfold flatten_Attribute, truthy.
  apply String.eqb_neq in Hne. rewrite Hne.
  cbn [get_object mbind result_bind]. rewrite Hp. reflexivity.
Qed.

Lemma flatten_submodule_witness :
  visit (Attribute (Some (Name "s" Load (Some Design.top))) "sub" Load (Some Design.sub)) None
    = Ok (None, Some "sub") ∧
  visit Design.s_sub_port None =
    Ok (Some (Name "sub$port" Load (Some Design.port)), None).
Proof.
  apply (flatten_submodule (Some (Name "s" Load (Some Design.top))) "sub" "port"
           Load Load Design.sub Design.port "sub" None
           (Some (Name "s" Load (Some Design.top))) None);
    [reflexivity | reflexivity | reflexivity | discriminate | reflexivity].
Defined.

End flatten_submod_attrs.

(** ** AnnotateWithObjects: attributes *)

Section annotate_attribute.
Import AnnotateWithObjects.

Lemma bind_Attribute_eq E value attr ctx ob st :
  visit E (Attribute value attr ctx ob) st =
    ('(value', st1) ← visit_field E value st; bind_Attribute value' attr ctx st1).
Proof. reflexivity. Qed.

Lemma current_inst_deref st r po : deref st = Some (r, po) → current_inst st = inst po.
Proof. unfold current_inst. by intros ->. Qed.

(** C4: when the receiver of [value.attr] is bound to an object that has
    no attribute [attr], the visit raises an exception whose message ends
    with [attr], unless [attr] is one of [next], [value], [n], [v]: then
    the node gets the object of the receiver and the binding stays as it
    is. *)
Theorem unknown_attribute E value attr ctx ob st value' st1 r po :
  visit E value st = Ok (value', st1) →
  deref st1 = Some (r, po) →
  py_getattr (inst po) attr = None →
  (str_in attr accessors = false →
     visit E (Attribute (Some value) attr ctx ob) st =
       Raise (Exception_ ("Error: Unknown attribute for this object: " ++ attr))) ∧
  (str_in attr accessors = true →
     visit E (Attribute (Some value) attr ctx ob) st =
       Ok (Attribute (Some value') attr ctx (Some (inst po)), st1)).
Proof.
  intros Hv Hd Ha.
  rewrite bind_Attribute_eq. unfold visit_field. rewrite Hv.
  cbn [mbind result_bind]. unfold bind_Attribute. rewrite Hd, Ha.
  split; intros ->; cbn [mbind result_bind]; [done|].
  by rewrite (current_inst_deref _ _ _ Hd).
Qed.

Lemma unknown_attribute_witness :
  visit Design.E Design.s_a_width init =
    Raise (Exception_ "Error: Unknown attribute for this object: width") ∧
  visit Design.E Design.s_a_next init =
    Ok (Attribute (Some Design.s_a_bound) "next" Store (Some Design.a), Design.at_a).
Proof.
  split.
  - apply (unknown_attribute Design.E (Attribute (Some Design.s) "a" Load None)
             "width" Load None init Design.s_a_bound Design.at_a
             0 (mkPyObj "a" Design.a)); by vm_compute.
  - apply (unknown_attribute Design.E (Attribute (Some Design.s) "a" Load None)
             "next" Store None init Design.s_a_bound Design.at_a
             0 (mkPyObj "a" Design.a)); by vm_compute.
Defined.

End annotate_attribute.

(** ** AnnotateWithObjects: what a traversal leaves alone *)

Section annotate_frame.
Import AnnotateWithObjects.

Lemma Ok_inj {A} (a b : A) : Ok a = Ok b → a = b.
Proof. by intros [= ->]. Qed.

Lemma frame_refl st : frame st st.
Proof. repeat split; auto. Qed.

Lemma frame_trans s1 s2 s3 : frame s1 s2 → frame s2 s3 → frame s1 s3.
Proof.
  intros (Hl1 & Hc1 & Hcur1) (Hl2 & Hc2 & Hcur2). repeat split.
  - lia.
  - intros r Hr Hne. rewrite Hc2, Hc1; [done..|lia|].
    destruct Hcur1 as [-> | [-> | (r' & -> & Hr')]]; [done|done|].
    intros [= ->]. lia.
  - destruct Hcur2 as [-> | [-> | (r' & -> & Hr')]]; [done|auto|].
    right; right. exists r'. split; [done|lia].
Qed.

Lemma frame_new_PyObj nm o st : frame st (new_PyObj nm o st).
Proof.
  unfold new_PyObj. repeat split; cbn.
  - rewrite length_app. lia.
  - intros r Hr _. by rewrite lookup_app_l.
  - right; right. eauto.
Qed.

Lemma frame_set_None st : frame st (set_current None st).
Proof. repeat split; cbn; auto. Qed.

Lemma deref_Some st r po :
  deref st = Some (r, po) ↔ current_obj st = Some r ∧ heap st !! r = Some po.
Proof.
  unfold deref. destruct (current_obj st) as [r'|]; cbn.
  - destruct (heap st !! r') as [po'|] eqn:E; cbn.
    + split; [by intros [= -> ->] | intros [[= ->] H2]; congruence].
    + split; [done | intros [[= ->] H2]; congruence].
  - split; [done | by intros [? _]].
Qed.

Lemma update_eq st r po nm x :
  heap st !! r = Some po →
  update r nm x st = mkState (<[r := mkPyObj (name po ++ nm) x]> (heap st)) (current_obj st).
Proof. unfold update. by intros ->. Qed.

Lemma frame_update st r po nm x :
  deref st = Some (r, po) → frame st (update r nm x st).
Proof.
  intros [Hc Hh]%deref_Some. rewrite (update_eq _ _ _ _ _ Hh). repeat split; cbn.
  - by rewrite length_insert.
  - intros r' _ Hne. apply list_lookup_insert_ne. congruence.
  - auto.
Qed.

Lemma frame_visit_Name E id ctx st node st' :
  visit_Name E id ctx st = (node, st') → frame st st'.
Proof.
  unfold visit_Name. intros [= _ <-].
  repeat case_match; auto using frame_new_PyObj, frame_set_None.
Qed.

Lemma frame_bind_Attribute value attr ctx st node st' :
  bind_Attribute value attr ctx st = Ok (node, st') → frame st st'.
Proof.
  unfold bind_Attribute. intros H.
  destruct (deref st) as [[r po]|] eqn:Hd.
  - destruct (py_getattr (inst po) attr).
    + injection H as _ <-. by eapply frame_update.
    + destruct (str_in attr accessors); [|done]. injection H as _ <-. apply frame_refl.
  - injection H as _ <-. apply frame_refl.
Qed.

Lemma frame_bind_Subscript value slice ctx st node st' :
  bind_Subscript value slice ctx st = Ok (node, st') → frame st st'.
Proof.
  unfold bind_Subscript. intros H.
  destruct (deref st) as [[r po]|] eqn:Hd.
  - destruct (getitem0 (inst po)); [|done]. injection H as _ <-. by eapply frame_update.
  - injection H as _ <-. apply frame_refl.
Qed.

(** Restoring the stash after a traversal that started unbound: nothing
    that existed before was touched. *)
Lemma frame_restore st1 st2 :
  frame (set_current None st1) st2 →
  frame st1 (set_current (current_obj st1) st2) ∧
  ∀ r, r < length (heap st1) → heap st2 !! r = heap st1 !! r.
Proof.
  intros (Hl & Hc & _). cbn in *. repeat split; cbn; auto.
Qed.

End annotate_frame.

Section annotate_visit_frame.
Import AnnotateWithObjects.
Variable E : env.

(** Opens the next bind of a hypothesis [H : ... = Ok _]. *)
Ltac open_bind H :=
  match type of H with
  | mbind _ ?m = Ok _ =>
      let E := fresh "E" in
      destruct m as [[? ?]|?] eqn:E; cbn [mbind result_bind] in H; [|discriminate H]
  end.

Lemma framing_field o :
  opt_all (framing E) o → ∀ st o' st', visit_field E o st = Ok (o', st') → frame st st'.
Proof.
  destruct o as [e|]; cbn [opt_all visit_field].
  - intros He st o' st' H. open_bind H. injection H as _ <-. by eapply He.
  - intros _ st o' st' [= _ <-]. apply frame_refl.
Qed.

Lemma framing_items l :
  Forall (framing E) l → ∀ st l' st', visit_items E l st = Ok (l', st') → frame st st'.
Proof.
  induction 1 as [|e l He _ IH]; intros st l' st' H; cbn in H.
  - injection H as _ <-. apply frame_refl.
  - open_bind H. open_bind H. injection H as _ <-.
    eapply frame_trans; [by eapply He | by eapply IH].
Qed.

Lemma framing_elts l :
  Forall (framing E) l → ∀ st l' os st', visit_elts E l st = Ok (l', os, st') → frame st st'.
Proof.
  induction 1 as [|e l He _ IH]; intros st l' os st' H; cbn in H.
  - injection H as _ _ <-. apply frame_refl.
  - open_bind H. destruct (get_object _); cbn [mbind result_bind] in H; [|done].
    destruct (visit_elts E l _) as [[[? ?] ?]|] eqn:El in H;
      cbn [mbind result_bind] in H; [|done].
    injection H as _ _ <-.
    eapply frame_trans; [by eapply He | by eapply IH].
Qed.

Lemma visit_frame e : framing E e.
Proof.
  induction e as
    [n | id ctx ob | value attr ctx ob IHv | value slice ctx ob IHv IHs | value IHv
    | lower upper step IHl IHu IHst | func args IHf IHa | lhs op rhs IHl IHr
    | op values IHvs | lhs ops comparators IHl IHc | elts ctx ob IHe] using expr_ind';
    intros st e' st' H.
  - injection H as _ <-. apply frame_refl.
  - change (Ok (visit_Name E id ctx st) = Ok (e', st')) in H.
    apply Ok_inj in H. by eapply frame_visit_Name.
  - change (('(value', st1) ← visit_field E value st;
             bind_Attribute value' attr ctx st1) = Ok (e', st')) in H.
    open_bind H.
    eapply frame_trans; [by eapply framing_field | by eapply frame_bind_Attribute].
  - destruct value as [value|], slice as [slice|]; cbn [visit] in H; try done.
    + open_bind H. open_bind H. cbn [opt_all] in IHv, IHs.
      apply IHv in E0. apply IHs, frame_restore in E1 as [Hrestore _].
      apply frame_bind_Subscript in H.
      eauto using frame_trans.
    + by destruct (visit E value st).
  - change (('(value', st1) ← visit_field E value st; Ok (Index value', st1))
            = Ok (e', st')) in H.
    open_bind H. injection H as _ <-. by eapply framing_field.
  - change (('(lower', st1) ← visit_field E lower st;
             '(upper', st2) ← visit_field E upper st1;
             '(step', st3) ← visit_field E step st2;
             Ok (Slice lower' upper' step', st3)) = Ok (e', st')) in H.
    do 3 open_bind H. injection H as _ <-.
    apply (framing_field _ IHl) in E0. apply (framing_field _ IHu) in E1.
    apply (framing_field _ IHst) in E2.
    exact (frame_trans _ _ _ (frame_trans _ _ _ E0 E1) E2).
  - change (('(func', st1) ← visit_field E func st;
             '(args', st2) ← visit_items E args st1;
             Ok (Call func' args', st2)) = Ok (e', st')) in H.
    do 2 open_bind H. injection H as _ <-.
    apply (framing_field _ IHf) in E0. apply (framing_items _ IHa) in E1.
    exact (frame_trans _ _ _ E0 E1).
  - change (('(lhs', st1) ← visit_field E lhs st;
             '(rhs', st2) ← visit_field E rhs st1;
             Ok (BinOp lhs' op rhs', st2)) = Ok (e', st')) in H.
    do 2 open_bind H. injection H as _ <-.
    apply (framing_field _ IHl) in E0. apply (framing_field _ IHr) in E1.
    exact (frame_trans _ _ _ E0 E1).
  - change (('(values', st1) ← visit_items E values st; Ok (BoolOp op values', st1))
            = Ok (e', st')) in H.
    open_bind H. injection H as _ <-. by eapply framing_items.
  - change (('(lhs', st1) ← visit_field E lhs st;
             '(comparators', st2) ← visit_items E comparators st1;
             Ok (Compare lhs' ops comparators', st2)) = Ok (e', st')) in H.
    do 2 open_bind H. injection H as _ <-.
    apply (framing_field _ IHl) in E0. apply (framing_items _ IHc) in E1.
    exact (frame_trans _ _ _ E0 E1).
  - change (('(elts', objs, st1) ← visit_elts E elts st;
             Ok (List_ elts' ctx (Some (PyList objs [])), st1)) = Ok (e', st')) in H.
    destruct (visit_elts E elts st) as [[[? ?] ?]|] eqn:Ee;
      cbn [mbind result_bind] in H; [|done].
    injection H as _ <-. by eapply framing_elts.
Qed.

End annotate_visit_frame.

(** ** AnnotateWithObjects: subscripts *)

Section annotate_subscript.
Import AnnotateWithObjects.

Lemma bind_Subscript_eq E value slice ctx ob st :
  visit E (Subscript (Some value) (Some slice) ctx ob) st =
    ('(value', st1) ← visit E value st;
     '(slice', st2) ← visit E slice (set_current None st1);
     bind_Subscript value' slice' ctx (set_current (current_obj st1) st2)).
Proof. reflexivity. Qed.

(** C3, as the code has it.  In [value[slice]] the index is visited with
    [self.current_obj] reset to [None], and the binding of the container
    comes back afterwards, untouched by that visit.  The node then gets
    the object of the container itself, the collection; it is the
    binding that moves on to the first element of the collection, with
    [[]] added to its path. *)
Theorem subscript_binding E value slice ctx ob st value' st1 slice' st2 r po x :
  visit E value st = Ok (value', st1) →
  visit E slice (set_current None st1) = Ok (slice', st2) →
  deref st1 = Some (r, po) →
  getitem0 (inst po) = Ok x →
  heap st2 !! r = Some po ∧
  visit E (Subscript (Some value) (Some slice) ctx ob) st =
    Ok (Subscript (Some value') (Some slice') ctx (Some (inst po)),
        mkState (<[r := mkPyObj (name po ++ "[]") x]> (heap st2)) (Some r)).
Proof.
  intros Hv Hs Hd Hx. pose proof Hd as [Hc Hh]%deref_Some.
  assert (Hkept : heap st2 !! r = Some po).
  { apply visit_frame, frame_restore in Hs as [_ Hs].
    rewrite Hs; [done|]. by eapply lookup_lt_Some. }
  split; [done|].
  rewrite bind_Subscript_eq, Hv. cbn [mbind result_bind]. rewrite Hs.
  cbn [mbind result_bind].
  assert (Hd' : deref (set_current (current_obj st1) st2) = Some (r, po)).
  { apply deref_Some. cbn. by rewrite Hc. }
  unfold bind_Subscript. rewrite (current_inst_deref _ _ _ Hd'), Hd', Hx.
  cbn [mbind result_bind]. rewrite (update_eq _ _ po) by done. cbn. by rewrite Hc.
Qed.

(** [s.arr[i]]: the subscript node carries the list [arr], not its first
    element [a]; the binding is the one that ends on [a]. *)
Lemma subscript_object_is_the_collection :
  ∃ node st,
    visit Design.E Design.s_arr_i init = Ok (node, st) ∧
    getitem0 Design.arr = Ok Design.a ∧
    get_object node = Ok Design.arr ∧
    get_object node ≠ Ok Design.a ∧
    deref st = Some (0, mkPyObj "arr[]" Design.a).
Proof.
  eexists _, _. split; [vm_compute; reflexivity|].
  split; [reflexivity|]. split; [reflexivity|]. split; [discriminate|reflexivity].
Qed.

Lemma subscript_binding_witness :
  heap Design.after_i !! 0 = Some (mkPyObj "arr" Design.arr) ∧
  visit Design.E Design.s_arr_i init =
    Ok (Subscript (Some Design.s_arr_bound) (Some Design.i_bound) Load (Some Design.arr),
        mkState (<[0 := mkPyObj "arr[]" Design.a]> (heap Design.after_i)) (Some 0)).
Proof.
  apply (subscript_binding Design.E (Attribute (Some Design.s) "arr" Load None)
           (Index (Some (Name "i" Load None))) Load None init
           Design.s_arr_bound Design.at_arr Design.i_bound Design.after_i
           0 (mkPyObj "arr" Design.arr) Design.a); by vm_compute.
Defined.

End annotate_subscript.

(** ** GetRegsIntsParamsTempsArrays: the sets only grow *)

Section classifier_grows.
Import GetRegsIntsParamsTempsArrays.

Lemma grows_refl st : grows st st.
Proof. repeat split; auto. Qed.

Lemma grows_trans s1 s2 s3 : grows s1 s2 → grows s2 s3 → grows s1 s3.
Proof. intros (?&?&?) (?&?&?). repeat split; auto. Qed.

Lemma pyset_in_add x y s : pyset_in x s = true → pyset_in x (pyset_add y s) = true.
Proof.
  unfold pyset_add, pyset_in. intros Hx. destruct (existsb (pyobj_eqb y) s); [done|].
  rewrite existsb_app, Hx. done.
Qed.


Lemma pyset_in_update x elts s :
  pyset_in x s = true → pyset_in x (foldl (λ s y, pyset_add y s) s elts) = true.
Proof.
  revert s. induction elts as [|y elts IH]; intros s Hx; cbn; [done|].
  apply IH. by apply pyset_in_add.
Qed.

Lemma grows_set_is_lhs b st : grows st (set_is_lhs b st).
Proof. repeat split; auto. Qed.

Lemma grows_add_loopvar o st : grows st (add_loopvar o st).
Proof.
  split; [done|]. split; [|done]. intros x Hx. by apply pyset_in_add.
Qed.

Lemma reg_at_add_store k obj st :
  isinstance obj Signal = true → py_getattr obj "fullname" = Some (PyStr k) →
  reg_at k (add_store k obj st).
Proof. intros Hs Hk. exists obj. cbn. by rewrite lookup_insert_eq. Qed.

Lemma grows_add_store k obj st :
  isinstance obj Signal = true → py_getattr obj "fullname" = Some (PyStr k) →
  grows st (add_store k obj st).
Proof.
  intros Hs Hk. repeat split; cbn; auto.
  intros fn Hfn. destruct (decide (fn = k)) as [->|Hne].
  - by apply reg_at_add_store.
  - destruct Hfn as (sg & Hsg & ?). exists sg. cbn. by rewrite lookup_insert_ne.
Qed.

Lemma grows_add_param nm ob st st' : add_param nm ob st = Ok st' → grows st st'.
Proof.
  unfold add_param. destruct ob as [o|]; [|done].
  destruct (_ || _); intros [= <-]; repeat split; auto.
Qed.

Lemma grows_track_array o st : grows st (track_array o st).
Proof.
  destruct o; try apply grows_refl.
  split; [|done]. intros x Hx. by apply pyset_in_update.
Qed.


Lemma grows_file_target obj st st' : file_target obj st = Ok st' → grows st st'.
Proof.
  unfold file_target. destruct (pyset_in obj (arrayelms st)); [intros [= <-]; apply grows_refl|].
  destruct (isinstance obj Signal) eqn:Hs.
  - unfold getattr. destruct (py_getattr obj "fullname") as [[]|] eqn:Hf; cbn; try done.
    intros [= <-]. by apply grows_add_store.
  - destruct (is_tuple obj); [|intros [= <-]; apply grows_refl].
    destruct (getitem0 obj); cbn; [|done]. intros [= <-]. apply grows_add_loopvar.
Qed.

(** Opens the next bind of a hypothesis [H : ... = Ok _]. *)
Ltac open_bind H :=
  match type of H with
  | mbind _ ?m = Ok _ =>
      let E := fresh "E" in
      destruct m eqn:E; cbn [mbind result_bind] in H; [|discriminate H]
  end.

Lemma growing_field o :
  opt_all growing o → ∀ st st', visit_field o st = Ok st' → grows st st'.
Proof.
  destruct o as [e|]; cbn [opt_all visit_field]; [auto|].
  intros _ st st' [= <-]. apply grows_refl.
Qed.

Lemma growing_items l :
  Forall growing l → ∀ st st', visit_items l st = Ok st' → grows st st'.
Proof.
  induction 1 as [|e l He _ IH]; intros st st' H; cbn in H.
  - injection H as <-. apply grows_refl.
  - open_bind H. eapply grows_trans; [by eapply He | by eapply IH].
Qed.

Lemma visit_expr_grows e : growing e.
Proof.
  induction e as
    [n | id ctx ob | value attr ctx ob IHv | value slice ctx ob IHv IHs | value IHv
    | lower upper step IHl IHu IHst | func args IHf IHa | lhs op rhs IHl IHr
    | op values IHvs | lhs ops comparators IHl IHc | elts ctx ob IHe] using expr_ind';
    intros st st' H.
  - injection H as <-. apply grows_refl.
  - by eapply grows_add_param.
  - by eapply grows_add_param.
  - destruct ob as [o|]; [|done].
    destruct value as [value|], slice as [slice|]; cbn [visit_expr] in H; try done.
    + open_bind H. cbn [opt_all] in IHv, IHs.
      apply IHv in E. apply IHs in H.
      exact (grows_trans _ _ _ (grows_track_array o st) (grows_trans _ _ _ E H)).
    + by destruct (visit_expr value _).
  - by eapply (growing_field value).
  - change ((st1 ← visit_field lower st; st2 ← visit_field upper st1;
             visit_field step st2) = Ok st') in H.
    do 2 open_bind H.
    apply (growing_field _ IHl) in E. apply (growing_field _ IHu) in E0.
    apply (growing_field _ IHst) in H.
    exact (grows_trans _ _ _ (grows_trans _ _ _ E E0) H).
  - change ((st1 ← visit_field func st; visit_items args st1) = Ok st') in H.
    open_bind H. apply (growing_field _ IHf) in E. apply (growing_items _ IHa) in H.
    exact (grows_trans _ _ _ E H).
  - change ((st1 ← visit_field lhs st; visit_field rhs st1) = Ok st') in H.
    open_bind H. apply (growing_field _ IHl) in E. apply (growing_field _ IHr) in H.
    exact (grows_trans _ _ _ E H).
  - by eapply (growing_items values).
  - change ((st1 ← visit_field lhs st; visit_items comparators st1) = Ok st') in H.
    open_bind H. apply (growing_field _ IHl) in E. apply (growing_items _ IHc) in H.
    exact (grows_trans _ _ _ E H).
  - by eapply (growing_items elts).
Qed.

End classifier_grows.

(** ** GetRegsIntsParamsTempsArrays: registers and loop variables *)

Section classifier_overlap.
Import GetRegsIntsParamsTempsArrays.

Ltac open_bind H :=
  match type of H with
  | mbind _ ?m = Ok _ =>
      let E := fresh "E" in
      destruct m eqn:E; cbn [mbind result_bind] in H; [|discriminate H]
  end.

Lemma growing_stmts l :
  Forall growing_stmt l → ∀ st st', visit_stmts l st = Ok st' → grows st st'.
Proof.
  induction 1 as [|s l Hs _ IH]; intros st st' H; cbn in H.
  - injection H as <-. apply grows_refl.
  - open_bind H. eapply grows_trans; [by eapply Hs | by eapply IH].
Qed.

Lemma visit_Assign_eq target rest value st :
  visit (Assign (target :: rest) value) st =
    (_ ← py_assert (length (target :: rest) =? 1)%nat;
     st1 ← visit_expr target (set_is_lhs true st);
     st2 ← visit_expr value (set_is_lhs false st1);
     obj ← get_object target;
     file_target obj st2).
Proof. reflexivity. Qed.

Lemma visit_For_Name_eq id ctx ob iter body orelse st :
  visit (For (Name id ctx ob) iter body orelse) st =
    (_ ← py_assert (is_Slice iter);
     st1 ← visit_expr (Name id ctx ob) (add_loopvar (PyStr id) st);
     st2 ← visit_expr iter st1;
     st3 ← visit_stmts body st2;
     visit_stmts orelse st3).
Proof. reflexivity. Qed.

Lemma visit_If_eq test body orelse st :
  visit (If test body orelse) st =
    (st1 ← visit_expr test st; st2 ← visit_stmts body st1; visit_stmts orelse st2).
Proof. reflexivity. Qed.

Lemma visit_grows s : growing_stmt s.
Proof.
  induction s as [targets value | target op value | target iter body orelse IHb IHo
                 | test body orelse IHb IHo | value | ] using stmt_ind';
    intros st st' H.
  - destruct targets as [|target rest]; [discriminate H|].
    rewrite visit_Assign_eq in H. do 4 open_bind H.
    apply visit_expr_grows in E0, E1. apply grows_file_target in H.
    eapply grows_trans; [apply (grows_set_is_lhs true)|].
    eapply grows_trans; [exact E0|].
    eapply grows_trans; [apply (grows_set_is_lhs false)|].
    eapply grows_trans; [exact E1|exact H].
  - change ((st1 ← visit_expr target st; visit_expr value st1) = Ok st') in H.
    open_bind H. apply visit_expr_grows in E, H. by eapply grows_trans.
  - destruct target; try by (cbn in H; destruct (py_assert _)).
    rewrite visit_For_Name_eq in H. do 4 open_bind H.
    apply visit_expr_grows in E0, E1.
    apply (growing_stmts _ IHb) in E2. apply (growing_stmts _ IHo) in H.
    eapply grows_trans; [apply (grows_add_loopvar (PyStr id))|].
    eapply grows_trans; [exact E0|].
    eapply grows_trans; [exact E1|].
    eapply grows_trans; [exact E2|exact H].
  - rewrite visit_If_eq in H. do 2 open_bind H.
    apply visit_expr_grows in E.
    apply (growing_stmts _ IHb) in E0. apply (growing_stmts _ IHo) in H.
    eapply grows_trans; [exact E|]. eapply grows_trans; [exact E0|exact H].
  - by apply visit_expr_grows in H.
  - injection H as <-. apply grows_refl.
Qed.

















(** The sets the run of [Design.loop] returns. *)
Example loop_sets :
  get Design.loop = Ok ([Design.a], [PyStr "i"], [], []).
Proof. vm_compute. reflexivity. Qed.

End classifier_overlap.

(** ** Bits: what the constructor and the readers compute *)

Section bits_values.
Import Bits.
Local Open Scope Z_scope.

Lemma mod_negative n v : 0 <= n → - 2 ^ n <= v < 0 → v mod 2 ^ n = v + 2 ^ n.
Proof.
  intros Hn Hv. rewrite <- (Z_mod_plus_full v 1 (2 ^ n)), Z.mul_1_l.
  apply Z.mod_small. lia.
Qed.

(** X1: the constructor without [trunc] takes a value between [-2^nbits]
    and [2^nbits - 1]: a value that is not negative is stored as it is, a
    negative one as [value + 2^nbits] (so [-2^nbits] is stored as [0]);
    any value outside that range fails the assertion. *)
Theorem init_stores_two_complement n v :
  0 < n →
  (- 2 ^ n <= v <= 2 ^ n - 1 →
     __init__ n v false =
       Ok (mkBits n (if 0 <=? v then v else if v =? - 2 ^ n then 0 else v + 2 ^ n))) ∧
  (v < - 2 ^ n ∨ 2 ^ n - 1 < v → __init__ n v false = Raise AssertionError).
Proof.
  intros Hn. pose proof (pow2_pos n ltac:(lia)) as Hp. split.
  - intros Hv. rewrite init_checked by lia. do 2 f_equal.
    destruct (Z.leb_spec 0 v).
    + apply Z.mod_small. lia.
    + destruct (Z.eqb_spec v (- 2 ^ n)) as [->|Hne].
      * rewrite mod_negative by lia. lia.
      * apply mod_negative; lia.
  - intros Hv. apply init_unchecked_raises. lia.
Qed.

Lemma init_stores_two_complement_witness :
  __init__ 4 (-3) false = Ok (mkBits 4 13) ∧
  __init__ 4 16 false = Raise AssertionError.
Proof.
  split.
  - apply (init_stores_two_complement 4 (-3)); [lia | split; by vm_compute].
  - apply (init_stores_two_complement 4 16); [lia | right; by vm_compute].
Defined.

Lemma slice_value u start k :
  0 <= start → 0 <= k →
  Z.shiftr (Z.land u (Z.shiftl (Z.shiftl 1 k - 1) start)) start
  = (u / 2 ^ start) mod 2 ^ k.
Proof.
  intros Hs Hk. rewrite mask_ones, Z.shiftr_land, Z.shiftr_shiftl_l by lia.
  rewrite Z.sub_diag, Z.shiftl_0_r, Z.land_ones, Z.shiftr_div_pow2 by lia. done.
Qed.

Lemma init_small n v : 0 < n → 0 <= v < 2 ^ n → __init__ n v false = Ok (mkBits n v).
Proof.
  intros Hn Hv. rewrite init_checked by lia. by rewrite Z.mod_small.
Qed.

Lemma getitem_slice_value self start stop :
  0 <= start → start < stop → stop <= nbits self →
  __getitem__ self (ASlice (Some start) (Some stop)) =
    Ok (mkBits (stop - start) ((_uint self / 2 ^ start) mod 2 ^ (stop - start))).
Proof.
  intros Hs Hse He. unfold __getitem__, py_assert. cbn [default from_option id].
  destruct (Z.leb_spec 0 start); [|lia]. destruct (Z.ltb_spec start stop); [|lia].
  destruct (Z.leb_spec stop (nbits self)); [|lia]. cbn [andb mbind result_bind].
  rewrite slice_value by lia. apply init_small; [lia|].
  apply Z.mod_pos_bound, pow2_pos. lia.
Qed.

(** X2: [self[start:stop]] is the field of [stop - start] bits that starts
    at bit [start]: its value is [(uint / 2^start) mod 2^(stop - start)].
    A missing bound stands for [0] or for [nbits]; bounds that are not
    [0 <= start < stop <= nbits] fail the assertion. *)
Theorem getitem_slice self start stop :
  0 < nbits self →
  let lo := default 0 start in
  let hi := default (nbits self) stop in
  (start ≠ None ∨ stop ≠ None → 0 <= lo → lo < hi → hi <= nbits self →
     __getitem__ self (ASlice start stop) =
       Ok (mkBits (hi - lo) ((_uint self / 2 ^ lo) mod 2 ^ (hi - lo)))) ∧
  (start ≠ None ∨ stop ≠ None → lo < 0 ∨ hi <= lo ∨ nbits self < hi →
     __getitem__ self (ASlice start stop) = Raise AssertionError).
Proof.
  intros Hn lo hi. split.
  - intros Hsome Hlo Hlh Hhi.
    pose proof (getitem_slice_value self lo hi Hlo Hlh Hhi) as H.
    destruct start, stop; try done; by destruct Hsome.
  - intros Hsome Hbad.
    assert (H : (0 <=? lo) && (lo <? hi) && (hi <=? nbits self) = false).
    { destruct (Z.leb_spec 0 lo), (Z.ltb_spec lo hi), (Z.leb_spec hi (nbits self));
        cbn; try done; lia. }
    unfold __getitem__, py_assert. subst lo hi.
    destruct start, stop; cbn [default from_option id] in *;
      try (by rewrite H); by destruct Hsome.
Qed.

Lemma getitem_slice_witness :
  __getitem__ (mkBits 8 0xB5) (ASlice (Some 2) None) = Ok (mkBits 6 0x2D) ∧
  __getitem__ (mkBits 8 0xB5) (ASlice None (Some 9)) = Raise AssertionError.
Proof.
  split.
  - apply (getitem_slice (mkBits 8 0xB5) (Some 2) None); cbn; (lia || by left).
  - apply (getitem_slice (mkBits 8 0xB5) None (Some 9)); cbn; (lia || by right).
Defined.

Lemma getitem_bit self i :
  0 <= i < nbits self →
  __getitem__ self (AInt i) = Ok (mkBits 1 (Z.b2z (Z.testbit (_uint self) i))).
Proof.
  unfold __getitem__, py_assert. intros Hi. destruct (Z.leb_spec 0 i); [|lia].
  destruct (Z.ltb_spec i (nbits self)); [|lia]. cbn [andb mbind result_bind].
  change (Z.shiftl 1 i) with (Z.shiftl (Z.shiftl 1 1 - 1) i).
  rewrite slice_value by lia. change (2 ^ 1) with 2.
  rewrite <- Z.testbit_spec' by lia. apply init_small; [lia|].
  destruct (Z.testbit _ _); cbn; lia.
Qed.

(** X3: [self[i]] is the one-bit value of bit [i], for [0 <= i < nbits];
    any other index fails the assertion. *)
Theorem getitem_index self i :
  (0 <= i < nbits self →
     __getitem__ self (AInt i) = Ok (mkBits 1 (Z.b2z (Z.testbit (_uint self) i)))) ∧
  (i < 0 ∨ nbits self <= i → __getitem__ self (AInt i) = Raise AssertionError).
Proof.
  split; [apply getitem_bit|].
  unfold __getitem__, py_assert. intros Hi.
  destruct (Z.leb_spec 0 i), (Z.ltb_spec i (nbits self)); cbn; try done; lia.
Qed.

Lemma getitem_index_witness :
  __getitem__ (mkBits 4 5) (AInt 2) = Ok (mkBits 1 1) ∧
  __getitem__ (mkBits 4 5) (AInt 4) = Raise AssertionError.
Proof.
  split.
  - apply (getitem_index (mkBits 4 5) 2). cbn. lia.
  - apply (getitem_index (mkBits 4 5) 4). cbn. lia.
Defined.

End bits_values.

(** ** Bits: writing slices, and the invariant *)

Section bits_splice.
Import Bits.
Local Open Scope Z_scope.

(** The bits of a value after [k] bits of [v] were written at [s]. *)
Lemma splice_testbit u v s k i :
  0 <= s → 0 <= k → 0 <= i →
  Z.testbit (Z.lor (Z.land u (Z.lnot (Z.shiftl (Z.shiftl 1 k - 1) s)))
                   (Z.shiftl (Z.land v (Z.shiftl 1 k - 1)) s)) i
  = if (s <=? i) && (i <? s + k) then Z.testbit v (i - s) else Z.testbit u i.
Proof.
  intros Hs Hk Hi. rewrite mask_ones by lia.
  rewrite Z.lor_spec, Z.land_spec, Z.lnot_spec, !Z.shiftl_spec, Z.land_spec by lia.
  destruct (Z.leb_spec s i); cbn [andb].
  - destruct (Z.ltb_spec i (s + k)).
    + rewrite Z.ones_spec_low by lia. cbn. by rewrite andb_false_r, andb_true_r.
    + rewrite Z.ones_spec_high by lia. cbn. by rewrite andb_true_r, andb_false_r, orb_false_r.
  - rewrite (Z.testbit_neg_r (Z.ones k)) by lia. cbn.
    by rewrite andb_true_r, andb_false_r, orb_false_r.
Qed.

Lemma write_slice_bounded self start stop value b :
  write_slice self (ASlice (Some start) (Some stop)) value = Ok b →
  0 <= start ∧ start < stop ∧ stop <= nbits self ∧
  b = mkBits (nbits self)
        (Z.lor (Z.land (_uint self)
                  (Z.lnot (Z.shiftl (Z.shiftl 1 (stop - start) - 1) start)))
               (Z.shiftl (Z.land (to_uint value) (Z.shiftl 1 (stop - start) - 1)) start)).
Proof.
  unfold write_slice, py_assert. cbn [default from_option id]. intros H.
  destruct ((0 <=? start) && (start <? stop) && (stop <=? nbits self)) eqn:Hrange;
    cbn in H; [|done].
  destruct ((_min self <=? to_uint value) && (to_uint value <=? _max self));
    cbn in H; [|done].
  injection H as <-.
  apply andb_prop in Hrange as [Hrange He]. apply andb_prop in Hrange as [Hs Hse].
  apply Z.leb_le in Hs, He. apply Z.ltb_lt in Hse. done.
Qed.

(** X4: after [self.write_slice( slice(start, stop), value )] the slice
    reads back as [value mod 2^(stop - start)] (a value wider than the
    slice is cut down to it), the width is the same, and every bit outside
    the slice is as it was. *)
Theorem write_slice_read_back self start stop value b :
  write_slice self (ASlice (Some start) (Some stop)) value = Ok b →
  nbits b = nbits self ∧
  __getitem__ b (ASlice (Some start) (Some stop)) =
    Ok (mkBits (stop - start) (to_uint value mod 2 ^ (stop - start))) ∧
  (∀ i, 0 <= i → i < start ∨ stop <= i →
     Z.testbit (_uint b) i = Z.testbit (_uint self) i).
Proof.
  intros (Hs & Hse & He & ->)%write_slice_bounded. cbn [nbits _uint].
  split; [done|]. split.
  - rewrite getitem_slice_value by (cbn; lia). cbn [nbits _uint]. do 2 f_equal.
    rewrite <- Z.shiftr_div_pow2, <- !Z.land_ones by lia.
    apply Z.bits_inj'. intros i Hi.
    rewrite !Z.land_spec, Z.shiftr_spec, splice_testbit by lia.
    destruct (Z.ltb_spec i (stop - start)).
    + destruct (Z.leb_spec start (i + start)); [|lia].
      destruct (Z.ltb_spec (i + start) (start + (stop - start))); [|lia].
      cbn. do 2 f_equal. lia.
    + rewrite Z.ones_spec_high by lia. by rewrite !andb_false_r.
  - intros i Hi Hout. rewrite splice_testbit by lia.
    destruct (Z.leb_spec start i), (Z.ltb_spec i (start + (stop - start)));
      cbn; try done; lia.
Qed.

Lemma write_slice_read_back_witness :
  nbits (mkBits 8 0xA3) = nbits (mkBits 8 0xAF) ∧
  __getitem__ (mkBits 8 0xA3) (ASlice (Some 2) (Some 4)) = Ok (mkBits 2 (12 mod 2 ^ (4 - 2))) ∧
  (∀ i, 0 <= i → i < 2 ∨ 4 <= i →
     Z.testbit (_uint (mkBits 8 0xA3)) i = Z.testbit (_uint (mkBits 8 0xAF)) i).
Proof.
  apply (write_slice_read_back (mkBits 8 0xAF) 2 4 (OInt 12) (mkBits 8 0xA3)).
  reflexivity.
Defined.

Lemma write_slice_nbits self a value b :
  write_slice self a value = Ok b → nbits b = nbits self.
Proof.
  unfold write_slice. intros H.
  destruct a as [[start|] [stop|]|i]; cbn [default from_option id] in H;
    repeat match type of H with
    | mbind _ (py_assert ?c) = _ =>
        destruct c; cbn [py_assert mbind result_bind] in H; [|discriminate H]
    end; by injection H as <-.
Qed.

(** X5: [write] and [write_slice] keep the width and the invariant
    [0 <= _uint <= 2^nbits - 1], with one exception: [write_slice] on the
    open slice [[:]] has to be given a value that is not negative. *)
Theorem writes_keep_invariant self a value b :
  valid self →
  write self value = Ok b ∨
  (write_slice self a value = Ok b ∧ (a = ASlice None None → 0 <= to_uint value)) →
  valid b ∧ nbits b = nbits self.
Proof.
  intros Hself [H|[H Hopen]].
  - split; [by eapply write_valid|].
    unfold write in H. destruct (py_assert _); cbn in H; [|done]. by injection H as <-.
  - split; [|by eapply write_slice_nbits].
    destruct a as [[start|] [stop|]|i];
      try (eapply write_slice_part_valid; [|exact H|exact Hself]; discriminate).
    specialize (Hopen eq_refl). unfold write_slice, py_assert, _max in H.
    destruct (Z.leb_spec (_min self) (to_uint value)); cbn in H; [|done].
    destruct (Z.leb_spec (to_uint value) (2 ^ nbits self - 1)); cbn in H; [|done].
    injection H as <-. destruct Hself as [Hpos _]. repeat split; cbn; lia.
Qed.

Lemma writes_keep_invariant_witness :
  valid (mkBits 4 15) ∧ nbits (mkBits 4 15) = nbits (mkBits 4 0).
Proof.
  apply (writes_keep_invariant (mkBits 4 0) (AInt 0) (OInt (-1)) (mkBits 4 15)).
  - repeat split; by vm_compute.
  - left. reflexivity.
Defined.

(** X6: whatever the indexing, arithmetic, shift, bitwise and extension
    operators return satisfies the invariant, whether or not the operands
    did. *)
Theorem operator_results_valid self other a w b :
  __getitem__ self a = Ok b ∨ __invert__ self = Ok b ∨
  __add__ self other = Ok b ∨ __sub__ self other = Ok b ∨ __mul__ self other = Ok b ∨
  __lshift__ self other = Ok b ∨ __rshift__ self other = Ok b ∨
  __and__ self other = Ok b ∨ __xor__ self other = Ok b ∨ __or__ self other = Ok b ∨
  _zext self w = Ok b ∨ _sext self w = Ok b →
  valid b.
Proof.
  intros [H|[H|[H|[H|[H|[H|[H|[H|[H|[H|[H|H]]]]]]]]]]];
    eauto using getitem_valid, invert_valid, add_valid, sub_valid, mul_valid,
      lshift_valid, rshift_valid, bitwise_valid, zext_valid, sext_valid.
Qed.

Lemma operator_results_valid_witness : valid (mkBits 4 0).
Proof.
  apply (operator_results_valid (mkBits 4 (-1)) (OInt 1) (AInt 0) 4 (mkBits 4 0)).
  do 2 right. left. reflexivity.
Defined.

End bits_splice.

(** ** Bits: complement, signed reading and extension *)

Section bits_signed.
Import Bits.
Local Open Scope Z_scope.

Lemma invert_value self :
  valid self → __invert__ self = Ok (mkBits (nbits self) (2 ^ nbits self - 1 - _uint self)).
Proof.
  intros [Hn Hu]. unfold __invert__. rewrite init_trunc by done. do 2 f_equal.
  unfold Z.lnot.
  replace (Z.pred (- _uint self))
    with (2 ^ nbits self - 1 - _uint self + (-1) * 2 ^ nbits self) by lia.
  rewrite Z_mod_plus_full. apply Z.mod_small. lia.
Qed.

(** X7: [~self] has the width of [self] and the value
    [2^nbits - 1 - uint], and inverting twice gives [self] back. *)
Theorem invert_complement self :
  valid self →
  __invert__ self = Ok (mkBits (nbits self) (2 ^ nbits self - 1 - _uint self)) ∧
  (inv ← __invert__ self; __invert__ inv) = Ok self.
Proof.
  intros Hself. pose proof Hself as [Hn Hu].
  rewrite (invert_value self Hself). split; [done|]. cbn [mbind result_bind].
  rewrite invert_value by (split; cbn; lia). cbn [nbits _uint].
  destruct self as [n u]. cbn. do 2 f_equal. lia.
Qed.

Lemma invert_complement_witness :
  __invert__ (mkBits 4 5) = Ok (mkBits 4 10) ∧
  (inv ← __invert__ (mkBits 4 5); __invert__ inv) = Ok (mkBits 4 5).
Proof. apply (invert_complement (mkBits 4 5)). repeat split; by vm_compute. Defined.

Lemma top_bit n u :
  0 < n → 0 <= u < 2 ^ n → Z.testbit u (n - 1) = negb (u <? 2 ^ (n - 1)).
Proof.
  intros Hn Hu.
  assert (Hpow : 2 ^ n = 2 * 2 ^ (n - 1)).
  { rewrite <- Z.pow_succ_r by lia. f_equal. lia. }
  pose proof (pow2_pos (n - 1) ltac:(lia)) as Hp.
  destruct (Z.ltb_spec u (2 ^ (n - 1))); cbn.
  - apply (high_bits_clear (n - 1)); lia.
  - apply Z.testbit_true; [lia|].
    rewrite <- (Z.div_unique u (2 ^ (n - 1)) 1 (u - 2 ^ (n - 1))) by lia. done.
Qed.

(** The signed reading of a value of [n] bits. *)
Lemma int_value self :
  valid self →
  int self = Ok (if _uint self <? 2 ^ (nbits self - 1) then _uint self
                 else _uint self - 2 ^ nbits self).
Proof.
  intros Hself. pose proof Hself as [Hn Hu]. unfold int.
  assert (Hpow : 2 ^ nbits self = 2 * 2 ^ (nbits self - 1)).
  { rewrite <- Z.pow_succ_r by lia. f_equal. lia. }
  pose proof (pow2_pos (nbits self - 1) ltac:(lia)) as Hp.
  rewrite getitem_bit by lia.
  cbn [mbind result_bind]. rewrite top_bit by lia. unfold __nonzero__. cbn [_uint].
  destruct (Z.ltb_spec (_uint self) (2 ^ (nbits self - 1))); cbn; [done|].
  rewrite invert_value by done. cbn [mbind result_bind].
  unfold __add__, coerce. cbn [nbits _uint].
  rewrite init_small by lia. cbn [mbind result_bind nbits _uint].
  rewrite Z.max_id, init_trunc by done. cbn [mbind result_bind _uint].
  rewrite Z.mod_small by lia. f_equal. lia.
Qed.

(** X8: [int()] reads the value as two's complement: [uint] when the top
    bit is clear and [uint - 2^nbits] when it is set, so it lies between
    [-2^(nbits-1)] and [2^(nbits-1) - 1]; a Bits of the same width built
    from it is the value one started from. *)
Theorem int_signed_reading self :
  valid self →
  ∃ s, int self = Ok s ∧
       s = (if _uint self <? 2 ^ (nbits self - 1) then _uint self
            else _uint self - 2 ^ nbits self) ∧
       - 2 ^ (nbits self - 1) <= s < 2 ^ (nbits self - 1) ∧
       __init__ (nbits self) s false = Ok self.
Proof.
  intros Hself. pose proof Hself as [Hn Hu]. eexists. split; [by apply int_value|].
  split; [done|].
  assert (Hpow : 2 ^ nbits self = 2 * 2 ^ (nbits self - 1)).
  { rewrite <- Z.pow_succ_r by lia. f_equal. lia. }
  pose proof (pow2_pos (nbits self - 1) ltac:(lia)) as Hp.
  destruct self as [n u]. cbn [nbits _uint] in *.
  destruct (Z.ltb_spec u (2 ^ (n - 1))).
  - split; [lia|]. apply init_small; lia.
  - split; [lia|]. rewrite init_checked by lia. do 2 f_equal.
    rewrite mod_negative by lia. lia.
Qed.

Lemma int_signed_reading_witness :
  ∃ s, int (mkBits 4 13) = Ok s ∧
       s = (if 13 <? 2 ^ (4 - 1) then 13 else 13 - 2 ^ 4) ∧
       - 2 ^ (4 - 1) <= s < 2 ^ (4 - 1) ∧
       __init__ 4 s false = Ok (mkBits 4 13).
Proof. apply (int_signed_reading (mkBits 4 13)). repeat split; by vm_compute. Defined.

Example int_of_13_on_4_bits : int (mkBits 4 13) = Ok (-3).
Proof. reflexivity. Qed.

(** X9: extension to a width that is not smaller keeps the value:
    [_zext] keeps the unsigned reading and [_sext] the signed one.
    [_zext] never cuts a value down: a width the value does not fit in
    fails the assertion. *)
Theorem extension_keeps_value self w :
  valid self →
  (nbits self <= w →
     _zext self w = Ok (mkBits w (_uint self)) ∧
     ∃ b, _sext self w = Ok b ∧ nbits b = w ∧ int b = int self) ∧
  (2 ^ w <= _uint self → _zext self w = Raise AssertionError).
Proof.
  intros Hself. pose proof Hself as [Hn Hu]. split.
  - intros Hw.
    assert (Hle : 2 ^ nbits self <= 2 ^ w) by (apply Z.pow_le_mono_r; lia).
    split; [unfold _zext; apply init_small; lia|].
    assert (Hpow : 2 ^ nbits self = 2 * 2 ^ (nbits self - 1)).
    { rewrite <- Z.pow_succ_r by lia. f_equal. lia. }
    assert (Hpoww : 2 ^ w = 2 * 2 ^ (w - 1)).
    { rewrite <- Z.pow_succ_r by lia. f_equal. lia. }
    assert (Hle' : 2 ^ (nbits self - 1) <= 2 ^ (w - 1)) by (apply Z.pow_le_mono_r; lia).
    pose proof (pow2_pos (nbits self - 1) ltac:(lia)) as Hp.
    unfold _sext. rewrite (int_value self Hself). cbn [mbind result_bind].
    destruct (Z.ltb_spec (_uint self) (2 ^ (nbits self - 1))).
    + rewrite init_small by lia. eexists. split; [done|]. split; [done|].
      rewrite int_value by (split; cbn; lia). cbn [nbits _uint].
      destruct (Z.ltb_spec (_uint self) (2 ^ (w - 1))); [done|lia].
    + rewrite init_checked by lia. eexists. split; [done|]. split; [done|].
      rewrite mod_negative by lia.
      rewrite int_value by (split; cbn; lia). cbn [nbits _uint].
      destruct (Z.ltb_spec (_uint self - 2 ^ nbits self + 2 ^ w) (2 ^ (w - 1)));
        [lia|]. f_equal. lia.
  - intros Hbig. unfold _zext. apply init_unchecked_raises. lia.
Qed.

Lemma extension_keeps_value_witness :
  (_zext (mkBits 4 13) 8 = Ok (mkBits 8 13) ∧
   ∃ b, _sext (mkBits 4 13) 8 = Ok b ∧ nbits b = 8 ∧ int b = int (mkBits 4 13)) ∧
  _zext (mkBits 4 13) 3 = Raise AssertionError.
Proof.
  split.
  - apply (extension_keeps_value (mkBits 4 13) 8); [repeat split; by vm_compute|].
    by vm_compute.
  - apply (extension_keeps_value (mkBits 4 13) 3); [repeat split; by vm_compute|].
    by vm_compute.
Defined.

Example sext_of_13_on_4_bits : _sext (mkBits 4 13) 8 = Ok (mkBits 8 253).
Proof. reflexivity. Qed.

End bits_signed.

(** ** Bits: arithmetic, shifts and bitwise operators *)

Section bits_operators.
Import Bits.
Local Open Scope Z_scope.

(** X10: addition of two Bits values does not depend on the order of the
    operands, and subtracting an operand that is not wider undoes the
    addition. *)
Theorem add_sub_inverse a b :
  valid a → valid b →
  __add__ a (OBits b) = __add__ b (OBits a) ∧
  (nbits b <= nbits a → (s ← __add__ a (OBits b); __sub__ s (OBits b)) = Ok a).
Proof.
  intros [Hna Hua] [Hnb Hub]. split.
  - unfold __add__. cbn. by rewrite Z.max_comm, Z.add_comm.
  - intros Hle. unfold __add__, __sub__. cbn [coerce mbind result_bind].
    rewrite init_trunc by lia. cbn [mbind result_bind nbits _uint].
    rewrite init_trunc by lia. rewrite !Z.max_l by lia.
    rewrite Zminus_mod_idemp_l, Z.add_simpl_r, Z.mod_small by lia.
    by destruct a.
Qed.

Lemma add_sub_inverse_witness :
  __add__ (mkBits 8 200) (OBits (mkBits 4 9)) = __add__ (mkBits 4 9) (OBits (mkBits 8 200)) ∧
  (s ← __add__ (mkBits 8 200) (OBits (mkBits 4 9)); __sub__ s (OBits (mkBits 4 9)))
  = Ok (mkBits 8 200).
Proof.
  destruct (add_sub_inverse (mkBits 8 200) (mkBits 4 9)) as [H1 H2];
    [repeat split; by vm_compute..|].
  split; [exact H1 | apply H2; by vm_compute].
Defined.

Lemma int_in_range k :
  - maxint - 1 <= k <= maxint → isinstance_int (OInt k) = true.
Proof.
  intros Hk. unfold isinstance_int. apply andb_true_iff. split; apply Z.leb_le; lia.
Qed.

Lemma shift_count_int k : - maxint - 1 <= k <= maxint → shift_count (OInt k) = Ok k.
Proof. intros Hk. unfold shift_count. by rewrite int_in_range. Qed.

Lemma shift_count_long other :
  isinstance_int other = false → (∀ b, other ≠ OBits b) →
  shift_count other = Raise (AttributeError "_uint").
Proof.
  intros Hint Hnb. unfold shift_count. rewrite Hint.
  destruct other as [b|n|n]; [by destruct (Hnb b)|done|done].
Qed.

(** X11: for a shift count [k] that is an [int]: a left shift by [k]
    multiplies by [2^k] and keeps the low [nbits] bits, and gives [0] once
    [k] reaches the width; a right shift divides by [2^k]; both keep the
    width, and a negative shift count raises [ValueError].  A count that
    is a [long] raises [AttributeError] in both: the branch for what is no
    [int] reads [other._uint]. *)
Theorem shift_values self k other :
  valid self →
  (- maxint - 1 <= k <= maxint →
     (0 <= k < nbits self →
        __lshift__ self (OInt k) =
          Ok (mkBits (nbits self) ((_uint self * 2 ^ k) mod 2 ^ nbits self))) ∧
     (nbits self <= k → __lshift__ self (OInt k) = Ok (mkBits (nbits self) 0)) ∧
     (0 <= k →
        __rshift__ self (OInt k) = Ok (mkBits (nbits self) (_uint self / 2 ^ k))) ∧
     (k < 0 → __lshift__ self (OInt k) = Raise ValueError ∧
              __rshift__ self (OInt k) = Raise ValueError)) ∧
  (isinstance_int other = false → (∀ b, other ≠ OBits b) →
     __lshift__ self other = Raise (AttributeError "_uint") ∧
     __rshift__ self other = Raise (AttributeError "_uint")).
Proof.
  intros [Hn Hu]. pose proof (pow2_pos (nbits self) ltac:(lia)) as Hp. split.
  - intros Hint.
    unfold __lshift__, __rshift__, operator_lshift, operator_rshift.
    rewrite (shift_count_int k Hint). cbn [mbind result_bind].
    repeat split.
    + intros Hk. destruct (Z.leb_spec (nbits self) k); [lia|].
      destruct (Z.ltb_spec k 0); [lia|]. cbn [mbind result_bind].
      rewrite init_trunc, Z.shiftl_mul_pow2 by lia. done.
    + intros Hk. destruct (Z.leb_spec (nbits self) k); [|lia]. apply init_small; lia.
    + intros Hk. destruct (Z.ltb_spec k 0); [lia|]. cbn [mbind result_bind].
      rewrite Z.shiftr_div_pow2 by lia. apply init_small; [lia|].
      pose proof (pow2_pos k Hk).
      split; [apply Z.div_pos; lia|].
      apply Z.div_lt_upper_bound; [lia|]. nia.
    + destruct (Z.leb_spec (nbits self) k); [lia|].
      by destruct (Z.ltb_spec k 0); [|lia].
    + by destruct (Z.ltb_spec k 0); [|lia].
  - intros Hlong Hnb. unfold __lshift__, __rshift__.
    by rewrite (shift_count_long other Hlong Hnb).
Qed.

Lemma shift_values_witness :
  __lshift__ (mkBits 4 11) (OInt 2) = Ok (mkBits 4 12) ∧
  __lshift__ (mkBits 4 11) (OInt 4) = Ok (mkBits 4 0) ∧
  __rshift__ (mkBits 4 11) (OInt 2) = Ok (mkBits 4 2) ∧
  __lshift__ (mkBits 4 11) (OInt (-1)) = Raise ValueError ∧
  __rshift__ (mkBits 4 11) (OInt (-1)) = Raise ValueError ∧
  __lshift__ (mkBits 4 11) (OLong 2) = Raise (AttributeError "_uint") ∧
  __rshift__ (mkBits 4 11) (OInt (2 ^ 64)) = Raise (AttributeError "_uint").
Proof.
  assert (Hv : valid (mkBits 4 11)) by (repeat split; by vm_compute).
  assert (Hr : ∀ k, -1 <= k <= 4 → - maxint - 1 <= k <= maxint)
    by (unfold maxint; lia).
  split; [apply (shift_values (mkBits 4 11) 2 (OLong 2) Hv); [apply Hr|cbn]; lia|].
  split; [apply (shift_values (mkBits 4 11) 4 (OLong 2) Hv); [apply Hr|cbn]; lia|].
  split; [apply (shift_values (mkBits 4 11) 2 (OLong 2) Hv); [apply Hr|cbn]; lia|].
  split; [apply (shift_values (mkBits 4 11) (-1) (OLong 2) Hv); [apply Hr|]; lia|].
  split; [apply (shift_values (mkBits 4 11) (-1) (OLong 2) Hv); [apply Hr|]; lia|].
  split; [by apply (shift_values (mkBits 4 11) 0 (OLong 2) Hv)|].
  by apply (shift_values (mkBits 4 11) 0 (OInt (2 ^ 64)) Hv).
Defined.

Lemma bitwise_op_land : bitwise_op Z.land.
Proof.
  split.
  - intros x y i _ Hx _. by rewrite Z.land_spec, Hx.
  - intros x y Hx _. apply Z.land_nonneg. by left.
Qed.

Lemma bitwise_op_lor : bitwise_op Z.lor.
Proof.
  split.
  - intros x y i _ Hx Hy. by rewrite Z.lor_spec, Hx, Hy.
  - intros x y Hx Hy. by apply Z.lor_nonneg.
Qed.

Lemma bitwise_op_lxor : bitwise_op Z.lxor.
Proof.
  split.
  - intros x y i _ Hx Hy. by rewrite Z.lxor_spec, Hx, Hy.
  - intros x y Hx Hy. by apply Z.lxor_nonneg.
Qed.

Lemma bitwise_value op a b :
  bitwise_op op → valid a → valid b →
  bitwise op a (OBits b) =
    Ok (mkBits (Z.max (nbits a) (nbits b)) (op (_uint a) (_uint b))).
Proof.
  intros [Hbits Hpos] [Hna Hua] [Hnb Hub].
  unfold bitwise, __ge__, py_assert. cbn [isinstance_int mbind result_bind].
  change (0 <=? 0) with true. cbn [mbind result_bind].
  destruct (Z.leb_spec 0 (_uint b)); [|lia]. cbn [mbind result_bind].
  set (w := Z.max (nbits a) (nbits b)).
  assert (Ha : 2 ^ nbits a <= 2 ^ w) by (apply Z.pow_le_mono_r; lia).
  assert (Hb : 2 ^ nbits b <= 2 ^ w) by (apply Z.pow_le_mono_r; lia).
  apply init_small; [lia|]. split; [apply Hpos; lia|].
  apply fits_of_high_bits; [lia | apply Hpos; lia |].
  intros i Hi. apply Hbits; [lia | |]; apply (high_bits_clear w); lia.
Qed.

(** X12: [&], [|] and [^] on two Bits values never fail; the result has
    the width [max] of the two widths and the value of the operator on
    the two unsigned values.  An [int] operand is first made a Bits of
    the width of [self], so a negative one within [-2^nbits] is taken in
    two's complement and not refused.  A [long] operand is not: a
    negative one fails the assertion and any other one raises
    [AttributeError], since [other.nbits] is read off it. *)
Theorem bitwise_values a b k other :
  valid a → valid b →
  let w := Z.max (nbits a) (nbits b) in
  __and__ a (OBits b) = Ok (mkBits w (Z.land (_uint a) (_uint b))) ∧
  __or__ a (OBits b) = Ok (mkBits w (Z.lor (_uint a) (_uint b))) ∧
  __xor__ a (OBits b) = Ok (mkBits w (Z.lxor (_uint a) (_uint b))) ∧
  (- maxint - 1 <= k <= maxint → - 2 ^ nbits a <= k <= 2 ^ nbits a - 1 →
     __and__ a (OInt k) = Ok (mkBits (nbits a) (Z.land (_uint a) (k mod 2 ^ nbits a)))) ∧
  (isinstance_int other = false → (∀ b, other ≠ OBits b) →
     Forall (λ op : Bits → operand → result Bits,
               op a other = if 0 <=? to_uint other then Raise (AttributeError "nbits")
                            else Raise AssertionError)
            [__and__; __or__; __xor__]).
Proof.
  intros Ha Hb w. unfold __and__, __or__, __xor__.
  rewrite !bitwise_value by auto using bitwise_op_land, bitwise_op_lor, bitwise_op_lxor.
  repeat split.
  - intros Hint Hk. pose proof Ha as [Hna Hua].
    pose proof (bitwise_value Z.land a (mkBits (nbits a) (k mod 2 ^ nbits a))
                  bitwise_op_land Ha) as H.
    unfold bitwise in *. rewrite (int_in_range k Hint).
    cbn [isinstance_int to_uint mbind result_bind] in *.
    rewrite init_checked by lia. cbn [mbind result_bind nbits _uint] in *.
    rewrite Z.max_id in H |- *. apply H.
    pose proof (Z.mod_pos_bound k (2 ^ nbits a) (pow2_pos (nbits a) ltac:(lia))).
    split; cbn; lia.
  - intros Hlong Hnb.
    assert (Hop : ∀ op, bitwise op a other =
                          if 0 <=? to_uint other then Raise (AttributeError "nbits")
                          else Raise AssertionError).
    { intros op. unfold bitwise. rewrite Hlong. cbn [mbind result_bind].
      destruct other as [o|n|n]; [by destruct (Hnb o)|..];
        cbn [to_uint mbind result_bind]; unfold py_assert; by destruct (0 <=? n). }
    repeat constructor; apply Hop.
Qed.

Lemma bitwise_values_witness :
  __and__ (mkBits 4 12) (OBits (mkBits 8 0xA5)) = Ok (mkBits 8 4) ∧
  __or__ (mkBits 4 12) (OBits (mkBits 8 0xA5)) = Ok (mkBits 8 0xAD) ∧
  __xor__ (mkBits 4 12) (OBits (mkBits 8 0xA5)) = Ok (mkBits 8 0xA9) ∧
  __and__ (mkBits 4 12) (OInt (-1)) = Ok (mkBits 4 (Z.land 12 ((-1) mod 2 ^ 4))) ∧
  __and__ (mkBits 4 12) (OLong 5) = Raise (AttributeError "nbits").
Proof.
  destruct (bitwise_values (mkBits 4 12) (mkBits 8 0xA5) (-1) (OLong 5))
    as (H1 & H2 & H3 & H4 & H5); [repeat split; by vm_compute..|].
  split; [exact H1|]. split; [exact H2|]. split; [exact H3|].
  split; [apply H4; split; by vm_compute|].
  apply (proj1 (Forall_cons_1 _ _ _ (H5 eq_refl ltac:(done)))).
Defined.

Example and_with_minus_one : __and__ (mkBits 4 12) (OInt (-1)) = Ok (mkBits 4 12).
Proof. reflexivity. Qed.

(** A [long] operand is no [int]: [Bits(4,3) * 2L] and
    [Bits(64,5) & (2**64 - 1)] raise where [Bits(4,3) * 2] returns. *)
Example long_operands :
  __mul__ (mkBits 4 3) (OInt 2) = Ok (mkBits 8 6) ∧
  __mul__ (mkBits 4 3) (OLong 2) = Raise (AttributeError "nbits") ∧
  __and__ (mkBits 64 5) (OInt (2 ^ 64 - 1)) = Raise (AttributeError "nbits") ∧
  __and__ (mkBits 4 5) (OLong (-1)) = Raise AssertionError.
Proof. repeat split. Qed.

(** X13: [bit_length()] of a value never exceeds its width: the value is
    below [2^bit_length], and when it is not [0] it is at least
    [2^(bit_length - 1)]. *)
Theorem bit_length_bound self :
  valid self →
  0 <= bit_length self <= nbits self ∧
  _uint self < 2 ^ bit_length self ∧
  (_uint self ≠ 0 → 2 ^ (bit_length self - 1) <= _uint self).
Proof.
  intros [Hn Hu]. unfold bit_length, int_bit_length.
  destruct (Z.eqb_spec (_uint self) 0) as [->|Hne].
  - split; [lia|]. split; [by vm_compute|done].
  - rewrite Z.abs_eq by lia.
    pose proof (Z.log2_spec (_uint self) ltac:(lia)) as [Hlo Hhi].
    pose proof (Z.log2_nonneg (_uint self)).
    assert (Z.log2 (_uint self) < nbits self) by (apply Z.log2_lt_pow2; lia).
    replace (Z.log2 (_uint self) + 1 - 1) with (Z.log2 (_uint self)) by lia.
    replace (Z.log2 (_uint self) + 1) with (Z.succ (Z.log2 (_uint self))) by lia.
    repeat split; lia.
Qed.

Lemma bit_length_bound_witness :
  0 <= bit_length (mkBits 8 5) <= nbits (mkBits 8 5) ∧
  _uint (mkBits 8 5) < 2 ^ bit_length (mkBits 8 5) ∧
  (_uint (mkBits 8 5) ≠ 0 → 2 ^ (bit_length (mkBits 8 5) - 1) <= _uint (mkBits 8 5)).
Proof. apply (bit_length_bound (mkBits 8 5)). repeat split; by vm_compute. Defined.

Lemma compare_raises op self other :
  (∃ b, other = OBits b ∧ nbits self ≠ nbits b) ∨ to_uint other < 0 →
  compare op self other = Raise AssertionError.
Proof.
  unfold compare, py_assert. intros [(b & -> & Hne)|Hneg].
  - by destruct (Z.eqb_spec (nbits self) (nbits b)).
  - destruct other as [b|k|k]; cbn in *.
    + destruct (nbits self =? nbits b); cbn; [|done].
      by destruct (Z.leb_spec 0 (_uint b)); [lia|].
    + by destruct (Z.leb_spec 0 k); [lia|].
    + by destruct (Z.leb_spec 0 k); [lia|].
Qed.

Lemma compare_value op self other :
  (∀ b, other = OBits b → nbits self = nbits b) → 0 <= to_uint other →
  compare op self other = Ok (op (_uint self) (to_uint other)).
Proof.
  unfold compare, py_assert. intros Hw Hpos. destruct other as [b|k|k]; cbn in *.
  - rewrite (Hw b eq_refl), Z.eqb_refl. cbn.
    by destruct (Z.leb_spec 0 (_uint b)); [|lia].
  - by destruct (Z.leb_spec 0 k); [|lia].
  - by destruct (Z.leb_spec 0 k); [|lia].
Qed.

Lemma ge_compare self other : __ge__ self other = compare Z.geb self other.
Proof.
  unfold __ge__, compare. destruct other as [b|k|k]; cbn;
    repeat (destruct (py_assert _); cbn; [|done]); by rewrite Z.geb_leb.
Qed.

(** X14: the six comparisons fail their assertion on a Bits operand of
    another width and on a negative operand, whatever the operator;
    otherwise they compare the two unsigned values. *)
Theorem comparison_guards self other :
  ((∃ b, other = OBits b ∧ nbits self ≠ nbits b) ∨ to_uint other < 0 →
     Forall (λ cmp, cmp self other = Raise AssertionError)
            [__eq__; __ne__; __lt__; __le__; __gt__; __ge__]) ∧
  ((∀ b, other = OBits b → nbits self = nbits b) → 0 <= to_uint other →
     __eq__ self other = Ok (_uint self =? to_uint other) ∧
     __ne__ self other = Ok (negb (_uint self =? to_uint other)) ∧
     __lt__ self other = Ok (_uint self <? to_uint other) ∧
     __le__ self other = Ok (_uint self <=? to_uint other) ∧
     __gt__ self other = Ok (to_uint other <? _uint self) ∧
     __ge__ self other = Ok (to_uint other <=? _uint self)).
Proof.
  split.
  - intros Hbad. repeat constructor; rewrite ?ge_compare; by apply compare_raises.
  - intros Hw Hpos. rewrite ge_compare. unfold __eq__, __ne__, __lt__, __le__, __gt__.
    rewrite !compare_value by done. by rewrite Z.gtb_ltb, Z.geb_leb.
Qed.

Lemma comparison_guards_witness :
  Forall (λ cmp, cmp (mkBits 4 3) (OInt (-1)) = Raise AssertionError)
         [__eq__; __ne__; __lt__; __le__; __gt__; __ge__] ∧
  __eq__ (mkBits 4 3) (OBits (mkBits 4 5)) = Ok (3 =? 5) ∧
  __ne__ (mkBits 4 3) (OBits (mkBits 4 5)) = Ok (negb (3 =? 5)) ∧
  __lt__ (mkBits 4 3) (OBits (mkBits 4 5)) = Ok (3 <? 5) ∧
  __le__ (mkBits 4 3) (OBits (mkBits 4 5)) = Ok (3 <=? 5) ∧
  __gt__ (mkBits 4 3) (OBits (mkBits 4 5)) = Ok (5 <? 3) ∧
  __ge__ (mkBits 4 3) (OBits (mkBits 4 5)) = Ok (5 <=? 3).
Proof.
  split.
  - apply (comparison_guards (mkBits 4 3) (OInt (-1))). right. by vm_compute.
  - apply (comparison_guards (mkBits 4 3) (OBits (mkBits 4 5))).
    + by intros b [= <-].
    + by vm_compute.
Defined.

End bits_operators.

(** ** ThreeExprLoops: the shape of the result *)

Section three_expr_loops_shape.
Import ThreeExprLoops.

Lemma visit_If_eq' test body orelse :
  visit (If test body orelse) =
    (body' ← visit_items body; orelse' ← visit_items orelse; Ok (If test body' orelse')).
Proof. reflexivity. Qed.

Lemma canonical_items l :
  Forall (λ s, ∀ s', visit s = Ok s' → canonical s' = true) l →
  ∀ l', visit_items l = Ok l' → forallb canonical l' = true.
Proof.
  induction 1 as [|s l Hs _ IH]; intros l' H; cbn in H.
  - by injection H as <-.
  - destruct (visit s) as [s'|]; cbn [mbind result_bind] in H; [|done].
    destruct (visit_items l) as [l0|]; cbn [mbind result_bind] in H; [|done].
    injection H as <-. cbn. by rewrite (Hs s'), (IH l0).
Qed.

Lemma rewrite_For_Slice target iter body orelse s' :
  rewrite_For target iter body orelse = Ok s' →
  ∃ start stop step,
    s' = For target (Slice (Some start) (Some stop) (Some step)) body orelse.
Proof.
  unfold rewrite_For. destruct iter as [| | | | | |[[]|] args| | | |]; try done.
  destruct (py_assert _); cbn [mbind result_bind]; [|done].
  destruct (bounds args) as [[[start stop] step]|]; cbn [mbind result_bind]; [|done].
  intros [= <-]. eauto.
Qed.

(** X15: in every tree the pass returns, each [for] loop, nested ones
    included, iterates over a slice with its three bounds; so the
    assertion of the classifier on the iterable of a loop holds on it. *)
Theorem three_expr_loops_canonical s s' :
  visit s = Ok s' →
  canonical s' = true ∧
  ∀ target iter body orelse,
    s' = For target iter body orelse → GetRegsIntsParamsTempsArrays.is_Slice iter = true.
Proof.
  intros H.
  assert (Hc : canonical s' = true).
  { revert s' H.
    induction s as [targets value | target op value | target iter body orelse IHb IHo
                   | test body orelse IHb IHo | value | ] using stmt_ind';
      intros s' H; try (by injection H as <-).
    - rewrite visit_For_eq in H.
      destruct (visit_items body) as [body'|] eqn:Hb; cbn [mbind result_bind] in H; [|done].
      destruct (visit_items orelse) as [orelse'|] eqn:Ho; cbn [mbind result_bind] in H; [|done].
      apply rewrite_For_Slice in H as (start & stop & step & ->). cbn.
      by rewrite (canonical_items _ IHb _ Hb), (canonical_items _ IHo _ Ho).
    - rewrite visit_If_eq' in H.
      destruct (visit_items body) as [body'|] eqn:Hb; cbn [mbind result_bind] in H; [|done].
      destruct (visit_items orelse) as [orelse'|] eqn:Ho; cbn [mbind result_bind] in H; [|done].
      injection H as <-. cbn.
      by rewrite (canonical_items _ IHb _ Hb), (canonical_items _ IHo _ Ho). }
  split; [done|]. intros target iter body orelse ->. cbn in Hc.
  by destruct iter as [| | | |?|[?|] [?|] [?|]| | | | |].
Qed.

Lemma three_expr_loops_canonical_witness :
  canonical (For (Name "i" Store None)
               (Slice (Some (Num 0)) (Some (Name "n" Load None)) (Some (Num 1)))
               [If (Name "c" Load None)
                   [For (Name "j" Store None)
                        (Slice (Some (Num 2)) (Some (Num 8)) (Some (Num 1))) [Pass] []] []] [])
  = true ∧
  ∀ target iter body orelse,
    For (Name "i" Store None)
        (Slice (Some (Num 0)) (Some (Name "n" Load None)) (Some (Num 1)))
        [If (Name "c" Load None)
            [For (Name "j" Store None)
                 (Slice (Some (Num 2)) (Some (Num 8)) (Some (Num 1))) [Pass] []] []] []
    = For target iter body orelse →
    GetRegsIntsParamsTempsArrays.is_Slice iter = true.
Proof.
  apply (three_expr_loops_canonical
           (For (Name "i" Store None)
                (Call (Some (Name "range" Load None)) [Name "n" Load None])
                [If (Name "c" Load None)
                    [For (Name "j" Store None)
                         (Call (Some (Name "xrange" Load None)) [Num 2; Num 8]) [Pass] []] []] [])).
  reflexivity.
Defined.

End three_expr_loops_shape.

(** ** FlattenSubmodAttrs and FlattenPortBundles *)

Section flatten_more.

Lemma forallb_cons_true {A} (f : A → bool) x l :
  forallb f (x :: l) = true → f x = true ∧ forallb f l = true.
Proof. cbn. by intros [? ?]%andb_prop. Qed.

Lemma no_submodule_field o :
  opt_all (λ e, no_submodule e = true → FlattenSubmodAttrs.visit e None = Ok (Some e, None)) o →
  all_field no_submodule o = true →
  FlattenSubmodAttrs.visit_field o None = Ok (o, None).
Proof. destruct o as [e|]; cbn; auto. Qed.

Lemma no_submodule_items l :
  Forall (λ e, no_submodule e = true → FlattenSubmodAttrs.visit e None = Ok (Some e, None)) l →
  forallb no_submodule l = true →
  FlattenSubmodAttrs.visit_items l None = Ok (l, None).
Proof.
  induction 1 as [|e l He _ IH]; intros Hall; [done|].
  apply forallb_cons_true in Hall as [H1 H2].
  cbn. rewrite (He H1). cbn [mbind result_bind].
  change (('(l', s2) ← FlattenSubmodAttrs.visit_items l None; Ok (e :: l', s2))
          = Ok (e :: l, None)).
  by rewrite (IH H2).
Qed.

(** X16: a tree in which no attribute access is annotated with a
    sub-component comes back as it is, and [self.submodule] stays
    [None]. *)
Theorem flatten_submodule_identity e :
  no_submodule e = true → FlattenSubmodAttrs.visit e None = Ok (Some e, None).
Proof.
  induction e as
    [n | id ctx ob | value attr ctx ob IHv | value slice ctx ob IHv IHs | value IHv
    | lower upper step IHl IHu IHst | func args IHf IHa | lhs op rhs IHl IHr
    | op values IHvs | lhs ops comparators IHl IHc | elts ctx ob IHe] using expr_ind';
    intros H; cbn [no_submodule] in H; try done.
  - apply andb_prop in H as [Hob Hv]. destruct ob as [o|]; [|done].
    apply negb_true_iff in Hob.
    rewrite flatten_Attribute_eq, (no_submodule_field _ IHv Hv). cbn [mbind result_bind].
    unfold FlattenSubmodAttrs.flatten_Attribute. cbn. by rewrite Hob.
  - apply andb_prop in H as [Hv Hs].
    change (FlattenSubmodAttrs.visit (Subscript value slice ctx ob) None)
      with ('(value', s1) ← FlattenSubmodAttrs.visit_field value None;
            '(slice', s2) ← FlattenSubmodAttrs.visit_field slice s1;
            Ok (Some (Subscript value' slice' ctx ob), s2)).
    rewrite (no_submodule_field _ IHv Hv). cbn [mbind result_bind].
    by rewrite (no_submodule_field _ IHs Hs).
  - change (FlattenSubmodAttrs.visit (Index value) None)
      with ('(value', s1) ← FlattenSubmodAttrs.visit_field value None;
            Ok (Some (Index value'), s1)).
    by rewrite (no_submodule_field _ IHv H).
  - apply andb_prop in H as [H Hst]. apply andb_prop in H as [Hl Hu].
    change (FlattenSubmodAttrs.visit (Slice lower upper step) None)
      with ('(lower', s1) ← FlattenSubmodAttrs.visit_field lower None;
            '(upper', s2) ← FlattenSubmodAttrs.visit_field upper s1;
            '(step', s3) ← FlattenSubmodAttrs.visit_field step s2;
            Ok (Some (Slice lower' upper' step'), s3)).
    rewrite (no_submodule_field _ IHl Hl). cbn [mbind result_bind].
    rewrite (no_submodule_field _ IHu Hu). cbn [mbind result_bind].
    by rewrite (no_submodule_field _ IHst Hst).
  - apply andb_prop in H as [Hf Ha].
    change (FlattenSubmodAttrs.visit (Call func args) None)
      with ('(func', s1) ← FlattenSubmodAttrs.visit_field func None;
            '(args', s2) ← FlattenSubmodAttrs.visit_items args s1;
            Ok (Some (Call func' args'), s2)).
    rewrite (no_submodule_field _ IHf Hf). cbn [mbind result_bind].
    by rewrite (no_submodule_items _ IHa Ha).
  - apply andb_prop in H as [Hl Hr].
    change (FlattenSubmodAttrs.visit (BinOp lhs op rhs) None)
      with ('(lhs', s1) ← FlattenSubmodAttrs.visit_field lhs None;
            '(rhs', s2) ← FlattenSubmodAttrs.visit_field rhs s1;
            Ok (Some (BinOp lhs' op rhs'), s2)).
    rewrite (no_submodule_field _ IHl Hl). cbn [mbind result_bind].
    by rewrite (no_submodule_field _ IHr Hr).
  - change (FlattenSubmodAttrs.visit (BoolOp op values) None)
      with ('(values', s1) ← FlattenSubmodAttrs.visit_items values None;
            Ok (Some (BoolOp op values'), s1)).
    by rewrite (no_submodule_items _ IHvs H).
  - apply andb_prop in H as [Hl Hc].
    change (FlattenSubmodAttrs.visit (Compare lhs ops comparators) None)
      with ('(lhs', s1) ← FlattenSubmodAttrs.visit_field lhs None;
            '(comparators', s2) ← FlattenSubmodAttrs.visit_items comparators s1;
            Ok (Some (Compare lhs' ops comparators'), s2)).
    rewrite (no_submodule_field _ IHl Hl). cbn [mbind result_bind].
    by rewrite (no_submodule_items _ IHc Hc).
  - change (FlattenSubmodAttrs.visit (List_ elts ctx ob) None)
      with ('(elts', s1) ← FlattenSubmodAttrs.visit_items elts None;
            Ok (Some (List_ elts' ctx ob), s1)).
    by rewrite (no_submodule_items _ IHe H).
Qed.

Lemma flatten_submodule_identity_witness :
  FlattenSubmodAttrs.visit Design.s_a_bound None = Ok (Some Design.s_a_bound, None).
Proof. apply (flatten_submodule_identity Design.s_a_bound). reflexivity. Defined.

Lemma flatten_bundle_eq value attr ctx ob pb :
  FlattenPortBundles.visit (Attribute value attr ctx ob) pb =
    ('(value', s1) ← FlattenPortBundles.visit_field value pb;
     FlattenPortBundles.flatten_Attribute value' attr ctx ob s1).
Proof. reflexivity. Qed.

(** X17: in [recv.pb.field], where the object of [recv.pb] is a port
    bundle and no bundle name is pending, the node of [recv.pb] is removed
    and the reference becomes the single name [pb_field] with the object
    of the reference.  The name is made from the attribute [pb] of the
    syntax.  When the object of the whole reference is a bundle too (a
    bundle inside a bundle), the pass raises [AttributeError]: it reads
    [attr] off the name node it has just made. *)
Theorem flatten_port_bundle recv pb field c1 c2 pb_obj field_obj pb0 recv' s1 :
  FlattenPortBundles.visit_field recv pb0 = Ok (recv', s1) →
  FlattenPortBundles.truthy s1 = None →
  isinstance pb_obj PortBundle = true → pb ≠ "" →
  FlattenPortBundles.visit (Attribute recv pb c1 (Some pb_obj)) pb0 = Ok (None, Some pb) ∧
  FlattenPortBundles.visit
    (Attribute (Some (Attribute recv pb c1 (Some pb_obj))) field c2 (Some field_obj)) pb0
  = if isinstance field_obj PortBundle then Raise (AttributeError "attr")
    else Ok (Some (Name (pb ++ "_" ++ field) c2 (Some field_obj)), None).
Proof.
  intros Hrecv Hs1 Hpb Hne.
  assert (Hinner : FlattenPortBundles.visit (Attribute recv pb c1 (Some pb_obj)) pb0
                   = Ok (None, Some pb)).
  { rewrite flatten_bundle_eq, Hrecv. cbn [mbind result_bind].
    unfold FlattenPortBundles.flatten_Attribute. rewrite Hs1. cbn. by rewrite Hpb. }
  split; [done|].
  rewrite flatten_bundle_eq. unfold FlattenPortBundles.visit_field at 1. rewrite Hinner.
  cbn [mbind result_bind].
  unfold FlattenPortBundles.flatten_Attribute, FlattenPortBundles.truthy.
  apply String.eqb_neq in Hne. rewrite Hne. cbn [get_object mbind result_bind].
  by destruct (isinstance field_obj PortBundle).
Qed.

Lemma flatten_port_bundle_witness :
  FlattenPortBundles.visit
    (Attribute (Some Design.s_bound) "io" Load (Some Design.io)) None
  = Ok (None, Some "io") ∧
  FlattenPortBundles.visit
    (Attribute (Some (Attribute (Some Design.s_bound) "io" Load (Some Design.io)))
               "val" Load (Some Design.port)) None
  = Ok (Some (Name "io_val" Load (Some Design.port)), None).
Proof.
  apply (flatten_port_bundle (Some Design.s_bound) "io" "val" Load Load
           Design.io Design.port None (Some Design.s_bound) None);
    [reflexivity | reflexivity | reflexivity | discriminate].
Defined.

Example bundle_in_a_bundle_raises :
  FlattenPortBundles.visit
    (Attribute (Some (Attribute (Some Design.s_bound) "io" Load (Some Design.io)))
               "inner" Load (Some Design.io)) None
  = Raise (AttributeError "attr").
Proof. reflexivity. Qed.

End flatten_more.

(** ** FlattenListAttrs *)

Section flatten_list_attrs.
Import FlattenListAttrs.

Lemma mapM_Forall2 {A B} (f : A → result B) l l' :
  mapM f l = Ok l' → Forall2 (λ x y, f x = Ok y) l l'.
Proof.
  revert l'. induction l as [|x l IH]; intros l' H; cbn in H.
  - injection H as <-. constructor.
  - destruct (f x) as [y|] eqn:Hx; cbn [mbind result_bind] in H; [|done].
    destruct (mapM f l) as [ys|]; cbn [mbind result_bind] in H; [|done].
    injection H as <-. constructor; auto.
Qed.

Lemma visit_list_Attribute_plain value attr ctx ob st :
  (∀ e, value = Some e → is_Subscript e = false) →
  visit (Attribute value attr ctx ob) st =
    ('(attr', ob') ← rename_Attribute attr ob st; Ok (Attribute value attr' ctx ob', st)).
Proof.
  intros Hv. destruct value as [e|]; [|done].
  specialize (Hv e eq_refl). by destruct e.
Qed.

Lemma visit_list_Attribute_Subscript sv ss sctx sob attr ctx ob st :
  visit (Attribute (Some (Subscript sv ss sctx sob)) attr ctx ob) st =
    ('(attr', ob') ← rename_Attribute attr ob st;
     '(v', _) ← visit (Subscript sv ss sctx sob) (Some attr');
     Ok (v', None)).
Proof. reflexivity. Qed.

Lemma visit_list_Subscript value slice ctx ob st :
  visit (Subscript value slice ctx ob) st =
    (ob' ← project_Subscript ob st;
     '(value', s1) ← visit_field value st;
     '(slice', s2) ← visit_field slice s1;
     Ok (Subscript value' slice' ctx ob', s2)).
Proof. reflexivity. Qed.

Lemma visit_list_field_Some e st :
  visit_field (Some e) st = ('(e', st') ← visit e st; Ok (Some e', st')).
Proof. reflexivity. Qed.

Lemma truthy_nonempty a : a ≠ "" → truthy (Some a) = Some a.
Proof. intros Hne. unfold truthy. apply String.eqb_neq in Hne. by rewrite Hne. Qed.

Lemma untouched_field o :
  opt_all untouched o → all_field plain o = true → ∀ st, visit_field o st = Ok (o, st).
Proof.
  destruct o as [e|]; cbn [opt_all all_field]; [|done].
  intros He Hp st. rewrite visit_list_field_Some, (He Hp). reflexivity.
Qed.

Lemma untouched_items l :
  Forall untouched l → forallb plain l = true → ∀ st, visit_items l st = Ok (l, st).
Proof.
  induction 1 as [|e l He _ IH]; intros Hall st; [done|].
  apply forallb_cons_true in Hall as [H1 H2].
  change (visit_items (e :: l) st)
    with ('(e', st1) ← visit e st; '(l', st2) ← visit_items l st1; Ok (e' :: l', st2)).
  rewrite (He H1). cbn [mbind result_bind]. by rewrite (IH H2).
Qed.

Lemma visit_plain e : untouched e.
Proof.
  induction e as
    [n | id ctx ob | value attr ctx ob IHv | value slice ctx ob IHv IHs | value IHv
    | lower upper step IHl IHu IHst | func args IHf IHa | lhs op rhs IHl IHr
    | op values IHvs | lhs ops comparators IHl IHc | elts ctx ob IHe] using expr_ind';
    intros H st; cbn [plain] in H; try done.
  - change (visit (Index value) st)
      with ('(value', s1) ← visit_field value st; Ok (Index value', s1)).
    by rewrite (untouched_field _ IHv H).
  - apply andb_prop in H as [H Hst]. apply andb_prop in H as [Hl Hu].
    change (visit (Slice lower upper step) st)
      with ('(lower', s1) ← visit_field lower st;
            '(upper', s2) ← visit_field upper s1;
            '(step', s3) ← visit_field step s2;
            Ok (Slice lower' upper' step', s3)).
    rewrite (untouched_field _ IHl Hl). cbn [mbind result_bind].
    rewrite (untouched_field _ IHu Hu). cbn [mbind result_bind].
    by rewrite (untouched_field _ IHst Hst).
  - apply andb_prop in H as [Hf Ha].
    change (visit (Call func args) st)
      with ('(func', s1) ← visit_field func st;
            '(args', s2) ← visit_items args s1;
            Ok (Call func' args', s2)).
    rewrite (untouched_field _ IHf Hf). cbn [mbind result_bind].
    by rewrite (untouched_items _ IHa Ha).
  - apply andb_prop in H as [Hl Hr].
    change (visit (BinOp lhs op rhs) st)
      with ('(lhs', s1) ← visit_field lhs st;
            '(rhs', s2) ← visit_field rhs s1;
            Ok (BinOp lhs' op rhs', s2)).
    rewrite (untouched_field _ IHl Hl). cbn [mbind result_bind].
    by rewrite (untouched_field _ IHr Hr).
  - change (visit (BoolOp op values) st)
      with ('(values', s1) ← visit_items values st; Ok (BoolOp op values', s1)).
    by rewrite (untouched_items _ IHvs H).
  - apply andb_prop in H as [Hl Hc].
    change (visit (Compare lhs ops comparators) st)
      with ('(lhs', s1) ← visit_field lhs st;
            '(comparators', s2) ← visit_items comparators s1;
            Ok (Compare lhs' ops comparators', s2)).
    rewrite (untouched_field _ IHl Hl). cbn [mbind result_bind].
    by rewrite (untouched_items _ IHc Hc).
  - change (visit (List_ elts ctx ob) st)
      with ('(elts', s1) ← visit_items elts st; Ok (List_ elts' ctx ob, s1)).
    by rewrite (untouched_items _ IHe H).
Qed.

(** The visit of [recv.arr[idx].port] up to the visit of the index. *)
Lemma visit_list_reference recv arr c1 idx c2 port c3 ob3 x elts fs nm ports st0 :
  truthy st0 = None → port ≠ "" →
  (∀ e, recv = Some e → is_Subscript e = false) →
  isinstance x Model = true → name_of x = Ok nm →
  mapM (λ y, getattr y port) (x :: elts) = Ok ports →
  visit (Attribute
           (Some (Subscript (Some (Attribute recv arr c1 (Some (PyList (x :: elts) fs))))
                            (Some idx) c2 (Some (PyList (x :: elts) fs))))
           port c3 ob3) st0
  = ('(idx', _) ← visit idx (Some port);
     Ok (Subscript
           (Some (Attribute recv (arr ++ "$" ++ port) c1
                    (Some (PyList ports [("name", PyStr (arr ++ "$" ++ port))]))))
           (Some idx') c2
           (Some (PyList ports [("name", PyStr (before_bracket nm ++ "$" ++ port))])),
         None)).
Proof.
  intros Hst Hport Hrecv Hx Hnm Hports.
  rewrite visit_list_Attribute_Subscript. unfold rename_Attribute at 1. rewrite Hst.
  cbn [mbind result_bind]. rewrite visit_list_Subscript.
  unfold project_Subscript. rewrite (truthy_nonempty _ Hport).
  cbn [the_object getitem0 mbind result_bind]. rewrite Hx, Hnm.
  cbn [mbind result_bind]. unfold project at 1. cbn [py_iter mbind result_bind].
  rewrite Hports. cbn [mbind result_bind].
  rewrite !visit_list_field_Some, (visit_list_Attribute_plain _ _ _ _ _ Hrecv).
  unfold rename_Attribute. rewrite (truthy_nonempty _ Hport).
  cbn [the_object getitem0 mbind result_bind]. rewrite Hx.
  unfold project. cbn [py_iter mbind result_bind]. rewrite Hports.
  cbn [mbind result_bind]. rewrite visit_list_field_Some.
  by destruct (visit idx (Some port)) as [[idx' s2]|].
Qed.

(** X18: [recv.arr[idx].port], where [arr] is annotated with a list of
    sub-components that all have the attribute [port]: the attribute node
    goes away and the reference becomes the subscript [recv.arr$port[idx']]
    into a new list, the ports of the components in the order of the
    components, so that its element [i] is the [port] of element [i] of
    [arr].  The subscript node carries the same list, named after the
    first component.  The index [idx'] is what the pass makes of [idx]
    while the attribute is still pending: an index that holds no
    attribute access and no subscript stays as it is, and an error raised
    in the index is the result of the whole. *)
Theorem flatten_list_attribute recv arr c1 idx c2 port c3 ob3 x elts fs nm ports st0 :
  truthy st0 = None → port ≠ "" →
  (∀ e, recv = Some e → is_Subscript e = false) →
  isinstance x Model = true → name_of x = Ok nm →
  mapM (λ y, getattr y port) (x :: elts) = Ok ports →
  let reference :=
    Attribute
      (Some (Subscript (Some (Attribute recv arr c1 (Some (PyList (x :: elts) fs))))
                       (Some idx) c2 (Some (PyList (x :: elts) fs))))
      port c3 ob3 in
  let flat := λ idx',
    Subscript
      (Some (Attribute recv (arr ++ "$" ++ port) c1
               (Some (PyList ports [("name", PyStr (arr ++ "$" ++ port))]))))
      (Some idx') c2
      (Some (PyList ports [("name", PyStr (before_bracket nm ++ "$" ++ port))])) in
  (∀ idx' s2, visit idx (Some port) = Ok (idx', s2) →
     visit reference st0 = Ok (flat idx', None)) ∧
  (plain idx = true → visit reference st0 = Ok (flat idx, None)) ∧
  (∀ ex, visit idx (Some port) = Raise ex → visit reference st0 = Raise ex) ∧
  length ports = length (x :: elts) ∧
  ∀ i y, (x :: elts) !! i = Some y → ∃ p, ports !! i = Some p ∧ getattr y port = Ok p.
Proof.
  intros Hst Hport Hrecv Hx Hnm Hports reference flat. subst reference flat.
  pose proof (visit_list_reference recv arr c1 idx c2 port c3 ob3 x elts fs nm ports st0
                Hst Hport Hrecv Hx Hnm Hports) as Heq.
  split; [|split; [|split]].
  - intros idx' s2 Hidx. by rewrite Heq, Hidx.
  - intros Hplain. by rewrite Heq, (visit_plain idx Hplain).
  - intros ex Hidx. by rewrite Heq, Hidx.
  - apply mapM_Forall2 in Hports. split; [symmetry; by eapply Forall2_length|].
    intros i y Hy. destruct (Forall2_lookup_l _ _ _ _ _ Hports Hy) as (p & Hp & Hg).
    eauto.
Qed.

Lemma flatten_list_attribute_witness :
  let idx := Index (Some (BinOp (Some (Name "i" Load (Some PyNone))) Add (Some (Num 1)))) in
  visit (Attribute
           (Some (Subscript
                    (Some (Attribute (Some Design.s_bound) "mods" Load (Some Design.mods)))
                    (Some idx) Load (Some Design.mods)))
           "out" Load (Some Design.out0)) None
  = Ok (Subscript
          (Some (Attribute (Some Design.s_bound) "mods$out" Load
                   (Some (PyList [Design.out0; Design.out1] [("name", PyStr "mods$out")]))))
          (Some idx) Load
          (Some (PyList [Design.out0; Design.out1] [("name", PyStr "mods$out")])),
        None) ∧
  length [Design.out0; Design.out1] = length [Design.mod0; Design.mod1] ∧
  ∀ i y, [Design.mod0; Design.mod1] !! i = Some y →
         ∃ p, [Design.out0; Design.out1] !! i = Some p ∧ getattr y "out" = Ok p.
Proof.
  intros idx.
  destruct (flatten_list_attribute (Some Design.s_bound) "mods" Load idx Load
              "out" Load (Some Design.out0) Design.mod0 [Design.mod1]
              [("name", PyStr "mods")] "mods[0]" [Design.out0; Design.out1] None)
    as (_ & Hplain & _ & Hlen & Hports);
    try reflexivity; try discriminate.
  - by intros e [= <-].
  - split; [exact (Hplain eq_refl)|]. split; [exact Hlen | exact Hports].
Defined.

(** An attribute access in the index is met while the attribute is
    pending, and so is taken for a list to flatten: [s.mods[s.IDX].out]
    fails on [node._object[0]] of [s.IDX]. *)
Example attribute_in_the_index_raises :
  visit (Attribute
           (Some (Subscript
                    (Some (Attribute (Some Design.s_bound) "mods" Load (Some Design.mods)))
                    (Some (Index (Some (Attribute (Some Design.s_bound) "IDX" Load
                                                  (Some (PyInt 1))))))
                    Load (Some Design.mods)))
           "out" Load (Some Design.out0)) None
  = Raise TypeError.
Proof. reflexivity. Qed.

(** X19: the same reference over a list whose first element is neither a
    sub-component nor a port bundle (a list of signals, say) cannot be
    flattened: the pass raises its own exception. *)
Theorem flatten_list_unknown recv arr c1 idx c2 port c3 ob3 x elts fs st0 :
  truthy st0 = None → port ≠ "" →
  (∀ e, recv = Some e → is_Subscript e = false) →
  isinstance x Model = false → isinstance x PortBundle = false →
  visit (Attribute
           (Some (Subscript (Some (Attribute recv arr c1 (Some (PyList (x :: elts) fs))))
                            (Some idx) c2 (Some (PyList (x :: elts) fs))))
           port c3 ob3) st0
  = Raise (Exception_ "Don't know how to flatten this!").
Proof.
  intros Hst Hport Hrecv Hm Hb.
  rewrite visit_list_Attribute_Subscript. unfold rename_Attribute at 1. rewrite Hst.
  cbn [mbind result_bind]. rewrite visit_list_Subscript.
  unfold project_Subscript. rewrite (truthy_nonempty _ Hport).
  cbn [the_object getitem0 mbind result_bind]. rewrite Hm, Hb.
  cbn [mbind result_bind].
  rewrite !visit_list_field_Some, (visit_list_Attribute_plain _ _ _ _ _ Hrecv).
  unfold rename_Attribute. rewrite (truthy_nonempty _ Hport).
  cbn [the_object getitem0 mbind result_bind]. by rewrite Hm, Hb.
Qed.

Lemma flatten_list_unknown_witness :
  visit (Attribute
           (Some (Subscript (Some (Attribute (Some Design.s_bound) "arr" Load (Some Design.arr)))
                            (Some Design.i_bound) Load (Some Design.arr)))
           "nbits" Load (Some (PyInt 4))) None
  = Raise (Exception_ "Don't know how to flatten this!").
Proof.
  apply (flatten_list_unknown (Some Design.s_bound) "arr" Load Design.i_bound Load
           "nbits" Load (Some (PyInt 4)) Design.a [Design.b] [("name", PyStr "arr")] None);
    try reflexivity; try discriminate.
  by intros e [= <-].
Defined.

End flatten_list_attrs.

(** ** RemoveValueNext *)

Section remove_value_next.
Import RemoveValueNext.

Lemma accessor_free_set_ctx ctx e : accessor_free (set_ctx ctx e) = accessor_free e.
Proof. by destruct e. Qed.

Lemma strips_field o :
  opt_all strips o → ∀ o', visit_field o = Ok o' →
    (all_field accessors_on_top o = true → all_field accessor_free o' = true) ∧
    (all_field accessor_free o = true → o' = o).
Proof.
  destruct o as [e|]; cbn [opt_all visit_field all_field].
  - intros He o' H. destruct (visit e) as [e'|] eqn:Hv; cbn [mbind result_bind] in H; [|done].
    injection H as <-. destruct (He e' Hv) as [H1 H2]. split; [done|].
    intros Hf. by rewrite (H2 Hf).
  - by intros _ o' [= <-].
Qed.

Lemma strips_items l :
  Forall strips l → ∀ l', visit_items l = Ok l' →
    (forallb accessors_on_top l = true → forallb accessor_free l' = true) ∧
    (forallb accessor_free l = true → l' = l).
Proof.
  induction 1 as [|e l He _ IH]; intros l' H; cbn in H.
  - by injection H as <-.
  - destruct (visit e) as [e'|] eqn:Hv; cbn [mbind result_bind] in H; [|done].
    destruct (visit_items l) as [l0|] eqn:Hl; cbn [mbind result_bind] in H; [|done].
    injection H as <-. destruct (He e' Hv) as [H1 H2]. destruct (IH l0 eq_refl) as [H3 H4].
    split; intros [Ha Hb]%forallb_cons_true.
    + cbn. by rewrite H1, H3.
    + by rewrite (H2 Ha), (H4 Hb).
Qed.

(** Opens the next bind of [H] on a field or on a list of items, and
    brings in what is known of its result. *)
Ltac open_field H IH :=
  match type of H with
  | mbind _ (visit_field ?o) = Ok _ =>
      let E := fresh "E" in let F := fresh "F" in
      destruct (visit_field o) eqn:E; cbn [mbind result_bind] in H; [|discriminate H];
      pose proof (strips_field o IH _ E) as F; clear E
  | mbind _ (visit_items ?l) = Ok _ =>
      let E := fresh "E" in let F := fresh "F" in
      destruct (visit_items l) eqn:E; cbn [mbind result_bind] in H; [|discriminate H];
      pose proof (strips_items l IH _ E) as F; clear E
  end.

Ltac close_shape H :=
  injection H as <-;
  split; intros Hs; cbn [accessor_free accessors_on_top] in Hs |- *;
  repeat match type of Hs with
         | _ && _ = true => let Hs' := fresh "Hs" in apply andb_prop in Hs as [Hs Hs']
         end;
  repeat match goal with
         | F : (_ → _) ∧ (_ → _) |- _ => destruct F as [? ?]
         end;
  [ rewrite ?andb_true_iff; repeat split; auto
  | f_equal; auto ].

Lemma visit_strips e : strips e.
Proof.
  induction e as
    [n | id ctx ob | value attr ctx ob IHv | value slice ctx ob IHv IHs | value IHv
    | lower upper step IHl IHu IHst | func args IHf IHa | lhs op rhs IHl IHr
    | op values IHvs | lhs ops comparators IHl IHc | elts ctx ob IHe] using expr_ind';
    intros e' H.
  - by injection H as <-.
  - by injection H as <-.
  - change (visit_Attribute value attr ctx ob = Ok e') in H. unfold visit_Attribute in H.
    destruct (str_in attr accessors) eqn:Hacc.
    + destruct value as [v|]; [|done]. injection H as <-.
      cbn [accessor_free accessors_on_top all_field]. rewrite Hacc.
      split; [by rewrite accessor_free_set_ctx | done].
    + injection H as <-. split; [|done].
      cbn [accessor_free accessors_on_top]. by rewrite Hacc.
  - change ((value' ← visit_field value; slice' ← visit_field slice;
             Ok (Subscript value' slice' ctx ob)) = Ok e') in H.
    open_field H IHv. open_field H IHs. close_shape H.
  - change ((value' ← visit_field value; Ok (Index value')) = Ok e') in H.
    open_field H IHv. close_shape H.
  - change ((lower' ← visit_field lower; upper' ← visit_field upper;
             step' ← visit_field step; Ok (Slice lower' upper' step')) = Ok e') in H.
    open_field H IHl. open_field H IHu. open_field H IHst. close_shape H.
  - change ((func' ← visit_field func; args' ← visit_items args;
             Ok (Call func' args')) = Ok e') in H.
    open_field H IHf. open_field H IHa. close_shape H.
  - change ((lhs' ← visit_field lhs; rhs' ← visit_field rhs;
             Ok (BinOp lhs' op rhs')) = Ok e') in H.
    open_field H IHl. open_field H IHr. close_shape H.
  - change ((values' ← visit_items values; Ok (BoolOp op values')) = Ok e') in H.
    open_field H IHvs. close_shape H.
  - change ((lhs' ← visit_field lhs; comparators' ← visit_items comparators;
             Ok (Compare lhs' ops comparators')) = Ok e') in H.
    open_field H IHl. open_field H IHc. close_shape H.
  - change ((elts' ← visit_items elts; Ok (List_ elts' ctx ob)) = Ok e') in H.
    open_field H IHe. close_shape H.
Qed.

(** X20: the pass replaces an attribute access whose attribute is an
    accessor ([.next], [.value], [.n], [.v]) by its receiver, which takes
    the [ctx] of the access and is not visited; any other attribute access
    is returned as it is.  So a tree whose accessors all sit on top, with
    none below an attribute access, comes out free of accessors, and a
    tree free of accessors comes out unchanged. *)
Theorem remove_value_next_strips :
  (∀ recv attr ctx ob, str_in attr accessors = true →
     visit (Attribute (Some recv) attr ctx ob) = Ok (set_ctx ctx recv)) ∧
  (∀ value attr ctx ob, str_in attr accessors = false →
     visit (Attribute value attr ctx ob) = Ok (Attribute value attr ctx ob)) ∧
  (∀ e e', visit e = Ok e' →
     (accessors_on_top e = true → accessor_free e' = true) ∧
     (accessor_free e = true → e' = e)).
Proof.
  split; [|split].
  - intros recv attr ctx ob Hacc. cbn [visit]. unfold visit_Attribute. by rewrite Hacc.
  - intros value attr ctx ob Hacc. cbn [visit]. unfold visit_Attribute. by rewrite Hacc.
  - intros e e'. apply visit_strips.
Qed.

Lemma remove_value_next_strips_witness :
  visit (Attribute (Some (Attribute (Some Design.s) "a" Load None)) "next" Store None)
    = Ok (Attribute (Some Design.s) "a" Store None) ∧
  visit (Attribute (Some Design.s) "a" Load None)
    = Ok (Attribute (Some Design.s) "a" Load None) ∧
  accessor_free (Attribute (Some Design.s) "a" Store None) = true.
Proof.
  destruct remove_value_next_strips as (Hacc & Hother & Hshape).
  split; [|split].
  - by apply (Hacc (Attribute (Some Design.s) "a" Load None) "next" Store None).
  - by apply (Hother (Some Design.s) "a" Load None).
  - by apply (Hshape Design.s_a_next (Attribute (Some Design.s) "a" Store None)).
Defined.

(** An accessor below the receiver stays: in [a[i.value].next] only
    [.next] goes. *)
Example accessor_in_the_receiver_stays :
  visit (Attribute
           (Some (Subscript (Some (Name "a" Load None))
                            (Some (Index (Some (Attribute (Some (Name "i" Load None))
                                                          "value" Load None))))
                            Load None))
           "next" Store None)
  = Ok (Subscript (Some (Name "a" Load None))
                  (Some (Index (Some (Attribute (Some (Name "i" Load None))
                                                "value" Load None))))
                  Store None).
Proof. reflexivity. Qed.

End remove_value_next.

(** ** RemoveSelf *)

Section remove_self.
Import RemoveSelf.
Variable model : pyobj.

Lemma removes_field o :
  opt_all (removes model) o → ∀ o', visit_field model o = Ok o' →
    all_field (self_free model) o' = true ∧
    (all_field (self_free model) o = true → o' = o).
Proof.
  destruct o as [e|]; cbn [opt_all visit_field all_field]; [auto|].
  by intros _ o' [= <-].
Qed.

Lemma removes_items l :
  Forall (removes model) l → ∀ l', visit_items model l = Ok l' →
    forallb (self_free model) l' = true ∧
    (forallb (self_free model) l = true → l' = l).
Proof.
  induction 1 as [|e l He _ IH]; intros l' H; cbn in H.
  - by injection H as <-.
  - destruct (visit model e) as [r|] eqn:Hv; cbn [mbind result_bind] in H; [|done].
    destruct (visit_items model l) as [l0|] eqn:Hl; cbn [mbind result_bind] in H; [|done].
    injection H as <-. destruct (He r Hv) as [H1 H2]. destruct (IH l0 eq_refl) as [H3 H4].
    split.
    + destruct r as [e'|]; [|done]. cbn in *. by rewrite H1, H3.
    + intros [Ha Hb]%forallb_cons_true. by rewrite (H2 Ha), (H4 Hb).
Qed.

Ltac open_field H IH :=
  match type of H with
  | mbind _ (visit_field model ?o) = Ok _ =>
      let E := fresh "E" in let F := fresh "F" in
      destruct (visit_field model o) eqn:E; cbn [mbind result_bind] in H; [|discriminate H];
      pose proof (removes_field o IH _ E) as F; clear E
  | mbind _ (visit_items model ?l) = Ok _ =>
      let E := fresh "E" in let F := fresh "F" in
      destruct (visit_items model l) eqn:E; cbn [mbind result_bind] in H; [|discriminate H];
      pose proof (removes_items l IH _ E) as F; clear E
  end.

Ltac close_shape H :=
  injection H as <-;
  repeat match goal with
         | F : _ ∧ (_ → _) |- _ => destruct F as [? ?]
         end;
  split; [cbn [all_field self_free]; rewrite ?andb_true_iff; repeat split; auto|];
  intros Hs; cbn [self_free] in Hs;
  repeat match type of Hs with
         | _ && _ = true => let Hs' := fresh "Hs" in apply andb_prop in Hs as [Hs Hs']
         end;
  do 2 f_equal; auto.

Lemma visit_removes e : removes model e.
Proof.
  induction e as
    [n | id ctx ob | value attr ctx ob IHv | value slice ctx ob IHv IHs | value IHv
    | lower upper step IHl IHu IHst | func args IHf IHa | lhs op rhs IHl IHr
    | op values IHvs | lhs ops comparators IHl IHc | elts ctx ob IHe] using expr_ind';
    intros r H.
  - by injection H as <-.
  - change (visit_Name model id ctx ob = Ok r) in H. unfold visit_Name in H.
    destruct ob as [o|]; [|done]. cbn [get_object mbind result_bind] in H.
    cbn [self_free]. destruct (pyobj_eqb o model) eqn:Heq; injection H as <-.
    + done.
    + cbn. by rewrite Heq.
  - change ((value' ← visit_field model value; Ok (Some (Attribute value' attr ctx ob)))
            = Ok r) in H.
    open_field H IHv. close_shape H.
  - change ((value' ← visit_field model value; slice' ← visit_field model slice;
             Ok (Some (Subscript value' slice' ctx ob))) = Ok r) in H.
    open_field H IHv. open_field H IHs. close_shape H.
  - change ((value' ← visit_field model value; Ok (Some (Index value'))) = Ok r) in H.
    open_field H IHv. close_shape H.
  - change ((lower' ← visit_field model lower; upper' ← visit_field model upper;
             step' ← visit_field model step; Ok (Some (Slice lower' upper' step')))
            = Ok r) in H.
    open_field H IHl. open_field H IHu. open_field H IHst. close_shape H.
  - change ((func' ← visit_field model func; args' ← visit_items model args;
             Ok (Some (Call func' args'))) = Ok r) in H.
    open_field H IHf. open_field H IHa. close_shape H.
  - change ((lhs' ← visit_field model lhs; rhs' ← visit_field model rhs;
             Ok (Some (BinOp lhs' op rhs'))) = Ok r) in H.
    open_field H IHl. open_field H IHr. close_shape H.
  - change ((values' ← visit_items model values; Ok (Some (BoolOp op values'))) = Ok r) in H.
    open_field H IHvs. close_shape H.
  - change ((lhs' ← visit_field model lhs; comparators' ← visit_items model comparators;
             Ok (Some (Compare lhs' ops comparators'))) = Ok r) in H.
    open_field H IHl. open_field H IHc. close_shape H.
  - change ((elts' ← visit_items model elts; Ok (Some (List_ elts' ctx ob))) = Ok r) in H.
    open_field H IHe. close_shape H.
Qed.

(** X21: what the pass returns holds no name bound to the component any
    more, and a tree that held none comes back as it is. *)
Theorem remove_self_removes e r :
  visit model e = Ok r →
  all_field (self_free model) r = true ∧
  (self_free model e = true → r = Some e).
Proof. apply visit_removes. Qed.

End remove_self.

Lemma remove_self_removes_witness :
  RemoveSelf.visit Design.top Design.s_sub_port =
    Ok (Some (Attribute (Some (Attribute None "sub" Load (Some Design.sub)))
                        "port" Load (Some Design.port))) ∧
  all_field (RemoveSelf.self_free Design.top)
    (Some (Attribute (Some (Attribute None "sub" Load (Some Design.sub)))
                     "port" Load (Some Design.port))) = true.
Proof.
  split; [by vm_compute|].
  apply (remove_self_removes Design.top Design.s_sub_port). by vm_compute.
Defined.

Example remove_self_unannotated_name :
  RemoveSelf.visit Design.top (Name "tmp" Load None) = Raise (AttributeError "_object").
Proof. reflexivity. Qed.

(** ** AnnotateWithObjects: the tree that comes back *)

Section annotate_shape.
Import AnnotateWithObjects.
Variable E : env.

Ltac open_bind H :=
  match type of H with
  | mbind _ ?m = Ok _ =>
      let E := fresh "E" in
      destruct m as [[? ?]|?] eqn:E; cbn [mbind result_bind] in H; [|discriminate H]
  end.

Lemma annotating_field o :
  opt_all (annotating E) o → ∀ st o' st', visit_field E o st = Ok (o', st') →
    all_field annotated o' = true ∧ erase <$> o' = erase <$> o.
Proof.
  destruct o as [e|]; cbn [opt_all visit_field].
  - intros He st o' st' H. open_bind H. injection H as <- _.
    destruct (He _ _ _ E0) as [H1 H2]. cbn. by rewrite H2.
  - by intros _ st o' st' [= <- _].
Qed.

Lemma annotating_items l :
  Forall (annotating E) l → ∀ st l' st', visit_items E l st = Ok (l', st') →
    forallb annotated l' = true ∧ erase <$> l' = erase <$> l.
Proof.
  induction 1 as [|e l He _ IH]; intros st l' st' H; cbn in H.
  - by injection H as <- _.
  - open_bind H. open_bind H. injection H as <- _.
    destruct (He _ _ _ E0) as [H1 H2]. destruct (IH _ _ _ E1) as [H3 H4].
    cbn. by rewrite H1, H2, H3, H4.
Qed.

Lemma annotating_elts l :
  Forall (annotating E) l → ∀ st l' os st', visit_elts E l st = Ok (l', os, st') →
    forallb annotated l' = true ∧ erase <$> l' = erase <$> l.
Proof.
  induction 1 as [|e l He _ IH]; intros st l' os st' H; cbn in H.
  - by injection H as <- _ _.
  - open_bind H. destruct (get_object _); cbn [mbind result_bind] in H; [|done].
    destruct (visit_elts E l _) as [[[? ?] ?]|] eqn:El in H;
      cbn [mbind result_bind] in H; [|done].
    injection H as <- _ _.
    destruct (He _ _ _ E0) as [H1 H2]. destruct (IH _ _ _ _ El) as [H3 H4].
    cbn. by rewrite H1, H2, H3, H4.
Qed.

Lemma bind_Attribute_node value attr ctx st e' st' :
  bind_Attribute value attr ctx st = Ok (e', st') →
  ∃ o, e' = Attribute value attr ctx (Some o).
Proof.
  unfold bind_Attribute. intros H.
  destruct (match deref st with Some _ => _ | None => _ end);
    cbn [mbind result_bind] in H; [|done].
  injection H as <- _. eauto.
Qed.

Lemma bind_Subscript_node value slice ctx st e' st' :
  bind_Subscript value slice ctx st = Ok (e', st') →
  ∃ o, e' = Subscript (Some value) (Some slice) ctx (Some o).
Proof.
  unfold bind_Subscript. intros H.
  destruct (match deref st with Some _ => _ | None => _ end);
    cbn [mbind result_bind] in H; [|done].
  injection H as <- _. eauto.
Qed.

Lemma visit_annotates e : annotating E e.
Proof.
  induction e as
    [n | id ctx ob | value attr ctx ob IHv | value slice ctx ob IHv IHs | value IHv
    | lower upper step IHl IHu IHst | func args IHf IHa | lhs op rhs IHl IHr
    | op values IHvs | lhs ops comparators IHl IHc | elts ctx ob IHe] using expr_ind';
    intros st e' st' H.
  - by injection H as <- _.
  - change (Ok (visit_Name E id ctx st) = Ok (e', st')) in H.
    apply Ok_inj in H. unfold visit_Name in H. by injection H as <- _.
  - change (('(value', st1) ← visit_field E value st;
             bind_Attribute value' attr ctx st1) = Ok (e', st')) in H.
    open_bind H. destruct (annotating_field _ IHv _ _ _ E0) as [H1 H2].
    apply bind_Attribute_node in H as [o' ->]. cbn. by rewrite H1, H2.
  - destruct value as [value|], slice as [slice|]; cbn [visit] in H; try done.
    + open_bind H. open_bind H. cbn [opt_all] in IHv, IHs.
      destruct (IHv _ _ _ E0) as [H1 H2]. destruct (IHs _ _ _ E1) as [H3 H4].
      apply bind_Subscript_node in H as [o' ->]. cbn. by rewrite H1, H2, H3, H4.
    + by destruct (visit E value st).
  - change (('(value', st1) ← visit_field E value st; Ok (Index value', st1))
            = Ok (e', st')) in H.
    open_bind H. injection H as <- _.
    destruct (annotating_field _ IHv _ _ _ E0) as [H1 H2]. cbn. by rewrite H1, H2.
  - change (('(lower', st1) ← visit_field E lower st;
             '(upper', st2) ← visit_field E upper st1;
             '(step', st3) ← visit_field E step st2;
             Ok (Slice lower' upper' step', st3)) = Ok (e', st')) in H.
    do 3 open_bind H. injection H as <- _.
    destruct (annotating_field _ IHl _ _ _ E0) as [H1 H2].
    destruct (annotating_field _ IHu _ _ _ E1) as [H3 H4].
    destruct (annotating_field _ IHst _ _ _ E2) as [H5 H6].
    cbn. by rewrite H1, H2, H3, H4, H5, H6.
  - change (('(func', st1) ← visit_field E func st;
             '(args', st2) ← visit_items E args st1;
             Ok (Call func' args', st2)) = Ok (e', st')) in H.
    do 2 open_bind H. injection H as <- _.
    destruct (annotating_field _ IHf _ _ _ E0) as [H1 H2].
    destruct (annotating_items _ IHa _ _ _ E1) as [H3 H4].
    cbn. by rewrite H1, H2, H3, H4.
  - change (('(lhs', st1) ← visit_field E lhs st;
             '(rhs', st2) ← visit_field E rhs st1;
             Ok (BinOp lhs' op rhs', st2)) = Ok (e', st')) in H.
    do 2 open_bind H. injection H as <- _.
    destruct (annotating_field _ IHl _ _ _ E0) as [H1 H2].
    destruct (annotating_field _ IHr _ _ _ E1) as [H3 H4].
    cbn. by rewrite H1, H2, H3, H4.
  - change (('(values', st1) ← visit_items E values st; Ok (BoolOp op values', st1))
            = Ok (e', st')) in H.
    open_bind H. injection H as <- _.
    destruct (annotating_items _ IHvs _ _ _ E0) as [H1 H2]. cbn. by rewrite H1, H2.
  - change (('(lhs', st1) ← visit_field E lhs st;
             '(comparators', st2) ← visit_items E comparators st1;
             Ok (Compare lhs' ops comparators', st2)) = Ok (e', st')) in H.
    do 2 open_bind H. injection H as <- _.
    destruct (annotating_field _ IHl _ _ _ E0) as [H1 H2].
    destruct (annotating_items _ IHc _ _ _ E1) as [H3 H4].
    cbn. by rewrite H1, H2, H3, H4.
  - change (('(elts', objs, st1) ← visit_elts E elts st;
             Ok (List_ elts' ctx (Some (PyList objs [])), st1)) = Ok (e', st')) in H.
    destruct (visit_elts E elts st) as [[[? ?] ?]|] eqn:Ee;
      cbn [mbind result_bind] in H; [|done].
    injection H as <- _.
    destruct (annotating_elts _ IHe _ _ _ _ Ee) as [H1 H2]. cbn. by rewrite H1, H2.
Qed.

(** X22: when the binder returns, every name, attribute access, subscript
    and list literal of the tree carries an annotation (Python's [None]
    for what did not resolve). *)
Theorem binder_annotates_every_node e st e' st' :
  visit E e st = Ok (e', st') → annotated e' = true.
Proof. intros H. by destruct (visit_annotates e _ _ _ H). Qed.

(** X23: the binder only annotates: without the annotations, the tree it
    returns is the tree it was given. *)
Theorem binder_keeps_the_tree e st e' st' :
  visit E e st = Ok (e', st') → erase e' = erase e.
Proof. intros H. by destruct (visit_annotates e _ _ _ H). Qed.

Lemma deref_new_PyObj nm o st :
  deref (new_PyObj nm o st) = Some (length (heap st), mkPyObj nm o).
Proof.
  unfold deref, new_PyObj. cbn. by rewrite list_lookup_middle.
Qed.

Lemma follow_snoc v attrs a :
  follow v (attrs ++ [a]) = (o ← follow v attrs; py_getattr o a).
Proof. unfold follow. by rewrite foldl_snoc. Qed.

Lemma chain_snoc root attrs a :
  chain root (attrs ++ [a]) = Attribute (Some (chain root attrs)) a Load None.
Proof. unfold chain. by rewrite foldl_snoc. Qed.

(** X24: a reference [s.a1.a2...an] through a variable [s] of the closure
    that no global shadows, along attributes that all exist: the binder
    makes one new [PyObj], leaves it on the object the attributes lead to,
    with the attribute names glued together as its path (after the name
    of the variable, unless the variable is the component itself), and
    annotates the reference with that object. *)
Theorem binder_follows_attributes s v attrs o st :
  func_globals E !! s = None → closed_vars E !! s = Some v →
  follow v attrs = Some o →
  ∃ e',
    visit E (chain (Name s Load None) attrs) st =
      Ok (e', mkState
                (heap st ++
                 [mkPyObj (foldl String.append
                             (if pyobj_eqb v (model E) then "" else s) attrs) o])
                (Some (length (heap st)))) ∧
    get_object e' = Ok o.
Proof.
  intros Hg Hc. revert o. induction attrs as [|a attrs IH] using rev_ind; intros o Ho.
  - injection Ho as <-. eexists. split.
    + change (visit E (chain (Name s Load None) []) st)
        with (Ok (visit_Name E s Load st)).
      unfold visit_Name. rewrite Hg, Hc.
      assert (Hst : (if pyobj_eqb v (model E) then new_PyObj "" v st else new_PyObj s v st)
                    = new_PyObj (if pyobj_eqb v (model E) then "" else s) v st)
        by (by destruct (pyobj_eqb v (model E))).
      rewrite Hst. unfold current_inst. rewrite deref_new_PyObj. reflexivity.
    + reflexivity.
  - rewrite follow_snoc in Ho. destruct (follow v attrs) as [o1|] eqn:Ho1; [|done].
    cbn in Ho. destruct (IH o1 eq_refl) as (e1 & Hv & _).
    rewrite chain_snoc, foldl_snoc, bind_Attribute_eq. unfold visit_field. rewrite Hv.
    cbn [mbind result_bind]. unfold bind_Attribute.
    set (p := foldl String.append (if pyobj_eqb v (model E) then "" else s) attrs) in *.
    assert (Hd : deref (mkState (heap st ++ [mkPyObj p o1]) (Some (length (heap st))))
                 = Some (length (heap st), mkPyObj p o1)).
    { unfold deref. cbn. by rewrite list_lookup_middle. }
    rewrite Hd. cbn [inst]. rewrite Ho. cbn [mbind result_bind].
    assert (Hu : update (length (heap st)) a o
                   (mkState (heap st ++ [mkPyObj p o1]) (Some (length (heap st))))
                 = mkState (heap st ++ [mkPyObj (p ++ a) o]) (Some (length (heap st)))).
    { rewrite (update_eq _ _ (mkPyObj p o1)) by (cbn; by rewrite list_lookup_middle).
      cbn. f_equal. rewrite insert_app_r_alt by done.
      by rewrite Nat.sub_diag. }
    rewrite Hu. eexists. split; [reflexivity|].
    cbn [get_object]. unfold current_inst, deref. cbn.
    by rewrite list_lookup_middle.
Qed.

End annotate_shape.

Lemma binder_annotates_every_node_witness :
  annotated (Subscript (Some Design.s_arr_bound) (Some Design.i_bound) Load
                       (Some Design.arr)) = true.
Proof.
  apply (binder_annotates_every_node Design.E Design.s_arr_i AnnotateWithObjects.init _
           (AnnotateWithObjects.mkState
              [AnnotateWithObjects.mkPyObj "arr[]" Design.a] (Some 0))).
  by vm_compute.
Defined.

Lemma binder_keeps_the_tree_witness :
  erase (Subscript (Some Design.s_arr_bound) (Some Design.i_bound) Load (Some Design.arr))
  = erase Design.s_arr_i.
Proof.
  apply (binder_keeps_the_tree Design.E Design.s_arr_i AnnotateWithObjects.init _
           (AnnotateWithObjects.mkState
              [AnnotateWithObjects.mkPyObj "arr[]" Design.a] (Some 0))).
  by vm_compute.
Defined.

Lemma binder_follows_attributes_witness :
  ∃ e',
    AnnotateWithObjects.visit Design.E (chain (Name "s" Load None) ["sub"; "port"])
      AnnotateWithObjects.init =
      Ok (e', AnnotateWithObjects.mkState
                ([] ++ [AnnotateWithObjects.mkPyObj
                          (foldl String.append
                             (if pyobj_eqb Design.top Design.top then "" else "s")
                             ["sub"; "port"]) Design.port])
                (Some 0)) ∧
    get_object e' = Ok Design.port.
Proof.
  apply (binder_follows_attributes Design.E "s" Design.top ["sub"; "port"] Design.port
           AnnotateWithObjects.init); by vm_compute.
Defined.

Example path_of_s_sub_port :
  foldl String.append (if pyobj_eqb Design.top Design.top then "" else "s") ["sub"; "port"]
  = "subport".
Proof. reflexivity. Qed.

(** ** InferTemporaryTypes: copies and second runs *)

Section infer_more.
Import InferTemporaryTypes.

Lemma assoc_set_lookup {A} k k' (v : A) l :
  assoc k (assoc_set k' v l) = if String.eqb k k' then Some v else assoc k l.
Proof.
  induction l as [|[k0 v0] l IH]; cbn.
  - by destruct (String.eqb k k').
  - destruct (String.eqb_spec k' k0) as [->|Hne]; cbn.
    + by destruct (String.eqb k k0).
    + rewrite IH. destruct (String.eqb_spec k k0) as [->|]; [|done].
      destruct (String.eqb_spec k0 k'); [congruence|done].
Qed.

(** X25: an untyped name assigned from a name or an attribute access whose
    object is an instance (a signal, say) gets a copy of that object: its
    [name] is the name of the target, its [parent] is [None], and every
    other attribute, the width among them, is the one of the original. *)
Theorem infer_copies_signal id ctx value cls fields :
  (∃ vid vctx, value = Name vid vctx (Some (PyInst cls fields))) ∨
  (∃ recv attr vctx, value = Attribute recv attr vctx (Some (PyInst cls fields))) →
  ∃ obj,
    visit_Assign [Name id ctx (Some PyNone)] value =
      Ok (Assign [Name id ctx (Some obj)] value) ∧
    obj = PyInst cls (assoc_set "parent" PyNone (assoc_set "name" (PyStr id) fields)) ∧
    py_getattr obj "name" = Some (PyStr id) ∧
    py_getattr obj "parent" = Some PyNone ∧
    ∀ k, k ≠ "name" → k ≠ "parent" → py_getattr obj k = py_getattr (PyInst cls fields) k.
Proof.
  intros Hv. eexists. split; [|split; [reflexivity|]].
  - rewrite visit_Assign_untyped.
    by destruct Hv as [(vid & vctx & ->)|(recv & attr & vctx & ->)].
  - cbn [py_getattr]. rewrite !assoc_set_lookup. cbn. split; [done|]. split; [done|].
    intros k Hn Hp. rewrite !assoc_set_lookup.
    apply String.eqb_neq in Hn, Hp. by rewrite Hn, Hp.
Qed.

Lemma infer_copies_signal_witness :
  ∃ obj,
    visit_Assign [Design.tmp] (Name "a" Load (Some Design.a)) =
      Ok (Assign [Name "tmp" Store (Some obj)] (Name "a" Load (Some Design.a))) ∧
    obj = PyInst InPort
            (assoc_set "parent" PyNone
               (assoc_set "name" (PyStr "tmp")
                  [("name", PyStr "a"); ("fullname", PyStr "top.a"); ("nbits", PyInt 4)])) ∧
    py_getattr obj "name" = Some (PyStr "tmp") ∧
    py_getattr obj "parent" = Some PyNone ∧
    ∀ k, k ≠ "name" → k ≠ "parent" → py_getattr obj k = py_getattr Design.a k.
Proof.
  apply (infer_copies_signal "tmp" Store (Name "a" Load (Some Design.a)) InPort
           [("name", PyStr "a"); ("fullname", PyStr "top.a"); ("nbits", PyInt 4)]).
  left. by eexists _, _.
Defined.

Lemma setattr_instance o k v o' :
  setattr o k v = Ok o' → o' ≠ PyNone ∧ ∀ c, isinstance o' c = isinstance o c.
Proof. destruct o; try done; intros [= <-]; by split. Qed.

Lemma named_Wire_typed n id obj :
  named_Wire n id = Ok obj → obj ≠ PyNone ∧ isinstance obj BitsClass = false.
Proof. by intros [= <-]. Qed.

Lemma eq_None_typed o :
  o ≠ PyNone → isinstance o BitsClass = false → eq_None o = Ok false.
Proof. destruct o as [| | | | |[]]; try done. Qed.

(** What [infer] returns is never [None], and it is a Bits only when it
    copied one. *)
Lemma infer_typed id value obj :
  infer id value = Ok obj →
  obj ≠ PyNone ∧ (isinstance obj BitsClass = false → eq_None obj = Ok false).
Proof.
  intros H. enough (obj ≠ PyNone) by (split; [done|]; by apply eq_None_typed).
  assert (Href : ∀ v, infer_ref id v = Ok obj → obj ≠ PyNone).
  { intros v. unfold infer_ref, copy_as.
    destruct (get_object v) as [o|]; cbn [mbind result_bind]; [|done].
    destruct (is_int o); [by intros [= <-]|].
    destruct (setattr o "name" (PyStr id)) as [o1|] eqn:H1; cbn [mbind result_bind]; [|done].
    intros H2. by apply setattr_instance in H2 as [? _]. }
  assert (Hw : ∀ n, named_Wire n id = Ok obj → obj ≠ PyNone)
    by (intros n Hn; by apply named_Wire_typed in Hn as [? _]).
  destruct value as
    [n | vid vctx vob | recv attr vctx vob | sv sl sctx sob | | | func args | | | |];
    cbn [infer] in H; eauto; try done.
  - by injection H as <-.
  - destruct sl as [[]|]; eauto; done.
  - unfold infer_Call in H. destruct func as [[]|]; try done.
    repeat match type of H with
    | (if ?c then _ else _) = _ => destruct c
    | match ?m with _ => _ end = _ => destruct m eqn:?
    | mbind _ ?m = _ => destruct m eqn:?; cbn [mbind result_bind] in H
    end; eauto; done.
Qed.

(** X26: the pass returns the assignment with its right-hand side
    untouched and a target whose annotation is not [None]; given its own
    result it returns it again, unless the annotation is a Bits constant
    (comparing one with [None] fails an assertion of [Bits.__eq__]). *)
Theorem infer_second_run targets value s' :
  visit_Assign targets value = Ok s' →
  ∃ target o,
    s' = Assign [target] value ∧ get_object target = Ok o ∧ o ≠ PyNone ∧
    (isinstance o BitsClass = false → visit_Assign [target] value = Ok s').
Proof.
  unfold visit_Assign. intros H.
  destruct targets as [|target [|]]; try done. cbn [length Nat.eqb py_assert mbind result_bind] in H.
  cbn [length Nat.eqb py_assert mbind result_bind].
  destruct (get_object target) as [o|] eqn:Ho; cbn [mbind result_bind] in H; [|done].
  destruct (eq_None o) as [[]|] eqn:Hnone; cbn [mbind result_bind] in H; [| |done].
  - destruct target as [|id ctx ob| | | | | | | | |]; try done.
    destruct (infer id value) as [obj|] eqn:Hobj; cbn [mbind result_bind] in H; [|done].
    injection H as <-. apply infer_typed in Hobj as [Hnn Hb].
    exists (Name id ctx (Some obj)), obj. split; [done|]. split; [done|]. split; [done|].
    intros Hbits. cbn [get_object mbind result_bind]. by rewrite (Hb Hbits).
  - injection H as <-. exists target, o. split; [done|]. split; [done|].
    split; [by destruct o|]. intros _. rewrite Ho. cbn [mbind result_bind].
    by rewrite Hnone.
Qed.

Lemma infer_second_run_witness :
  ∃ target o,
    Assign [Name "tmp" Store (Some (PyInst Wire [("nbits", PyInt 12); ("name", PyStr "tmp")]))]
           Design.concat_a_b
    = Assign [target] Design.concat_a_b ∧
    get_object target = Ok o ∧ o ≠ PyNone ∧
    (isinstance o BitsClass = false →
     visit_Assign [target] Design.concat_a_b =
       Ok (Assign [Name "tmp" Store
                     (Some (PyInst Wire [("nbits", PyInt 12); ("name", PyStr "tmp")]))]
                  Design.concat_a_b)).
Proof.
  apply (infer_second_run [Design.tmp] Design.concat_a_b). reflexivity.
Defined.

End infer_more.

(** ** GetRegsIntsParamsTempsArrays: what fills the sets *)

Section classifier_more.
Import GetRegsIntsParamsTempsArrays.

Ltac open_bind H :=
  match type of H with
  | mbind _ ?m = Ok _ =>
      let E := fresh "E" in
      destruct m eqn:E; cbn [mbind result_bind] in H; [|discriminate H]
  end.

Lemma same_registers_refl st : same_registers st st.
Proof. by repeat split. Qed.

Lemma same_registers_trans s1 s2 s3 :
  same_registers s1 s2 → same_registers s2 s3 → same_registers s1 s3.
Proof. intros (?&?&?) (?&?&?). repeat split; congruence. Qed.

Lemma same_registers_add_param nm ob st st' :
  add_param nm ob st = Ok st' → same_registers st st'.
Proof.
  unfold add_param. destruct ob as [o|]; [|done].
  destruct (_ || _); intros [= <-]; by repeat split.
Qed.

Lemma same_registers_track_array o st : same_registers st (track_array o st).
Proof. destruct o; by repeat split. Qed.

Lemma keeping_field o :
  opt_all keeping o → ∀ st st', visit_field o st = Ok st' → same_registers st st'.
Proof.
  destruct o as [e|]; cbn [opt_all visit_field]; [auto|].
  intros _ st st' [= <-]. apply same_registers_refl.
Qed.

Lemma keeping_items l :
  Forall keeping l → ∀ st st', visit_items l st = Ok st' → same_registers st st'.
Proof.
  induction 1 as [|e l He _ IH]; intros st st' H; cbn in H.
  - injection H as <-. apply same_registers_refl.
  - open_bind H. eapply same_registers_trans; [by eapply He | by eapply IH].
Qed.

Lemma visit_expr_keeps e : keeping e.
Proof.
  induction e as
    [n | id ctx ob | value attr ctx ob IHv | value slice ctx ob IHv IHs | value IHv
    | lower upper step IHl IHu IHst | func args IHf IHa | lhs op rhs IHl IHr
    | op values IHvs | lhs ops comparators IHl IHc | elts ctx ob IHe] using expr_ind';
    intros st st' H.
  - injection H as <-. apply same_registers_refl.
  - by eapply same_registers_add_param.
  - by eapply same_registers_add_param.
  - destruct ob as [o|]; [|done].
    destruct value as [value|], slice as [slice|]; cbn [visit_expr] in H; try done.
    + open_bind H. cbn [opt_all] in IHv, IHs.
      apply IHv in E. apply IHs in H.
      exact (same_registers_trans _ _ _ (same_registers_track_array o st)
               (same_registers_trans _ _ _ E H)).
    + by destruct (visit_expr value _).
  - by eapply (keeping_field value).
  - change ((st1 ← visit_field lower st; st2 ← visit_field upper st1;
             visit_field step st2) = Ok st') in H.
    do 2 open_bind H.
    apply (keeping_field _ IHl) in E. apply (keeping_field _ IHu) in E0.
    apply (keeping_field _ IHst) in H.
    exact (same_registers_trans _ _ _ (same_registers_trans _ _ _ E E0) H).
  - change ((st1 ← visit_field func st; visit_items args st1) = Ok st') in H.
    open_bind H. apply (keeping_field _ IHf) in E. apply (keeping_items _ IHa) in H.
    exact (same_registers_trans _ _ _ E H).
  - change ((st1 ← visit_field lhs st; visit_field rhs st1) = Ok st') in H.
    open_bind H. apply (keeping_field _ IHl) in E. apply (keeping_field _ IHr) in H.
    exact (same_registers_trans _ _ _ E H).
  - by eapply (keeping_items values).
  - change ((st1 ← visit_field lhs st; visit_items comparators st1) = Ok st') in H.
    open_bind H. apply (keeping_field _ IHl) in E. apply (keeping_items _ IHc) in H.
    exact (same_registers_trans _ _ _ E H).
  - by eapply (keeping_items elts).
Qed.

(** X27: during a run the sets only grow: an object in the array-element
    set or in the loop-variable set stays there, and a full name that has
    a signal in the register dictionary keeps one. *)
Theorem classifier_sets_grow s st st' :
  visit s st = Ok st' →
  (∀ x, pyset_in x (arrayelms st) = true → pyset_in x (arrayelms st') = true) ∧
  (∀ x, pyset_in x (loopvar st) = true → pyset_in x (loopvar st') = true) ∧
  (∀ fn, reg_at fn st → reg_at fn st').
Proof. apply visit_grows. Qed.

(** X28: the visit of an expression, whatever it holds, adds no register
    and no loop variable: only assignments and loops do. *)
Theorem expressions_add_no_register e st st' :
  visit_expr e st = Ok st' →
  store st' = store st ∧ loopvar st' = loopvar st.
Proof. intros H. by destruct (visit_expr_keeps e st st' H) as (? & ? & _). Qed.

(** X29: an assignment whose target is annotated with an element of an
    array that a subscript has shown before leaves the registers and the
    loop variables as they are: the element belongs to the array. *)
Theorem array_element_is_no_register target rest value obj st st' :
  visit (Assign (target :: rest) value) st = Ok st' →
  get_object target = Ok obj →
  pyset_in obj (arrayelms st) = true →
  store st' = store st ∧ loopvar st' = loopvar st.
Proof.
  intros H Hobj Hin. rewrite visit_Assign_eq, Hobj in H.
  destruct (py_assert _); cbn [mbind result_bind] in H; [|done].
  destruct (visit_expr target _) as [st1|] eqn:E1; cbn [mbind result_bind] in H; [|done].
  destruct (visit_expr value _) as [st2|] eqn:E2; cbn [mbind result_bind] in H; [|done].
  assert (Hin2 : pyset_in obj (arrayelms st2) = true).
  { apply visit_expr_grows in E1 as [Ha1 _]. apply visit_expr_grows in E2 as [Ha2 _].
    apply Ha2, Ha1. exact Hin. }
  unfold file_target in H. rewrite Hin2 in H. injection H as <-.
  apply visit_expr_keeps in E1 as (Hs1 & Hl1 & _).
  apply visit_expr_keeps in E2 as (Hs2 & Hl2 & _).
  cbn in *. split; congruence.
Qed.

Lemma classifier_sets_grow_witness :
  let before := mkState false {[ "top.b" := Design.b ]} [PyStr "j"] [] [] [Design.b] in
  let after :=
    mkState false {[ "top.b" := Design.b; "top.a" := Design.a ]}
            [PyStr "j"; PyStr "i"] [] [] [Design.b] in
  visit Design.loop before = Ok after ∧
  pyset_in Design.b (arrayelms after) = true ∧
  pyset_in (PyStr "j") (loopvar after) = true ∧
  reg_at "top.b" after.
Proof.
  intros before after.
  assert (Hrun : visit Design.loop before = Ok after) by (by vm_compute).
  destruct (classifier_sets_grow Design.loop before after Hrun) as (Ha & Hl & Hr).
  split; [exact Hrun|]. split; [by apply Ha|]. split; [by apply Hl|].
  apply Hr. exists Design.b. by vm_compute.
Defined.

Lemma expressions_add_no_register_witness :
  let seen := mkState false ∅ [] [("W", PyInt 16)] [(Design.arr, false)]
                      [Design.a; Design.b] in
  store seen = store init ∧ loopvar seen = loopvar init.
Proof.
  apply (expressions_add_no_register
           (Subscript (Some (Name "arr" Load (Some Design.arr)))
                      (Some (Index (Some (Name "W" Load (Some (PyInt 16))))))
                      Load (Some Design.arr))
           init).
  by vm_compute.
Defined.

Lemma array_element_is_no_register_witness :
  let st := track_array Design.arr init in
  let st' := mkState false ∅ [] [("W", PyInt 16)] [(Design.arr, false)]
                     [Design.a; Design.b] in
  visit (Assign [Name "a" Store (Some Design.a)] (Name "W" Load (Some (PyInt 16)))) st
    = Ok st' ∧
  store st' = store st ∧ loopvar st' = loopvar st.
Proof.
  split; [by vm_compute|].
  apply (array_element_is_no_register
           (Name "a" Store (Some Design.a)) [] (Name "W" Load (Some (PyInt 16)))
           Design.a (track_array Design.arr init)).
  - by vm_compute.
  - reflexivity.
  - by vm_compute.
Defined.

End classifier_more.
